(** * Navigation toolkit: a shallow embedding of the maintenance scripts

    The development follows the five scripts under [scripts/]:
    - [generate-endpoint-docs.py]       (module [Emitter]),
    - [improve-endpoint-navigation.py]  (modules [Icons] and [Accordion]),
    - [add-service-level-navigation.py] (module [Service]),
    - [update-docs-navigation.py]       (module [UpdateDocs]),
    - [update-llms-files.py]            (module [Summarizer]).

    Python strings are modelled as lists of characters with codes 0 to 255
    (module [Text]), JSON documents as a tree type with the encoder and the
    decoder of the [json] module on them (module [Json]), Python
    dictionaries as association lists in insertion order (module [Dict]),
    the operations of Python on such values with the exceptions they raise
    (module [Py]), and the three files that the navigation scripts touch as
    a record of optional contents, threaded with the console through a
    state-and-error monad (module [Script]).

    The first part holds the definitions, the second part the properties:
    the text and emitter facts, the icon update, the stable partitions of
    the two tree builders, the round trip of the JSON encoder and decoder,
    the runs of the three merge scripts, and the summarizer; then what the
    merges keep, what a second run does, the runs that stop early, the icon
    pass over the endpoint directory (module [IconPass]) and the pages that
    the generator writes (module [Generator]). *)

From Stdlib Require Import String Ascii Bool Arith ZArith Lia.
From Stdlib Require DecimalFacts DecimalPos DecimalZ.
From Stdlib Require Import List Permutation.
Import ListNotations.

Set Implicit Arguments.

(** ** Text *)

Definition text := list ascii.

(** String literals of the scripts, as [text]. *)
Definition txt (s : string) : text := list_ascii_of_string s.

(** Newline and double quote. *)
Definition nl : text := ["010"%char].
Definition dq : text := ["034"%char].

Module Text.

Definition ascii_eqb (a b : ascii) : bool := Ascii.eqb a b.

Fixpoint eqb (s t : text) : bool :=
  match s, t with
  | [], [] => true
  | a :: s', b :: t' => ascii_eqb a b && eqb s' t'
  | _, _ => false
  end.

(** [s.startswith(p)] *)
Fixpoint startswith (p s : text) : bool :=
  match p, s with
  | [], _ => true
  | a :: p', b :: s' => ascii_eqb a b && startswith p' s'
  | _ :: _, [] => false
  end.

(** [sub in s] for strings: [sub] occurs somewhere in [s]. *)
Fixpoint contains (sub s : text) : bool :=
  startswith sub s ||
  match s with
  | [] => false
  | _ :: s' => contains sub s'
  end.

Definition is_upper (c : ascii) : bool :=
  let n := nat_of_ascii c in (65 <=? n) && (n <=? 90).

Definition is_lower (c : ascii) : bool :=
  let n := nat_of_ascii c in (97 <=? n) && (n <=? 122).

Definition is_digit (c : ascii) : bool :=
  let n := nat_of_ascii c in (48 <=? n) && (n <=? 57).

Definition lower_char (c : ascii) : ascii :=
  if is_upper c then ascii_of_nat (nat_of_ascii c + 32) else c.

Definition upper_char (c : ascii) : ascii :=
  if is_lower c then ascii_of_nat (nat_of_ascii c - 32) else c.

(** [s.lower()] and [s.upper()] on ASCII text. *)
Definition lower (s : text) : text := map lower_char s.
Definition upper (s : text) : text := map upper_char s.

(** [s.replace(old, new)]: every non-overlapping occurrence of [old],
    scanning from the left.  [skip] counts the characters of an occurrence
    that are still to be dropped.  For an empty [old] Python inserts [new]
    before every character and at the end. *)
Fixpoint replace_from (skip : nat) (old new s : text) : text :=
  match s with
  | [] => []
  | c :: s' =>
      match skip with
      | S k => replace_from k old new s'
      | O =>
          if startswith old s
          then new ++ replace_from (length old - 1) old new s'
          else c :: replace_from 0 old new s'
      end
  end.

Definition replace (old new s : text) : text :=
  match old with
  | [] => new ++ flat_map (fun c => c :: new) s
  | _ :: _ => replace_from 0 old new s
  end.

(** [s.split(sep, 1)] for a one-character separator: the text before the
    first separator and, when there is one, the text after it. *)
Fixpoint split1 (sep : ascii) (s : text) : text * option text :=
  match s with
  | [] => ([], None)
  | c :: s' =>
      if ascii_eqb c sep then ([], Some s')
      else let (a, b) := split1 sep s' in (c :: a, b)
  end.

(** [s.split(sep)] for a one-character separator. *)
Fixpoint split (sep : ascii) (s : text) : list text :=
  match s with
  | [] => [[]]
  | c :: s' =>
      if ascii_eqb c sep then [] :: split sep s'
      else match split sep s' with
           | [] => [[c]]
           | w :: ws => (c :: w) :: ws
           end
  end.

(** [s.rfind(c)]: index of the last occurrence of the character. *)
Fixpoint rfind (c : ascii) (s : text) : option nat :=
  match s with
  | [] => None
  | d :: s' =>
      match rfind c s' with
      | Some i => Some (S i)
      | None => if ascii_eqb d c then Some 0 else None
      end
  end.

End Text.

(** ** Endpoint page emitter ([generate-endpoint-docs.py]) *)

Module Emitter.

Definition is_ident_char (c : ascii) : bool :=
  Text.is_lower c || Text.is_digit c || Text.ascii_eqb c "-"%char.

(** [sanitize_filename(name)]:
    [name.replace("/api/", "").lower()], then [replace("/", "-")], then
    [re.sub(r'[^a-z0-9\-]', '', name)]. *)
Definition sanitize_filename (name : text) : text :=
  let name := Text.lower (Text.replace (txt "/api/") [] name) in
  let name := Text.replace (txt "/") (txt "-") name in
  filter is_ident_char name.

(** The identifier derivation in the words of the specification: only a
    leading ["/api/"] is stripped. *)
Definition strip_prefix (p s : text) : text :=
  if Text.startswith p s then skipn (length p) s else s.

Definition spec_identifier (path : text) : text :=
  filter is_ident_char
    (Text.replace (txt "/") (txt "-")
       (Text.lower (strip_prefix (txt "/api/") path))).

(** One operation object of an OpenAPI path item; a missing key is [None]
    ([details.get(key, default)]). *)
Record operation := {
  op_summary : option text;
  op_description : option text;
  op_deprecated : option bool
}.

(** A path item: the operations keyed by HTTP method, in dictionary order. *)
Definition path_item := list (text * operation).

Fixpoint dict_get {A} (k : text) (d : list (text * A)) : option A :=
  match d with
  | [] => None
  | (k', v) :: d' => if Text.eqb k k' then Some v else dict_get k d'
  end.

Definition METHODS : list text :=
  [txt "get"; txt "post"; txt "put"; txt "delete"; txt "patch"].

Definition or_default {A} (o : option A) (d : A) : A :=
  match o with Some a => a | None => d end.

(** [get_method_and_summary(endpoint_data)] *)
Fixpoint first_method (methods : list text) (endpoint_data : path_item)
  : option (text * text * text * bool) :=
  match methods with
  | [] => None
  | m :: ms =>
      match dict_get m endpoint_data with
      | Some details =>
          Some (Text.upper m,
                or_default (op_summary details) [],
                or_default (op_description details) [],
                or_default (op_deprecated details) false)
      | None => first_method ms endpoint_data
      end
  end.

Definition get_method_and_summary (endpoint_data : path_item)
  : text * text * text * bool :=
  or_default (first_method METHODS endpoint_data) (txt "POST", [], [], false).

(** Python's [a or b] on strings: the first non-empty one. *)
Definition str_or (a b : text) : text :=
  match a with [] => b | _ :: _ => a end.

(** Lines 45-46: [if len(desc) > 160: desc = desc[:157] + "..."]. *)
Definition truncate_description (desc : text) : text :=
  if 160 <? length desc then firstn 157 desc ++ txt "..." else desc.

Definition icon_map : list (text * text) :=
  [ (txt "camera", txt "camera"); (txt "access-control", txt "lock");
    (txt "user", txt "user"); (txt "event", txt "calendar");
    (txt "location", txt "map-pin"); (txt "door", txt "door-open");
    (txt "sensor", txt "sensor"); (txt "video", txt "video");
    (txt "alert", txt "bell"); (txt "org", txt "building");
    (txt "webhook", txt "webhook"); (txt "oauth", txt "key");
    (txt "report", txt "chart-bar") ].

(** The [desc] of the frontmatter, after truncation. *)
Definition frontmatter_description (path : text) (endpoint_data : path_item) : text :=
  let '(_, summary, description, _) := get_method_and_summary endpoint_data in
  truncate_description
    (str_or description (str_or summary (txt "API endpoint for " ++ path))).

(** [generate_mdx_content(path, endpoint_data, category)] *)
Definition generate_mdx_content (path : text) (endpoint_data : path_item)
    (category : text) : text :=
  let '(method, summary, description, deprecated) :=
    get_method_and_summary endpoint_data in
  let title := str_or summary (Text.replace (txt "/api/") [] path) in
  let desc := frontmatter_description path endpoint_data in
  let icon := or_default (dict_get category icon_map) (txt "circle-dot") in
  let frontmatter :=
    txt "---" ++ nl ++
    txt "title: " ++ dq ++ title ++ dq ++ nl ++
    txt "description: " ++ dq ++ desc ++ dq ++ nl ++
    txt "openapi: " ++ dq ++ method ++ txt " " ++ path ++ dq ++ nl ++
    txt "icon: " ++ dq ++ icon ++ dq ++ nl in
  let frontmatter :=
    if deprecated then frontmatter ++ txt "deprecated: true" ++ nl
    else frontmatter in
  let frontmatter := frontmatter ++ txt "---" ++ nl ++ nl in
  let content := frontmatter in
  let content :=
    match description with
    | [] => content
    | _ :: _ =>
        if Text.eqb description summary then content
        else content ++ description ++ nl ++ nl
    end in
  let content :=
    if deprecated
    then content ++ txt "<Warning>" ++ nl ++
         txt "This endpoint is deprecated and may be removed in a future version." ++ nl ++
         txt "</Warning>" ++ nl ++ nl
    else content in
  content ++ txt "<Note>" ++ nl ++
  txt "The parameters and response fields below are automatically generated from the OpenAPI specification." ++ nl ++
  txt "</Note>" ++ nl.

End Emitter.

(** ** Icons and action categories ([improve-endpoint-navigation.py]) *)

Module Icons.

Definition ACTION_ICONS : list (text * text) :=
  [ (txt "create", txt "square-plus"); (txt "add", txt "user-plus");
    (txt "upload", txt "cloud-arrow-up");
    (txt "generate", txt "wand-magic-sparkles");
    (txt "calibrate", txt "sliders"); (txt "initiate", txt "play");
    (txt "trigger", txt "bolt");
    (txt "get", txt "eye"); (txt "find", txt "magnifying-glass");
    (txt "search", txt "magnifying-glass"); (txt "list", txt "list");
    (txt "getall", txt "list-check"); (txt "findall", txt "list-check");
    (txt "update", txt "pen-to-square"); (txt "edit", txt "pen");
    (txt "modify", txt "pen"); (txt "assign", txt "arrow-right-arrow-left");
    (txt "remove", txt "user-minus"); (txt "revoke", txt "ban");
    (txt "suspend", txt "pause"); (txt "unsuspend", txt "play");
    (txt "delete", txt "trash-can"); (txt "erase", txt "eraser");
    (txt "unlock", txt "lock-open"); (txt "lock", txt "lock");
    (txt "revert", txt "arrow-rotate-left") ].

Definition CATEGORY_ICONS : list (text * text) :=
  [ (txt "access-control", txt "key"); (txt "camera", txt "video");
    (txt "door", txt "door-open"); (txt "user", txt "user");
    (txt "event", txt "calendar"); (txt "alert", txt "bell");
    (txt "sensor", txt "sensor"); (txt "webhook", txt "webhook");
    (txt "location", txt "map-pin"); (txt "org", txt "building");
    (txt "oauth", txt "shield-halved");
    (txt "face-recognition", txt "face-smile");
    (txt "badge-reader", txt "id-card"); (txt "doorbell", txt "bell");
    (txt "climate", txt "temperature-half");
    (txt "export", txt "file-export"); (txt "report", txt "chart-line");
    (txt "developer", txt "code"); (txt "integration", txt "plug");
    (txt "keypad", txt "keyboard"); (txt "button", txt "circle-dot");
    (txt "device", txt "microchip"); (txt "component", txt "puzzle-piece") ].

(** [Path(p).name] of a POSIX path: the last component, where empty
    components and ["."] are dropped. *)
Definition path_name (p : text) : text :=
  last (filter (fun w => negb (Text.eqb w []) && negb (Text.eqb w (txt ".")))
               (Text.split "/"%char p)) [].

(** [Path(p).stem]: the name without its last suffix, as [pathlib] has it
    up to Python 3.13 ([i = name.rfind('.')]; [name[:i]] when
    [0 < i < len(name) - 1]). *)
Definition path_stem (p : text) : text :=
  let name := path_name p in
  match Text.rfind "."%char name with
  | Some i => if (0 <? i) && (i <? length name - 1) then firstn i name else name
  | None => name
  end.

Fixpoint take_while (f : ascii -> bool) (s : text) : text :=
  match s with
  | [] => []
  | c :: s' => if f c then c :: take_while f s' else []
  end.

(** [get_action_from_path(path)] *)
Definition get_action_from_path (path : text) : text :=
  let filename := path_stem path in
  let action_part :=
    match Text.split1 "-"%char filename with
    | (_, Some rest) => rest
    | (whole, None) => whole
    end in
  match take_while Text.is_lower (Text.lower action_part) with
  | [] => txt "other"
  | action => action
  end.

Fixpoint first_icon (test : text -> bool) (table : list (text * text))
  : option text :=
  match table with
  | [] => None
  | (key, icon) :: table' => if test key then Some icon else first_icon test table'
  end.

(** [get_icon_for_endpoint(category, action)] *)
Definition get_icon_for_endpoint (category action : text) : text :=
  match first_icon (fun key => Text.startswith key action) ACTION_ICONS with
  | Some icon => icon
  | None =>
      match first_icon (fun key => Text.contains key category) CATEGORY_ICONS with
      | Some icon => icon
      | None => txt "circle-dot"
      end
  end.

(** *** The substitution [re.sub(pattern, repl, content)]

    The pattern is the text [icon: ] followed by a double quote, any
    number of characters other than a double quote, and a double quote. *)

Definition ICON_OPEN : text := txt "icon: " ++ dq.

Definition is_quote (c : ascii) : bool := Text.ascii_eqb c "034"%char.

(** The text up to the first double quote, and the text after it. *)
Fixpoint until_quote (s : text) : option (text * text) :=
  match s with
  | [] => None
  | c :: s' =>
      if is_quote c then Some ([], s')
      else match until_quote s' with
           | Some (v, rest) => Some (c :: v, rest)
           | None => None
           end
  end.

(** A match of the pattern at the start of [s]: the quoted value and the
    text after the closing quote.  The character class of the pattern
    cannot run over a quote, so the match ends at the first quote after
    the opening one. *)
Definition match_icon (s : text) : option (text * text) :=
  if Text.startswith ICON_OPEN s
  then until_quote (skipn (length ICON_OPEN) s)
  else None.

(** A parsed replacement template: literal characters and references to
    the whole match ([\g<0>]; the pattern has no other group). *)
Inductive titem := TChar (c : ascii) | TGroup0.

Definition is_octal (c : ascii) : bool :=
  let n := nat_of_ascii c in (48 <=? n) && (n <=? 55).

Definition digit_val (c : ascii) : nat := nat_of_ascii c - 48.

Definition is_ascii_letter (c : ascii) : bool :=
  Text.is_lower c || Text.is_upper c.

(** The escapes [\a \b \f \n \r \t \v \\] of a template. *)
Definition template_escape (c : ascii) : option ascii :=
  if Text.ascii_eqb c "a" then Some "007"%char
  else if Text.ascii_eqb c "b" then Some "008"%char
  else if Text.ascii_eqb c "f" then Some "012"%char
  else if Text.ascii_eqb c "n" then Some "010"%char
  else if Text.ascii_eqb c "r" then Some "013"%char
  else if Text.ascii_eqb c "t" then Some "009"%char
  else if Text.ascii_eqb c "v" then Some "011"%char
  else if Text.ascii_eqb c "\" then Some "\"%char
  else None.

Fixpoint until_char (t : ascii) (s : text) : option (text * text) :=
  match s with
  | [] => None
  | c :: s' =>
      if Text.ascii_eqb c t then Some ([], s')
      else match until_char t s' with
           | Some (v, rest) => Some (c :: v, rest)
           | None => None
           end
  end.

Definition cons_item (i : titem) (r : option (list titem)) : option (list titem) :=
  match r with Some l => Some (i :: l) | None => None end.

(** The template parser of the [re] module (as of Python 3.12), for a
    pattern without groups; [None] is [re.error] (or the [IndexError] of an
    unknown group name).  The fuel is the length of the template. *)
Fixpoint parse_template (fuel : nat) (s : text) : option (list titem) :=
  match fuel with
  | O => match s with [] => Some [] | _ :: _ => None end
  | S fuel' =>
    match s with
    | [] => Some []
    | c :: s1 =>
      if negb (Text.ascii_eqb c "\") then cons_item (TChar c) (parse_template fuel' s1)
      else
        match s1 with
        | [] => None
        | e :: s2 =>
          if Text.ascii_eqb e "g" then
            match s2 with
            | lt :: s3 =>
                if Text.ascii_eqb lt "<" then
                  match until_char ">" s3 with
                  | Some (name, s4) =>
                      match name with
                      | [] => None
                      | _ :: _ =>
                          if forallb (fun d => Text.ascii_eqb d "0") name
                          then cons_item TGroup0 (parse_template fuel' s4)
                          else None
                      end
                  | None => None
                  end
                else None
            | [] => None
            end
          else if Text.ascii_eqb e "0" then
            match s2 with
            | d2 :: s3 =>
                if is_octal d2 then
                  match s3 with
                  | d3 :: s4 =>
                      if is_octal d3
                      then cons_item
                             (TChar (ascii_of_nat (8 * digit_val d2 + digit_val d3)))
                             (parse_template fuel' s4)
                      else cons_item (TChar (ascii_of_nat (digit_val d2)))
                                     (parse_template fuel' s3)
                  | [] => Some [TChar (ascii_of_nat (digit_val d2))]
                  end
                else cons_item (TChar "000"%char) (parse_template fuel' s2)
            | [] => Some [TChar "000"%char]
            end
          else if Text.is_digit e then
            match s2 with
            | d2 :: d3 :: s4 =>
                if is_octal e && is_octal d2 && is_octal d3 then
                  let v := 64 * digit_val e + 8 * digit_val d2 + digit_val d3 in
                  if 255 <? v then None
                  else cons_item (TChar (ascii_of_nat v)) (parse_template fuel' s4)
                else None
            | _ => None
            end
          else
            match template_escape e with
            | Some ch => cons_item (TChar ch) (parse_template fuel' s2)
            | None =>
                if is_ascii_letter e then None
                else cons_item (TChar c)
                       (cons_item (TChar e) (parse_template fuel' s2))
            end
        end
    end
  end.

Definition expand_item (matched : text) (i : titem) : text :=
  match i with
  | TChar c => [c]
  | TGroup0 => matched
  end.

Definition expand (template : list titem) (matched : text) : text :=
  flat_map (expand_item matched) template.

(** The substitution loop: leftmost matches, not overlapping; a character
    at which the pattern does not match is copied.  The fuel bounds the
    number of steps by the length of the content. *)
Fixpoint sub_loop (fuel : nat) (template : list titem) (s : text) : text :=
  match fuel with
  | O => s
  | S fuel' =>
      match s with
      | [] => []
      | c :: s' =>
          match match_icon s with
          | Some (v, rest) =>
              expand template (ICON_OPEN ++ v ++ dq) ++ sub_loop fuel' template rest
          | None => c :: sub_loop fuel' template s'
          end
      end
  end.

Definition re_sub_icon (repl content : text) : option text :=
  match parse_template (length repl) repl with
  | Some template => Some (sub_loop (length content) template content)
  | None => None
  end.

(** [file_path.read_text()] opens the file in text mode with the default
    [newline=None]: every line end of the stored file, carriage return and
    line feed or a carriage return alone, is read as one line feed. *)
Fixpoint universal_newlines (stored : text) : text :=
  match stored with
  | [] => []
  | c :: s' =>
      if Text.ascii_eqb c "013" then
        "010"%char ::
        match s' with
        | d :: s'' =>
            if Text.ascii_eqb d "010" then universal_newlines s''
            else universal_newlines s'
        | [] => []
        end
      else c :: universal_newlines s'
  end.

Definition read_text (stored : text) : text := universal_newlines stored.

(** [file_path.write_text(data)]: in text mode a line feed is written as
    the line separator of the platform, which is the line feed itself on
    POSIX, where the scripts run ([#!/usr/bin/env python3]). *)
Definition write_text (data : text) : text := data.

(** [update_endpoint_icon(file_path, new_icon)]: the file is the text stored
    in it, [None] when it cannot be read.  The result is the returned flag
    and the text stored in the file afterwards.  Every exception is caught
    and answered by [False]. *)
Definition update_endpoint_icon (file : option text) (new_icon : text)
  : bool * option text :=
  match file with
  | None => (false, None)
  | Some stored =>
      let content := read_text stored in
      match re_sub_icon (ICON_OPEN ++ new_icon ++ dq) content with
      | None => (false, Some stored)
      | Some updated_content =>
          if negb (Text.eqb updated_content content)
          then (true, Some (write_text updated_content))
          else (false, Some stored)
      end
  end.

(** *** [categorize_endpoints] *)

Definition any_in (words : list text) (filename : text) : bool :=
  existsb (fun word => Text.contains word filename) words.

Definition CREATE_WORDS := [txt "create"; txt "add"; txt "upload"; txt "generate"; txt "initiate"; txt "calibrate"].
Definition GET_WORDS := [txt "get"; txt "find"; txt "search"; txt "list"].
Definition UPDATE_WORDS := [txt "update"; txt "edit"; txt "modify"; txt "assign"; txt "remove"; txt "revoke"; txt "suspend"; txt "unsuspend"].
Definition DELETE_WORDS := [txt "delete"; txt "erase"].

(** The [if]/[elif] chain of the loop body: the category of one page. *)
Definition action_category (page : text) : text :=
  let filename := Text.lower (path_stem page) in
  if any_in CREATE_WORDS filename then txt "Create & Add"
  else if any_in GET_WORDS filename then txt "Get & Find"
  else if any_in UPDATE_WORDS filename then txt "Update & Modify"
  else if any_in DELETE_WORDS filename then txt "Delete & Remove"
  else txt "Other Operations".

Definition ACTION_CATEGORIES : list text :=
  [txt "Create & Add"; txt "Get & Find"; txt "Update & Modify";
   txt "Delete & Remove"; txt "Other Operations"].

(** [d[k].append(v)] on a dictionary of lists ([d] unchanged when the key
    is absent: in the script every key is present). *)
Fixpoint dict_append {A} (k : text) (v : A) (d : list (text * list A))
  : list (text * list A) :=
  match d with
  | [] => []
  | (k', l) :: d' =>
      if Text.eqb k k' then (k', l ++ [v]) :: d'
      else (k', l) :: dict_append k v d'
  end.

Definition nonempty {A} (l : list A) : bool :=
  match l with [] => false | _ :: _ => true end.

(** [categorize_endpoints(pages)], generic in the type of a page: [key]
    gives the text that is classified. *)
Definition categorize_by {A} (key : A -> text) (pages : list A)
  : list (text * list A) :=
  let categories := map (fun c => (c, @nil A)) ACTION_CATEGORIES in
  let categories :=
    fold_left (fun cats page => dict_append (action_category (key page)) page cats)
              pages categories in
  filter (fun kv => nonempty (snd kv)) categories.

Definition categorize_endpoints (pages : list text) : list (text * list text) :=
  categorize_by (fun page => page) pages.

End Icons.

(** ** JSON documents *)

(** A JSON value as [json.load] builds it: [None], [bool], [int], [str],
    [list] and [dict]; a [dict] is an association list in insertion order.
    Floating-point numbers are outside the model. *)
#[local] Unset Elimination Schemes.
Inductive json :=
| JNull
| JBool (b : bool)
| JNum (n : Z)
| JStr (s : text)
| JArr (items : list json)
| JObj (members : list (text * json)).
#[local] Set Elimination Schemes.

Module Dict.

(** [d.get(k)] / [k in d] *)
Fixpoint get {A} (k : text) (d : list (text * A)) : option A :=
  match d with
  | [] => None
  | (k', v) :: d' => if Text.eqb k k' then Some v else get k d'
  end.

(** [d[k] = v]: an existing key keeps its place, a new key goes last. *)
Fixpoint set {A} (k : text) (v : A) (d : list (text * A)) : list (text * A) :=
  match d with
  | [] => [(k, v)]
  | (k', v') :: d' =>
      if Text.eqb k k' then (k', v) :: d' else (k', v') :: set k v d'
  end.

(** [dict(pairs)] *)
Definition of_pairs {A} (pairs : list (text * A)) : list (text * A) :=
  fold_left (fun d kv => set (fst kv) (snd kv) d) pairs [].

Definition keys {A} (d : list (text * A)) : list text := map fst d.
Definition values {A} (d : list (text * A)) : list A := map snd d.

End Dict.

Module Json.

(** *** [json.dump(obj, f, indent=2)] *)

Definition hex_digit (n : nat) : ascii :=
  if n <? 10 then ascii_of_nat (48 + n) else ascii_of_nat (87 + n).

(** One character of a string literal, with [ensure_ascii=True]. *)
Definition escape_char (c : ascii) : text :=
  let n := nat_of_ascii c in
  if Text.ascii_eqb c "034" then ["\"; "034"]%char
  else if Text.ascii_eqb c "\" then ["\"; "\"]%char
  else if Text.ascii_eqb c "010" then ["\"; "n"]%char
  else if Text.ascii_eqb c "013" then ["\"; "r"]%char
  else if Text.ascii_eqb c "009" then ["\"; "t"]%char
  else if Text.ascii_eqb c "008" then ["\"; "b"]%char
  else if Text.ascii_eqb c "012" then ["\"; "f"]%char
  else if (n <? 32) || (126 <? n)
       then ["\"; "u"; "0"; "0"; hex_digit (n / 16); hex_digit (n mod 16)]%char
       else [c].

Definition dump_string (s : text) : text :=
  dq ++ flat_map escape_char s ++ dq.

Fixpoint digits_of_uint (u : Decimal.uint) : text :=
  match u with
  | Decimal.Nil => []
  | Decimal.D0 u => "0"%char :: digits_of_uint u
  | Decimal.D1 u => "1"%char :: digits_of_uint u
  | Decimal.D2 u => "2"%char :: digits_of_uint u
  | Decimal.D3 u => "3"%char :: digits_of_uint u
  | Decimal.D4 u => "4"%char :: digits_of_uint u
  | Decimal.D5 u => "5"%char :: digits_of_uint u
  | Decimal.D6 u => "6"%char :: digits_of_uint u
  | Decimal.D7 u => "7"%char :: digits_of_uint u
  | Decimal.D8 u => "8"%char :: digits_of_uint u
  | Decimal.D9 u => "9"%char :: digits_of_uint u
  end.

(** [str(n)] for an [int]. *)
Definition dump_int (n : Z) : text :=
  match Z.to_int n with
  | Decimal.Pos u => digits_of_uint u
  | Decimal.Neg u => "-"%char :: digits_of_uint u
  end.

Definition spaces (n : nat) : text := repeat " "%char n.

(** A line break followed by the indentation of nesting level [level]. *)
Definition newline_indent (level : nat) : text := nl ++ spaces (2 * level).

(** The encoder, at nesting level [level]: an empty container is written
    [[]] or [{}], a non-empty one with one item per line, items separated
    by a comma, a key and its value by a colon and a space. *)
Fixpoint dump_at (level : nat) (v : json) : text :=
  match v with
  | JNull => txt "null"
  | JBool true => txt "true"
  | JBool false => txt "false"
  | JNum n => dump_int n
  | JStr s => dump_string s
  | JArr [] => txt "[]"
  | JArr (x :: xs) =>
      txt "[" ++ newline_indent (S level) ++ dump_at (S level) x ++
      (fix rest (l : list json) : text :=
         match l with
         | [] => []
         | y :: l' =>
             txt "," ++ newline_indent (S level) ++ dump_at (S level) y ++ rest l'
         end) xs ++
      newline_indent level ++ txt "]"
  | JObj [] => txt "{}"
  | JObj ((k, x) :: kvs) =>
      txt "{" ++ newline_indent (S level) ++
      dump_string k ++ txt ": " ++ dump_at (S level) x ++
      (fix rest (l : list (text * json)) : text :=
         match l with
         | [] => []
         | (k', y) :: l' =>
             txt "," ++ newline_indent (S level) ++
             dump_string k' ++ txt ": " ++ dump_at (S level) y ++ rest l'
         end) kvs ++
      newline_indent level ++ txt "}"
  end.

Definition dump (v : json) : text := dump_at 0 v.

(** *** [json.load(f)] *)

Definition is_ws (c : ascii) : bool :=
  Text.ascii_eqb c " " || Text.ascii_eqb c "009" ||
  Text.ascii_eqb c "010" || Text.ascii_eqb c "013".

Fixpoint skip_ws (s : text) : text :=
  match s with
  | c :: s' => if is_ws c then skip_ws s' else s
  | [] => []
  end.

Definition hex_val (c : ascii) : option nat :=
  let n := nat_of_ascii c in
  if Text.is_digit c then Some (n - 48)
  else if (97 <=? n) && (n <=? 102) then Some (n - 87)
  else if (65 <=? n) && (n <=? 70) then Some (n - 55)
  else None.

Definition unescape (e : ascii) : option ascii :=
  if Text.ascii_eqb e "034" then Some "034"%char
  else if Text.ascii_eqb e "\" then Some "\"%char
  else if Text.ascii_eqb e "/" then Some "/"%char
  else if Text.ascii_eqb e "b" then Some "008"%char
  else if Text.ascii_eqb e "f" then Some "012"%char
  else if Text.ascii_eqb e "n" then Some "010"%char
  else if Text.ascii_eqb e "r" then Some "013"%char
  else if Text.ascii_eqb e "t" then Some "009"%char
  else None.

Definition cons_char (c : ascii) (r : option (text * text)) : option (text * text) :=
  match r with Some (v, rest) => Some (c :: v, rest) | None => None end.

(** The body of a string literal, after its opening quote (strict mode:
    a raw control character is refused).  Code points above 255 are
    outside the model. *)
Fixpoint scanstring (s : text) : option (text * text) :=
  match s with
  | [] => None
  | c :: s1 =>
      if Text.ascii_eqb c "034" then Some ([], s1)
      else if Text.ascii_eqb c "\" then
        match s1 with
        | [] => None
        | e :: s2 =>
            if Text.ascii_eqb e "u" then
              match s2 with
              | h1 :: h2 :: h3 :: h4 :: s3 =>
                  match hex_val h1, hex_val h2, hex_val h3, hex_val h4 with
                  | Some 0, Some 0, Some a, Some b =>
                      cons_char (ascii_of_nat (16 * a + b)) (scanstring s3)
                  | _, _, _, _ => None
                  end
              | _ => None
              end
            else
              match unescape e with
              | Some ch => cons_char ch (scanstring s2)
              | None => None
              end
        end
      else if nat_of_ascii c <? 32 then None
      else cons_char c (scanstring s1)
  end.

Fixpoint span_digits (s : text) : text * text :=
  match s with
  | c :: s' =>
      if Text.is_digit c then let (d, r) := span_digits s' in (c :: d, r)
      else ([], s)
  | [] => ([], [])
  end.

Fixpoint uint_of_digits (d : text) : Decimal.uint :=
  match d with
  | [] => Decimal.Nil
  | c :: d' =>
      let u := uint_of_digits d' in
      match nat_of_ascii c - 48 with
      | 0 => Decimal.D0 u | 1 => Decimal.D1 u | 2 => Decimal.D2 u
      | 3 => Decimal.D3 u | 4 => Decimal.D4 u | 5 => Decimal.D5 u
      | 6 => Decimal.D6 u | 7 => Decimal.D7 u | 8 => Decimal.D8 u
      | _ => Decimal.D9 u
      end
  end.

(** Does a fraction or an exponent follow the integer part? *)
Definition float_follows (s : text) : bool :=
  match s with
  | c :: d :: s' =>
      if Text.ascii_eqb c "." then Text.is_digit d
      else if Text.ascii_eqb c "e" || Text.ascii_eqb c "E" then
        Text.is_digit d ||
        ((Text.ascii_eqb d "+" || Text.ascii_eqb d "-") &&
         match s' with x :: _ => Text.is_digit x | [] => false end)
      else false
  | _ => false
  end.

(** The integer part of a number: [0], or a non-zero digit and more
    digits.  [None] when no number starts here or when it is a float. *)
Definition scan_unsigned (s : text) : option (Z * text) :=
  match s with
  | c :: s' =>
      if Text.ascii_eqb c "0" then
        if float_follows s' then None else Some (0%Z, s')
      else if Text.is_digit c then
        let (d, r) := span_digits s in
        if float_follows r then None
        else Some (Z.of_uint (uint_of_digits d), r)
      else None
  | [] => None
  end.

Definition scan_number (s : text) : option (Z * text) :=
  match s with
  | c :: s' =>
      if Text.ascii_eqb c "-" then
        match scan_unsigned s' with
        | Some (n, r) => Some (Z.opp n, r)
        | None => None
        end
      else scan_unsigned s
  | [] => None
  end.

(** The recursive-descent scanner.  [scan_value] reads one value at the
    start of the text; [scan_items] reads the items of an array from its
    first item to the closing bracket; [scan_members] reads the members of
    an object from the quote of its first key to the closing brace.  The
    fuel bounds the nesting and the number of items. *)
Fixpoint scan_value (fuel : nat) (s : text) : option (json * text) :=
  match fuel with
  | O => None
  | S fuel' =>
    match s with
    | [] => None
    | c :: s1 =>
      if Text.ascii_eqb c "034" then
        match scanstring s1 with
        | Some (v, r) => Some (JStr v, r)
        | None => None
        end
      else if Text.ascii_eqb c "{" then
        match skip_ws s1 with
        | d :: s2 =>
            if Text.ascii_eqb d "}" then Some (JObj [], s2)
            else match scan_members fuel' (d :: s2) with
                 | Some (pairs, r) => Some (JObj (Dict.of_pairs pairs), r)
                 | None => None
                 end
        | [] => None
        end
      else if Text.ascii_eqb c "[" then
        match skip_ws s1 with
        | d :: s2 =>
            if Text.ascii_eqb d "]" then Some (JArr [], s2)
            else match scan_items fuel' (d :: s2) with
                 | Some (items, r) => Some (JArr items, r)
                 | None => None
                 end
        | [] => None
        end
      else if Text.startswith (txt "null") s then Some (JNull, skipn 4 s)
      else if Text.startswith (txt "true") s then Some (JBool true, skipn 4 s)
      else if Text.startswith (txt "false") s then Some (JBool false, skipn 5 s)
      else match scan_number s with
           | Some (n, r) => Some (JNum n, r)
           | None => None
           end
    end
  end
with scan_items (fuel : nat) (s : text) : option (list json * text) :=
  match fuel with
  | O => None
  | S fuel' =>
    match scan_value fuel' s with
    | Some (v, r) =>
        match skip_ws r with
        | c :: r1 =>
            if Text.ascii_eqb c "]" then Some ([v], r1)
            else if Text.ascii_eqb c "," then
              match scan_items fuel' (skip_ws r1) with
              | Some (vs, r2) => Some (v :: vs, r2)
              | None => None
              end
            else None
        | [] => None
        end
    | None => None
    end
  end
with scan_members (fuel : nat) (s : text) : option (list (text * json) * text) :=
  match fuel with
  | O => None
  | S fuel' =>
    match s with
    | q :: s1 =>
      if Text.ascii_eqb q "034" then
        match scanstring s1 with
        | Some (k, r) =>
            match skip_ws r with
            | c :: r1 =>
                if Text.ascii_eqb c ":" then
                  match scan_value fuel' (skip_ws r1) with
                  | Some (v, r2) =>
                      match skip_ws r2 with
                      | e :: r3 =>
                          if Text.ascii_eqb e "}" then Some ([(k, v)], r3)
                          else if Text.ascii_eqb e "," then
                            match scan_members fuel' (skip_ws r3) with
                            | Some (kvs, r4) => Some ((k, v) :: kvs, r4)
                            | None => None
                            end
                          else None
                      | [] => None
                      end
                  | None => None
                  end
                else None
            | [] => None
            end
        | None => None
        end
      else None
    | [] => None
    end
  end.

(** [json.load]: one value, surrounded by white space only.  A result
    [Some v] is the value that [json.load] returns.  [None] is either
    [JSONDecodeError] or a document outside the model, which [json.load]
    accepts: one with a number that has a fraction or an exponent, with
    [NaN] or [Infinity], or with an escape [\uXXXX] above [00FF].  So a
    statement about a text that does not parse is made for the texts of
    [JsonSpec.no_value], which [json.load] refuses as well. *)
Definition load (s : text) : option json :=
  match scan_value (S (length s)) (skip_ws s) with
  | Some (v, r) => match skip_ws r with [] => Some v | _ :: _ => None end
  | None => None
  end.

End Json.

(** ** Python objects and exceptions *)

Inductive exn :=
| KeyError | TypeError | IndexError | AttributeError
| FileNotFoundError | JSONDecodeError.

Inductive result (A : Type) :=
| Ok (a : A)
| Raise (e : exn).

Arguments Ok {A} a.
Arguments Raise {A} e.

Module Py.

Definition bind {A B} (r : result A) (k : A -> result B) : result B :=
  match r with
  | Ok a => k a
  | Raise e => Raise e
  end.

Fixpoint mapM {A B} (f : A -> result B) (l : list A) : result (list B) :=
  match l with
  | [] => Ok []
  | a :: l' =>
      bind (f a) (fun b => bind (mapM f l') (fun bs => Ok (b :: bs)))
  end.

(** [o[k]] for a string key. *)
Definition getitem (o : json) (k : text) : result json :=
  match o with
  | JObj d => match Dict.get k d with Some v => Ok v | None => Raise KeyError end
  | _ => Raise TypeError
  end.

(** [o[0]]; a dictionary read from JSON has no integer key. *)
Definition first_item (o : json) : result json :=
  match o with
  | JArr (x :: _) => Ok x
  | JArr [] => Raise IndexError
  | JStr (c :: _) => Ok (JStr [c])
  | JStr [] => Raise IndexError
  | JObj _ => Raise KeyError
  | _ => Raise TypeError
  end.

(** [o[1:]]; slicing a dictionary raises ([TypeError] before Python 3.12,
    [KeyError] from then on). *)
Definition slice_from1 (o : json) : result json :=
  match o with
  | JArr l => Ok (JArr (tl l))
  | JStr s => Ok (JStr (tl s))
  | _ => Raise TypeError
  end.

(** [for x in o]: the items of a list, the keys of a dictionary, the
    characters of a string. *)
Definition iter (o : json) : result (list json) :=
  match o with
  | JArr l => Ok l
  | JObj d => Ok (map JStr (Dict.keys d))
  | JStr s => Ok (map (fun c => JStr [c]) s)
  | _ => Raise TypeError
  end.

(** [len(o)] *)
Definition len (o : json) : result nat :=
  match o with
  | JArr l => Ok (length l)
  | JObj d => Ok (length d)
  | JStr s => Ok (length s)
  | _ => Raise TypeError
  end.

(** [o == s] for a string [s]. *)
Definition eq_str (o : json) (s : text) : bool :=
  match o with
  | JStr t => Text.eqb t s
  | _ => false
  end.

(** [Path(o)] / [str] operations: only a string will do. *)
Definition as_str (o : json) : result text :=
  match o with
  | JStr s => Ok s
  | _ => Raise TypeError
  end.

(** [[x] + o]: list concatenation needs a list on the right. *)
Definition cons_list (x : json) (o : json) : result (list json) :=
  match o with
  | JArr l => Ok (x :: l)
  | _ => Raise TypeError
  end.

End Py.

(** ** The files and the console *)

(** The three files the navigation scripts read and write: [docs/docs.json],
    [docs/docs.json.backup] and
    [docs/api-reference/endpoint/_navigation.json].  A file holds its text;
    [None] is a file that does not exist. *)
Record files := {
  docs_json : option text;
  backup_json : option text;
  nav_json : option text
}.

Inductive path := DOCS_JSON | BACKUP_JSON | NAV_JSON.

(** What the scripts print, one constructor per message. *)
Inductive message :=
| Banner              (* the first line of a main function *)
| Started             (* the first line of an operation *)
| BackedUp            (* Backed up docs.json to docs/docs.json.backup *)
| LoadedNav (n : nat) (* Loaded n endpoint categories from _navigation.json *)
| TabNotFound         (* Could not find 'API reference' tab in docs.json *)
| UpdatedTab (n : nat)
| UpdatedDocs
| StructureHeader     (* Navigation structure: *)
| TotalGroups (n : nat)
| TotalPages (n : nat)
| Accordions (n : nat)
| ServiceLine (name : json) (n : nat)
| TotalEndpoints (n : nat)
| Complete.            (* ... complete! and the next steps *)

Record world := {
  fs : files;
  console : list message
}.

Module Script.

(** A script: a state transformer over the world that may raise. *)
Definition M (A : Type) := world -> result A * world.

Definition ret {A} (a : A) : M A := fun w => (Ok a, w).

Definition bind {A B} (m : M A) (k : A -> M B) : M B :=
  fun w =>
    match m w with
    | (Ok a, w') => k a w'
    | (Raise e, w') => (Raise e, w')
    end.

Definition lift {A} (r : result A) : M A := fun w => (r, w).

Definition print (m : message) : M unit :=
  fun w => (Ok tt, {| fs := fs w; console := console w ++ [m] |}).

Definition read (p : path) (f : files) : option text :=
  match p with
  | DOCS_JSON => docs_json f
  | BACKUP_JSON => backup_json f
  | NAV_JSON => nav_json f
  end.

Definition write (p : path) (c : text) (f : files) : files :=
  match p with
  | DOCS_JSON => {| docs_json := Some c; backup_json := backup_json f; nav_json := nav_json f |}
  | BACKUP_JSON => {| docs_json := docs_json f; backup_json := Some c; nav_json := nav_json f |}
  | NAV_JSON => {| docs_json := docs_json f; backup_json := backup_json f; nav_json := Some c |}
  end.

(** [with open(p, 'r') as f: json.load(f)] *)
Definition load_json (p : path) : M json :=
  fun w =>
    match read p (fs w) with
    | None => (Raise FileNotFoundError, w)
    | Some c =>
        match Json.load c with
        | Some v => (Ok v, w)
        | None => (Raise JSONDecodeError, w)
        end
    end.

(** [with open(p, 'w') as f: json.dump(v, f, indent=2)] *)
Definition dump_json (p : path) (v : json) : M unit :=
  fun w => (Ok tt, {| fs := write p (Json.dump v) (fs w); console := console w |}).

End Script.

Declare Scope script_scope.
Delimit Scope script_scope with script.
Notation "x <- m ;; k" := (Script.bind m (fun x => k))
  (at level 61, m at next level, right associativity) : script_scope.
Notation "m ;; k" := (Script.bind m (fun _ => k))
  (at level 61, right associativity) : script_scope.

Declare Scope result_scope.
Delimit Scope result_scope with result.
Notation "x <- m ;; k" := (Py.bind m (fun x => k))
  (at level 61, m at next level, right associativity) : result_scope.

(** ** The navigation document *)

Module Nav.

Definition TAB_NAME : text := txt "API reference".

(** The literal [intro_group] of the scripts. *)
Definition INTRO_GROUP : json :=
  JObj [ (txt "group", JStr (txt "API documentation"));
         (txt "pages", JArr [JStr (txt "api-reference/introduction")]) ].

(** The loop [for tab in tabs: if tab['tab'] == 'API reference': ...; break]
    over the items [tabs]: the position of the tab found. *)
Fixpoint find_tab (tabs : list json) : result (option nat) :=
  match tabs with
  | [] => Ok None
  | tab :: rest =>
      (name <- Py.getitem tab (txt "tab") ;;
       if Py.eq_str name TAB_NAME then Ok (Some 0)
       else (r <- find_tab rest ;; Ok (option_map S r)))%result
  end.

(** [api_tab = ...]: the tab found in [docs_data['navigation']['tabs']],
    with its position, or [None]. *)
Definition locate_tab (docs_data : json) : result (option (nat * json)) :=
  (navigation <- Py.getitem docs_data (txt "navigation") ;;
   tabs <- Py.getitem navigation (txt "tabs") ;;
   items <- Py.iter tabs ;;
   found <- find_tab items ;;
   match found with
   | None => Ok None
   | Some i => Ok (Some (i, nth i items JNull))
   end)%result.

Fixpoint set_nth {A} (i : nat) (x : A) (l : list A) : list A :=
  match l, i with
  | [], _ => []
  | _ :: l', O => x :: l'
  | y :: l', S j => y :: set_nth j x l'
  end.

Definition set_member (k : text) (v : json) (o : json) : json :=
  match o with
  | JObj d => JObj (Dict.set k v d)
  | _ => o
  end.

Definition member (k : text) (o : json) : json :=
  match o with
  | JObj d => match Dict.get k d with Some v => v | None => JNull end
  | _ => JNull
  end.

(** [api_tab['groups'] = groups], seen from [docs_data]: the tab at
    position [i] of [docs_data['navigation']['tabs']] is the object that the
    assignment mutates. *)
Definition assign_groups (i : nat) (groups : json) (docs_data : json) : json :=
  let navigation := member (txt "navigation") docs_data in
  let tabs := member (txt "tabs") navigation in
  match tabs with
  | JArr items =>
      let tab := set_member (txt "groups") groups (nth i items JNull) in
      set_member (txt "navigation")
        (set_member (txt "tabs") (JArr (set_nth i tab items)) navigation)
        docs_data
  | _ => docs_data
  end.

(** The groups of the named tab in a document, when it has them. *)
Definition tab_groups (docs_data : json) : option json :=
  match locate_tab docs_data with
  | Ok (Some (_, tab)) =>
      match Py.getitem tab (txt "groups") with
      | Ok g => Some g
      | Raise _ => None
      end
  | _ => None
  end.

End Nav.

(** ** Full replacement ([update-docs-navigation.py]) *)

Module UpdateDocs.

Import Script.
Local Open Scope script_scope.

(** [sum(len(group['pages']) for group in groups)] *)
Fixpoint sum_pages (groups : list json) : result nat :=
  match groups with
  | [] => Ok 0
  | group :: rest =>
      (pages <- Py.getitem group (txt "pages") ;;
       n <- Py.len pages ;;
       m <- sum_pages rest ;;
       Ok (n + m))%result
  end.

(** [main()] *)
Definition main : M unit :=
  print Started ;;
  docs_data <- load_json DOCS_JSON ;;
  dump_json BACKUP_JSON docs_data ;;
  print BackedUp ;;
  endpoint_nav <- load_json NAV_JSON ;;
  n <- lift (Py.len endpoint_nav) ;;
  print (LoadedNav n) ;;
  api_tab <- lift (Nav.locate_tab docs_data) ;;
  match api_tab with
  | None => print TabNotFound
  | Some (i, _) =>
      let intro_group := Nav.INTRO_GROUP in
      groups <- lift (Py.cons_list intro_group endpoint_nav) ;;
      let docs_data := Nav.assign_groups i (JArr groups) docs_data in
      print (UpdatedTab n) ;;
      dump_json DOCS_JSON docs_data ;;
      print UpdatedDocs ;;
      print StructureHeader ;;
      print (TotalGroups (length groups)) ;;
      total_pages <- lift (sum_pages groups) ;;
      print (TotalPages total_pages) ;;
      print Complete
  end.

End UpdateDocs.

(** ** Accordion regrouping ([improve-endpoint-navigation.py]) *)

Module Accordion.

Import Script.
Local Open Scope script_scope.

Definition group_of (name : json) (pages : list json) : json :=
  JObj [ (txt "group", name); (txt "pages", JArr pages) ].

(** The sub-group of one action category. *)
Definition sub_group (kv : text * list text) : json :=
  group_of (JStr (fst kv)) (map JStr (snd kv)).

(** The body of the loop over the category groups. *)
Definition accordion_group (group : json) : result json :=
  (category_name <- Py.getitem group (txt "group") ;;
   pages <- Py.getitem group (txt "pages") ;;
   n <- Py.len pages ;;
   if 10 <? n then
     items <- Py.iter pages ;;
     names <- Py.mapM Py.as_str items ;;
     let categorized := Icons.categorize_endpoints names in
     Ok (group_of category_name (map sub_group categorized))
   else Ok group)%result.

Definition is_obj (v : json) : bool :=
  match v with JObj _ => true | _ => false end.

(** [any(isinstance(p, dict) for p in g.get('pages', []))] for a group [g]
    that is a dictionary whose pages can be iterated. *)
Definition has_accordion (g : json) : bool :=
  match g with
  | JObj d =>
      match Dict.get (txt "pages") d with
      | Some (JArr items) => existsb is_obj items
      | _ => false
      end
  | _ => false
  end.

(** [create_accordion_navigation()] *)
Definition create_accordion_navigation : M unit :=
  print Started ;;
  docs_data <- load_json DOCS_JSON ;;
  dump_json BACKUP_JSON docs_data ;;
  print BackedUp ;;
  api_tab <- lift (Nav.locate_tab docs_data) ;;
  match api_tab with
  | None => print TabNotFound
  | Some (i, api_tab) =>
      let intro_group := Nav.INTRO_GROUP in
      groups <- lift (Py.getitem api_tab (txt "groups")) ;;
      rest <- lift (Py.slice_from1 groups) ;;
      items <- lift (Py.iter rest) ;;
      regrouped <- lift (Py.mapM accordion_group items) ;;
      let new_groups := intro_group :: regrouped in
      let docs_data := Nav.assign_groups i (JArr new_groups) docs_data in
      dump_json DOCS_JSON docs_data ;;
      print UpdatedDocs ;;
      print StructureHeader ;;
      print (TotalGroups (length new_groups)) ;;
      print (Accordions (length (filter has_accordion new_groups)))
  end.

End Accordion.

(** ** Service-level regrouping ([add-service-level-navigation.py]) *)

Module Service.

Import Script.
Local Open Scope script_scope.

Definition SERVICE_GROUPS : list (text * list text) :=
  [ (txt "Core Services",
     [txt "Access Control"; txt "Camera"; txt "Door"; txt "Door Controller";
      txt "Doorbell Camera"; txt "User"; txt "Users"; txt "Badge Reader";
      txt "Sensor"; txt "Climate"; txt "Button"; txt "Relay";
      txt "Media Device"]);
    (txt "Events & Monitoring",
     [txt "Event"; txt "Events"; txt "Event Search"; txt "Alert Monitoring";
      txt "Face Recognition Event"; txt "Face Recognition Matchmaker";
      txt "Face Recognition Person"; txt "Proximity"; txt "Occupancy"]);
    (txt "Integrations",
     [txt "Access Control Integrations";
      txt "Service Management Integrations";
      txt "Incident Management Integrations"; txt "IoT Integrations";
      txt "Storage Integrations"; txt "Webhook Integrations";
      txt "Org Integrations"; txt "Integrations"]);
    (txt "Organization & Management",
     [txt "Organization"; txt "Org"; txt "Location"; txt "Locations";
      txt "Customer"; txt "Partner"; txt "License"; txt "Permission";
      txt "User Metadata"]);
    (txt "Security & Access",
     [txt "OAuth"; txt "Alarm Monitoring Keypad";
      txt "Guest Management Kiosk"; txt "Lockdown Plan"; txt "RapidSOS"]);
    (txt "Media & Video",
     [txt "Video"; txt "Export"; txt "AudioGateway"; txt "AudioPlayback";
      txt "TvOS Config"]);
    (txt "Automation & Rules",
     [txt "Rules"; txt "Rules Records"; txt "Schedule"; txt "Policies";
      txt "Policy"]);
    (txt "Device Management",
     [txt "Device Config"; txt "Component"; txt "Components"; txt "BLE"]);
    (txt "Data & Reporting",
     [txt "Report"; txt "Reports"; txt "Search"; txt "Logistics";
      txt "Vehicle"; txt "Vehicles"]);
    (txt "Developer & System",
     [txt "Developer"; txt "Feature"; txt "Help"; txt "Upload"]) ].

Definition OTHER_SERVICES : text := txt "Other Services".

(** [group_name in groups] *)
Definition name_in (group_name : json) (groups : list text) : bool :=
  existsb (Py.eq_str group_name) groups.

(** [categorize_group(group_name)], over a table. *)
Fixpoint classify (table : list (text * list text)) (group_name : json) : text :=
  match table with
  | [] => OTHER_SERVICES
  | (service, groups) :: table' =>
      if name_in group_name groups then service
      else classify table' group_name
  end.

Definition categorize_group (group_name : json) : text :=
  classify SERVICE_GROUPS group_name.

(** [service_structure[service].append(group)], after
    [if service not in service_structure: service_structure[service] = []]. *)
Fixpoint add_to_service (service : text) (group : json)
    (service_structure : list (text * list json)) : list (text * list json) :=
  match service_structure with
  | [] => [(service, [group])]
  | (s, l) :: rest =>
      if Text.eqb service s then (s, l ++ [group]) :: rest
      else (s, l) :: add_to_service service group rest
  end.

(** The loop over [existing_groups], from the state
    [(service_structure, uncategorized)]. *)
Fixpoint organize (existing_groups : list json)
    (service_structure : list (text * list json)) (uncategorized : list json)
  : result (list (text * list json) * list json) :=
  match existing_groups with
  | [] => Ok (service_structure, uncategorized)
  | group :: rest =>
      (group_name <- Py.getitem group (txt "group") ;;
       let service := categorize_group group_name in
       if Text.eqb service OTHER_SERVICES
       then organize rest service_structure (uncategorized ++ [group])
       else organize rest (add_to_service service group service_structure)
                     uncategorized)%result
  end.

(** The loop over [SERVICE_GROUPS.keys()] that emits the service groups. *)
Fixpoint emit_services (service_names : list text)
    (service_structure : list (text * list json)) : list json :=
  match service_names with
  | [] => []
  | service_name :: rest =>
      match Dict.get service_name service_structure with
      | Some categories =>
          Accordion.group_of (JStr service_name) categories ::
          emit_services rest service_structure
      | None => emit_services rest service_structure
      end
  end.

(** The groups built after the introduction group. *)
Definition build_groups (service_structure : list (text * list json))
    (uncategorized : list json) : list json :=
  emit_services (Dict.keys SERVICE_GROUPS) service_structure ++
  match uncategorized with
  | [] => []
  | _ :: _ => [Accordion.group_of (JStr OTHER_SERVICES) uncategorized]
  end.

(** The service groups of a sequence of category groups. *)
Definition service_groups (existing_groups : list json) : result (list json) :=
  (st <- organize existing_groups [] [] ;;
   Ok (build_groups (fst st) (snd st)))%result.

(** [len([g for g in new_groups if g['group'] != 'API documentation'])] *)
Fixpoint count_services (new_groups : list json) : result nat :=
  match new_groups with
  | [] => Ok 0
  | g :: rest =>
      (name <- Py.getitem g (txt "group") ;;
       n <- count_services rest ;;
       Ok (if Py.eq_str name (txt "API documentation") then n else S n))%result
  end.

(** The summary line of one service group. *)
Definition service_line (group : json) : result message :=
  (name <- Py.getitem group (txt "group") ;;
   pages <- Py.getitem group (txt "pages") ;;
   n <- Py.len pages ;;
   Ok (ServiceLine name n))%result.

Definition has_pages (v : json) : bool :=
  match v with
  | JObj d => match Dict.get (txt "pages") d with Some _ => true | None => false end
  | _ => false
  end.

(** The endpoints counted for one item of a category's pages. *)
Definition count_item (item : json) : result nat :=
  if has_pages item then
    (pages <- Py.getitem item (txt "pages") ;; Py.len pages)%result
  else match item with
       | JStr _ => Ok 1
       | _ => Ok 0
       end.

Fixpoint sum_results {A} (f : A -> result nat) (l : list A) : result nat :=
  match l with
  | [] => Ok 0
  | a :: l' => (n <- f a ;; m <- sum_results f l' ;; Ok (n + m))%result
  end.

(** The endpoints counted for one category of a service group. *)
Definition count_category (category : json) : result nat :=
  if has_pages category then
    (pages <- Py.getitem category (txt "pages") ;;
     items <- Py.iter pages ;;
     sum_results count_item items)%result
  else Ok 0.

Definition count_service_group (service_group : json) : result nat :=
  (pages <- Py.getitem service_group (txt "pages") ;;
   categories <- Py.iter pages ;;
   sum_results count_category categories)%result.

Fixpoint print_all (ms : list message) : M unit :=
  match ms with
  | [] => ret tt
  | m :: ms' => print m ;; print_all ms'
  end.

(** [organize_with_service_groups()] *)
Definition organize_with_service_groups : M unit :=
  print Started ;;
  docs_data <- load_json DOCS_JSON ;;
  dump_json BACKUP_JSON docs_data ;;
  print BackedUp ;;
  api_tab <- lift (Nav.locate_tab docs_data) ;;
  match api_tab with
  | None => print TabNotFound
  | Some (i, api_tab) =>
      groups <- lift (Py.getitem api_tab (txt "groups")) ;;
      intro_group <- lift (Py.first_item groups) ;;
      rest <- lift (Py.slice_from1 groups) ;;
      existing_groups <- lift (Py.iter rest) ;;
      built <- lift (service_groups existing_groups) ;;
      let new_groups := intro_group :: built in
      let docs_data := Nav.assign_groups i (JArr new_groups) docs_data in
      dump_json DOCS_JSON docs_data ;;
      print UpdatedDocs ;;
      print StructureHeader ;;
      n <- lift (count_services new_groups) ;;
      print (TotalGroups n) ;;
      lines <- lift (Py.mapM service_line built) ;;
      print_all lines ;;
      total_endpoints <- lift (sum_results count_service_group built) ;;
      print (TotalEndpoints total_endpoints)
  end.

(** [main()] *)
Definition main : M unit :=
  print Banner ;;
  organize_with_service_groups ;;
  print Complete.

End Service.

(** ** Project summarizer ([update-llms-files.py]) *)

Module Summarizer.

Local Open Scope result_scope.

(** [endpoint_counts]: a dictionary from group names to counts.  A key is
    any hashable JSON value; lists and dictionaries cannot be keys. *)
Definition counts := list (json * nat).

Definition hashable (k : json) : bool :=
  match k with
  | JArr _ | JObj _ => false
  | _ => true
  end.

(** Equality of dictionary keys: [True == 1] and [False == 0]. *)
Definition key_eqb (a b : json) : bool :=
  match a, b with
  | JNull, JNull => true
  | JStr s, JStr t => Text.eqb s t
  | JNum n, JNum m => Z.eqb n m
  | JBool x, JBool y => Bool.eqb x y
  | JBool x, JNum m | JNum m, JBool x => Z.eqb m (if x then 1 else 0)
  | _, _ => false
  end.

(** [endpoint_counts[k] = n] *)
Fixpoint set_count (k : json) (n : nat) (c : counts) : counts :=
  match c with
  | [] => [(k, n)]
  | (k', m) :: c' =>
      if key_eqb k k' then (k', n) :: c' else (k', m) :: set_count k n c'
  end.

Fixpoint get_count (k : json) (c : counts) : option nat :=
  match c with
  | [] => None
  | (k', m) :: c' => if key_eqb k k' then Some m else get_count k c'
  end.

(** [endpoint_counts[k] += 1] *)
Definition incr_count (k : json) (c : counts) : result counts :=
  match get_count k c with
  | Some m => Ok (set_count k (S m) c)
  | None => Raise KeyError
  end.

(** The truth value of [current_category]. *)
Definition truthy (v : json) : bool :=
  match v with
  | JNull => false
  | JBool b => b
  | JNum n => negb (Z.eqb n 0)
  | JStr s => Icons.nonempty s
  | JArr l => Icons.nonempty l
  | JObj d => Icons.nonempty d
  end.

(** [traverse(obj, current_category)] of [count_endpoints_in_nav], threading
    [endpoint_counts]; [current_category] is [JNull] for [None]. *)
Fixpoint traverse (obj : json) (current_category : json) (ec : counts)
    {struct obj} : result counts :=
  match obj with
  | JObj d =>
      (* if "group" in obj *)
      st <- match Dict.get (txt "group") d with
            | Some g =>
                if hashable g then Ok (g, set_count g 0 ec)
                else Raise TypeError
            | None => Ok (current_category, ec)
            end ;;
      let current_category := fst st in
      (* if "pages" in obj and isinstance(obj["pages"], list) *)
      ec <- (fix find_pages (d' : list (text * json)) (ec : counts)
               : result counts :=
               match d' with
               | [] => Ok ec
               | (k, v) :: d'' =>
                   if Text.eqb (txt "pages") k then
                     match v with
                     | JArr pages =>
                         (fix each_page (ps : list json) (ec : counts)
                            : result counts :=
                            match ps with
                            | [] => Ok ec
                            | page :: ps' =>
                                match page with
                                | JStr _ =>
                                    if truthy current_category
                                    then ec' <- incr_count current_category ec ;;
                                         each_page ps' ec'
                                    else each_page ps' ec
                                | JObj _ =>
                                    ec' <- traverse page current_category ec ;;
                                    each_page ps' ec'
                                | _ => each_page ps' ec
                                end
                            end) pages ec
                     | _ => Ok ec
                     end
                   else find_pages d'' ec
               end) d (snd st) ;;
      (* for value in obj.values() *)
      (fix each_value (d' : list (text * json)) (ec : counts)
         : result counts :=
         match d' with
         | [] => Ok ec
         | (_, value) :: d'' =>
             ec' <- traverse value current_category ec ;;
             each_value d'' ec'
         end) d ec
  | JArr items =>
      (fix each_item (l : list json) (ec : counts) : result counts :=
         match l with
         | [] => Ok ec
         | item :: l' =>
             ec' <- traverse item current_category ec ;;
             each_item l' ec'
         end) items ec
  | _ => Ok ec
  end.

(** [count_endpoints_in_nav(nav_data)] *)
Definition count_endpoints_in_nav (nav_data : json) : result counts :=
  traverse nav_data JNull [].

(** [sum(endpoint_counts.values())] *)
Definition total (ec : counts) : nat := list_sum (map snd ec).

(** The endpoint figures of [analyze_docs_json()]: the pair of
    ["total_endpoints"] and ["endpoint_categories"], from the parsed
    [docs.json] ([config.get("navigation", {})] needs a dictionary). *)
Definition endpoint_figures (config : json) : result (nat * counts) :=
  match config with
  | JObj d =>
      let navigation :=
        match Dict.get (txt "navigation") d with
        | Some v => v
        | None => JObj []
        end in
      ec <- count_endpoints_in_nav navigation ;;
      Ok (total ec, ec)
  | _ => Raise AttributeError
  end.

(** An entry of the group names of a tab: [g.get("group")] for a
    dictionary [g] ([JNull] for [None]), and [str(g)] for any other value,
    which is kept as the value it prints. *)
Inductive group_entry :=
| Named (name : json)
| Printed (g : json).

(** [tab_info]: the name of a tab and, when the tab has the key, the names
    of its groups. *)
Record tab_info := {
  tab_name : json;
  tab_groups : option (list group_entry)
}.

Definition group_entry_of (g : json) : group_entry :=
  match g with
  | JObj d =>
      Named (match Dict.get (txt "group") d with Some v => v | None => JNull end)
  | _ => Printed g
  end.

(** [x in o] for a string [x]: a key of a dictionary, an item of a list, a
    part of a string. *)
Definition contains_str (x : text) (o : json) : result bool :=
  match o with
  | JObj d => Ok (match Dict.get x d with Some _ => true | None => false end)
  | JArr items => Ok (existsb (fun v => Py.eq_str v x) items)
  | JStr s => Ok (Text.contains x s)
  | _ => Raise TypeError
  end.

(** The body of the loop over the tabs: [tab.get] needs a dictionary. *)
Definition tab_info_of (tab : json) : result tab_info :=
  match tab with
  | JObj d =>
      let name :=
        match Dict.get (txt "tab") d with
        | Some v => v
        | None => JStr (txt "Unknown")
        end in
      match Dict.get (txt "groups") d with
      | Some groups =>
          items <- Py.iter groups ;;
          Ok {| tab_name := name;
                tab_groups := Some (map group_entry_of items) |}
      | None => Ok {| tab_name := name; tab_groups := None |}
      end
  | _ => Raise AttributeError
  end.

(** The ["navigation_tabs"] of [analyze_docs_json()], from the parsed
    [docs.json]. *)
Definition navigation_tabs (config : json) : result (list tab_info) :=
  match config with
  | JObj d =>
      match Dict.get (txt "navigation") d with
      | Some navigation =>
          has_tabs <- contains_str (txt "tabs") navigation ;;
          if (has_tabs : bool) then
            tabs <- Py.getitem navigation (txt "tabs") ;;
            items <- Py.iter tabs ;;
            Py.mapM tab_info_of items
          else Ok []
      | None => Ok []
      end
  | _ => Raise AttributeError
  end.

(** [analyze_docs_json()] on the files: the endpoint figures of the
    report; without a [docs.json] the total is zero.  The tabs are listed
    after the endpoints are counted, and an exception of the listing is one
    of the call.  The fields [name], [theme] and [colors] of the report,
    which are read with [config.get], are left out. *)
Definition analyze_docs_json (f : files) : result (nat * counts) :=
  match docs_json f with
  | None => Ok (0, [])
  | Some c =>
      match Json.load c with
      | Some config =>
          figures <- endpoint_figures config ;;
          _ <- navigation_tabs config ;;
          Ok figures
      | None => Raise JSONDecodeError
      end
  end.

(** The number of string leaves in the pages of every group of a document:
    what the total is meant to be. *)
Fixpoint leaves (obj : json) : nat :=
  match obj with
  | JObj d =>
      let here :=
        match Dict.get (txt "group") d, Dict.get (txt "pages") d with
        | Some _, Some (JArr pages) =>
            length (filter (fun p => match p with JStr _ => true | _ => false end) pages)
        | _, _ => 0
        end in
      here +
      (fix each_value (d' : list (text * json)) : nat :=
         match d' with
         | [] => 0
         | (_, value) :: d'' => leaves value + each_value d''
         end) d
  | JArr items =>
      (fix each_item (l : list json) : nat :=
         match l with
         | [] => 0
         | item :: l' => leaves item + each_item l'
         end) items
  | _ => 0
  end.

End Summarizer.

(** ** Vocabulary of the statements *)

Module IconSpec.

(** A file content cut into the characters that are kept and the icon
    fields (the matches of the pattern), the latter by their quoted value. *)
Inductive segment :=
| Keep (c : ascii)
| Field (v : text).

(** The text of a segment: as it stands ([None]) or with the quoted value
    of every field set to a new icon. *)
Definition render (new_icon : option text) (g : segment) : text :=
  match g with
  | Keep c => [c]
  | Field v =>
      Icons.ICON_OPEN ++ match new_icon with Some i => i | None => v end ++ dq
  end.

Definition original (segs : list segment) : text :=
  flat_map (render None) segs.

Definition replaced (new_icon : text) (segs : list segment) : text :=
  flat_map (render (Some new_icon)) segs.

(** The segments that the substitution loop goes through. *)
Fixpoint scan (fuel : nat) (s : text) : list segment :=
  match fuel with
  | O => map Keep s
  | S fuel' =>
      match s with
      | [] => []
      | c :: s' =>
          match Icons.match_icon s with
          | Some (v, rest) => Field v :: scan fuel' rest
          | None => Keep c :: scan fuel' s'
          end
      end
  end.

Definition backslash : ascii := "\"%char.
Definition quote : ascii := "034"%char.
Definition carriage_return : ascii := "013"%char.

End IconSpec.

Module NavSpec.

(** The display name and the children of a group. *)
Definition name_of (g : json) : json := Nav.member (txt "group") g.

Definition pages_of (g : json) : list json :=
  match Nav.member (txt "pages") g with
  | JArr l => l
  | _ => []
  end.

(** A group that has a display name, so that [group['group']] succeeds. *)
Definition has_name (g : json) : Prop :=
  exists n, Py.getitem g (txt "group") = Ok n.

(** The service bucket of a category group, and the groups of a sequence
    that fall into a bucket, in their order. *)
Definition service_of (g : json) : text := Service.categorize_group (name_of g).

Definition bucket (service : text) (gs : list json) : list json :=
  filter (fun g => Text.eqb (service_of g) service) gs.

(** The buckets in the order of the table, the sentinel last. *)
Definition BUCKETS : list text :=
  Dict.keys Service.SERVICE_GROUPS ++ [Service.OTHER_SERVICES].

Definition emit_bucket (gs : list json) (service : text) : list json :=
  match bucket service gs with
  | [] => []
  | l => [Accordion.group_of (JStr service) l]
  end.

(** The pages of a sequence that fall into an action category. *)
Definition action_bucket (category : text) (pages : list text) : list text :=
  filter (fun p => Text.eqb (Icons.action_category p) category) pages.

Fixpoint nodupb (l : list text) : bool :=
  match l with
  | [] => true
  | x :: l' => negb (existsb (Text.eqb x) l') && nodupb l'
  end.

(** A category group of the tab: a display name and a list of leaves. *)
Definition category_group (g : json) (name : json) (leaves : list text) : Prop :=
  Py.getitem g (txt "group") = Ok name /\
  Py.getitem g (txt "pages") = Ok (JArr (map JStr leaves)).

(** A group of the tab as the accordion regrouping reads it: a display
    name and a list of pages, which may be leaves or groups. *)
Definition listed_group (g : json) (name : json) (pages : list json) : Prop :=
  Py.getitem g (txt "group") = Ok name /\
  Py.getitem g (txt "pages") = Ok (JArr pages).

(** A group that the regrouping can handle: a list of more than ten pages
    holds leaves only. *)
Definition regroupable (g : json) : Prop :=
  exists name pages,
    listed_group g name pages /\
    (11 <= length pages -> exists leaves, pages = map JStr leaves).

(** The sub-group of an action category, as it is to be written: the name
    of the category and its leaves. *)
Definition action_sub_group (kv : text * list text) : json :=
  JObj [ (txt "group", JStr (fst kv));
         (txt "pages", JArr (map JStr (snd kv))) ].

(** What the accordion regrouping makes of a group [g]: the group itself
    up to ten pages, and from eleven leaves on a group of the same name
    whose pages are the sub-groups of the action categories that have a
    leaf, each category once and with its leaves. *)
Definition regrouped_as (g g' : json) : Prop :=
  forall name pages,
    listed_group g name pages ->
    (length pages <= 10 -> g' = g) /\
    (11 <= length pages ->
     forall leaves,
       pages = map JStr leaves ->
       exists subs,
         g' = JObj [ (txt "group", name);
                     (txt "pages", JArr (map action_sub_group subs)) ] /\
         NoDup (map fst subs) /\
         (forall k ps, In (k, ps) subs ->
                       In k Icons.ACTION_CATEGORIES /\
                       ps = action_bucket k leaves /\ ps <> []) /\
         list_sum (map (fun kv => length (snd kv)) subs) = length leaves).

(** A document in which no tab has the display name looked for. *)
Definition no_such_tab (docs_data : json) : Prop :=
  exists navigation tabs,
    Py.getitem docs_data (txt "navigation") = Ok navigation /\
    Py.getitem navigation (txt "tabs") = Ok (JArr tabs) /\
    Forall (fun tab => exists name,
                Py.getitem tab (txt "tab") = Ok name /\
                name <> JStr Nav.TAB_NAME) tabs.

End NavSpec.

Module RunSpec.

(** The world after the backup step: the backup file holds the dump of the
    parsed document, and the message is on the console. *)
Definition backed_up (docs_data : json) (w : world) : world :=
  {| fs := Script.write BACKUP_JSON (Json.dump docs_data) (fs w);
     console := console w ++ [BackedUp] |}.

Definition say (ms : list message) (w : world) : world :=
  {| fs := fs w; console := console w ++ ms |}.

(** The world after the document is written back. *)
Definition persisted (docs_data : json) (w : world) : world :=
  {| fs := Script.write DOCS_JSON (Json.dump docs_data) (fs w);
     console := console w |}.

(** The pure part of [create_accordion_navigation]: the new groups of the
    tab. *)
Definition accordion_groups (api_tab : json) : result (list json) :=
  (groups <- Py.getitem api_tab (txt "groups") ;;
   rest <- Py.slice_from1 groups ;;
   items <- Py.iter rest ;;
   regrouped <- Py.mapM Accordion.accordion_group items ;;
   Ok (Nav.INTRO_GROUP :: regrouped))%result.

(** The pure part of [organize_with_service_groups]. *)
Definition service_level_groups (api_tab : json) : result (list json) :=
  (groups <- Py.getitem api_tab (txt "groups") ;;
   intro_group <- Py.first_item groups ;;
   rest <- Py.slice_from1 groups ;;
   existing_groups <- Py.iter rest ;;
   built <- Service.service_groups existing_groups ;;
   Ok (intro_group :: built))%result.

(** The summary that [organize_with_service_groups] prints after writing. *)
Definition service_report (new_groups : list json) : Script.M unit :=
  (Script.print StructureHeader ;;
   n <- Script.lift (Service.count_services new_groups) ;;
   Script.print (TotalGroups n) ;;
   lines <- Script.lift (Py.mapM Service.service_line (tl new_groups)) ;;
   Service.print_all lines ;;
   total_endpoints <-
     Script.lift (Service.sum_results Service.count_service_group (tl new_groups)) ;;
   Script.print (TotalEndpoints total_endpoints))%script.

(** The summary that [update-docs-navigation.py] prints after writing. *)
Definition update_report (groups : list json) : Script.M unit :=
  (Script.print StructureHeader ;;
   Script.print (TotalGroups (length groups)) ;;
   total_pages <- Script.lift (UpdateDocs.sum_pages groups) ;;
   Script.print (TotalPages total_pages) ;;
   Script.print Complete)%script.

(** A step that leaves the files as they are. *)
Definition keeps_files {A} (m : Script.M A) : Prop :=
  forall w, fs (snd (m w)) = fs w.

(** The groups of the named tab in the document that a world holds, and
    their element 0. *)
Definition persisted_groups (w : world) : option json :=
  match docs_json (fs w) with
  | Some c =>
      match Json.load c with
      | Some d => Nav.tab_groups d
      | None => None
      end
  | None => None
  end.

Definition element0 (groups : option json) : option json :=
  match groups with
  | Some (JArr (g :: _)) => Some g
  | _ => None
  end.

End RunSpec.

(** ** Sample documents *)

Module Sample.

Definition leaf (s : string) : json := JStr (txt s).

Definition group (name : string) (pages : list json) : json :=
  Accordion.group_of (JStr (txt name)) pages.

(** A category group: a name and leaves. *)
Definition category (name : string) (pages : list string) : json :=
  group name (map leaf pages).

Definition tab_of (name : string) (groups : list json) : json :=
  JObj [ (txt "tab", JStr (txt name)); (txt "groups", JArr groups) ].

(** A document with one tab of the given name and groups, behind a tab of
    guides. *)
Definition document (tab : string) (groups : list json) : json :=
  JObj [ (txt "name", JStr (txt "Developer Documentation"));
         (txt "navigation",
          JObj [ (txt "tabs",
                  JArr [ tab_of "Guides" [category "Get started" ["index"]%string];
                         tab_of tab groups ]) ]) ].

Definition overview : json := category "Overview" ["api-reference/overview"]%string.

Definition camera : json :=
  category "Camera" ["api-reference/endpoint/camera/camera-getcameralist";
                     "api-reference/endpoint/camera/camera-createcamera"]%string.

Definition door : json :=
  category "Door"
    ["api-reference/endpoint/door/door-createdoor";
     "api-reference/endpoint/door/door-getdoor";
     "api-reference/endpoint/door/door-finddoors";
     "api-reference/endpoint/door/door-updatedoor";
     "api-reference/endpoint/door/door-deletedoor";
     "api-reference/endpoint/door/door-unlock";
     "api-reference/endpoint/door/door-lock";
     "api-reference/endpoint/door/door-getstate";
     "api-reference/endpoint/door/door-adddoorlabel";
     "api-reference/endpoint/door/door-removedoorlabel";
     "api-reference/endpoint/door/door-getevents"]%string.

Definition webhooks : json :=
  category "Webhooks" ["api-reference/endpoint/webhooks/webhooks-list"]%string.

(** A navigation document whose introduction entry is not the literal of
    the scripts. *)
Definition docs : json := document "API reference" [overview; camera; webhooks; door].

(** A document without the tab. *)
Definition docs_without_tab : json := document "Reference" [overview; camera].

(** A document after the accordion regrouping: two categories with a
    sub-group of the same name. *)
Definition docs_with_accordions : json :=
  document "API reference"
    [ Nav.INTRO_GROUP;
      group "Camera" [category "Get & Find" ["camera/camera-getcameralist";
                                             "camera/camera-findcameras"]%string];
      group "Door" [category "Get & Find" ["door/door-getdoor"]%string] ].

(** The generated navigation. *)
Definition generated : json := JArr [camera; door].

Definition world_of (docs nav : option text) : world :=
  {| fs := {| docs_json := docs; backup_json := None; nav_json := nav |};
     console := [] |}.

Definition world1 : world :=
  world_of (Some (Json.dump docs)) (Some (Json.dump generated)).

Definition world_without_tab : world :=
  world_of (Some (Json.dump docs_without_tab)) (Some (Json.dump generated)).

Definition quoted (s : string) : text := dq ++ txt s ++ dq.

(** A small document written on one line, as [json.dumps] writes it
    without an indent, and the value it parses to. *)
Definition one_line : text :=
  txt "{" ++ quoted "navigation" ++ txt ": {" ++ quoted "tabs" ++ txt ": [{" ++
  quoted "tab" ++ txt ": " ++ quoted "API reference" ++ txt ", " ++
  quoted "groups" ++ txt ": [{" ++ quoted "group" ++ txt ": " ++
  quoted "API documentation" ++ txt ", " ++ quoted "pages" ++ txt ": [" ++
  quoted "api-reference/introduction" ++ txt "]}]}]}}".

Definition one_line_value : json :=
  JObj [ (txt "navigation",
          JObj [ (txt "tabs", JArr [tab_of "API reference" [Nav.INTRO_GROUP]]) ]) ].

Definition world_one_line : world :=
  world_of (Some one_line) (Some (Json.dump generated)).

End Sample.

Module JsonSpec.

(** A value whose dictionaries have distinct keys, as every Python
    dictionary has. *)
Fixpoint wfb (v : json) : bool :=
  match v with
  | JArr items => forallb wfb items
  | JObj members =>
      NavSpec.nodupb (map fst members) &&
      forallb (fun kv => wfb (snd kv)) members
  | _ => true
  end.

(** A bound on the fuel that scanning the dump of a value takes. *)
Fixpoint size (v : json) : nat :=
  match v with
  | JArr items => S (list_sum (map (fun x => S (size x)) items))
  | JObj members => S (list_sum (map (fun kv => S (size (snd kv))) members))
  | _ => 1
  end.

(** What follows a value in a dump: nothing, a comma or a line break. *)
Definition delimited (rest : text) : bool :=
  match rest with
  | [] => true
  | c :: _ => Text.ascii_eqb c "," || Text.ascii_eqb c "010"
  end.

(** A text that starts with a character that is not white space. *)
Definition starts_token (s : text) : bool :=
  match s with
  | [] => false
  | c :: _ => negb (Json.is_ws c)
  end.

(** A character with which a JSON value can start for the decoder of
    Python: a quote, a brace, a bracket, the first letter of [null],
    [true], [false], [NaN] or [Infinity], a minus sign or a digit. *)
Definition starts_value (c : ascii) : bool :=
  Text.ascii_eqb c "034" || Text.ascii_eqb c "{" || Text.ascii_eqb c "[" ||
  Text.ascii_eqb c "n" || Text.ascii_eqb c "t" || Text.ascii_eqb c "f" ||
  Text.ascii_eqb c "N" || Text.ascii_eqb c "I" || Text.ascii_eqb c "-" ||
  Text.is_digit c.

(** A text in which the decoder finds no value: it is empty or blank, or
    its first character that is not white space cannot start a value.
    For such a text [json.load] raises [JSONDecodeError]
    ([Expecting value]). *)
Definition no_value (s : text) : bool :=
  match Json.skip_ws s with
  | [] => true
  | c :: _ => negb (starts_value c)
  end.

(** A value whose dump is scanned back to the value, at every nesting
    level and before every delimited rest, with enough fuel. *)
Definition scans_back (v : json) : Prop :=
  forall level fuel rest,
    size v <= fuel ->
    delimited rest = true ->
    Json.scan_value fuel (Json.dump_at level v ++ rest) = Some (v, rest).

End JsonSpec.

(** ** Vocabulary of the frame statements *)

Module FrameSpec.

(** The keys of an object, in their order. *)
Definition keys_of (o : json) : list text :=
  match o with
  | JObj d => Dict.keys d
  | _ => []
  end.

(** Two objects that list the same keys in the same order and hold the
    same value under every key but [k]. *)
Definition differs_only_at (k : text) (o o' : json) : Prop :=
  (forall k', k' <> k -> Nav.member k' o' = Nav.member k' o) /\
  keys_of o' = keys_of o.

(** The same, for an assignment to the key [k]: an object that has no key
    [k] gets it behind its keys. *)
Definition assigned_at (k : text) (o o' : json) : Prop :=
  (forall k', k' <> k -> Nav.member k' o' = Nav.member k' o) /\
  keys_of o' = (if existsb (Text.eqb k) (keys_of o)
                then keys_of o else keys_of o ++ [k]).

(** The tabs of a document. *)
Definition tabs_of (docs_data : json) : list json :=
  match Nav.member (txt "tabs") (Nav.member (txt "navigation") docs_data) with
  | JArr items => items
  | _ => []
  end.

(** A document [d'] that is [d] up to the groups of the first tab named
    [API reference]: the keys of the document and of its navigation and
    their order, every other key of that tab and their order (the key
    [groups] where it was, or last in a tab that had none), the value of
    every other key and every other tab are as they were. *)
Definition same_configuration (d d' : json) : Prop :=
  d' = d \/
  (differs_only_at (txt "navigation") d d' /\
   differs_only_at (txt "tabs") (Nav.member (txt "navigation") d)
                                (Nav.member (txt "navigation") d') /\
   exists pre tab tab' post,
     tabs_of d = pre ++ tab :: post /\
     tabs_of d' = pre ++ tab' :: post /\
     Forall (fun t => Nav.member (txt "tab") t <> JStr Nav.TAB_NAME) pre /\
     Nav.member (txt "tab") tab = JStr Nav.TAB_NAME /\
     assigned_at (txt "groups") tab tab').

End FrameSpec.

(** ** What a run leaves in the files *)

Module Outcome.

(** The document that the full replacement writes, if it gets that far:
    the generated navigation has to hold a list and the tab has to be
    found. *)
Definition update_writes (docs_data : json) (f : files) : option json :=
  match nav_json f with
  | Some nc =>
      match Json.load nc with
      | Some (JArr endpoint_nav) =>
          match Nav.locate_tab docs_data with
          | Ok (Some (i, _)) =>
              Some (Nav.assign_groups i (JArr (Nav.INTRO_GROUP :: endpoint_nav))
                      docs_data)
          | _ => None
          end
      | _ => None
      end
  | None => None
  end.

(** The document that the accordion regrouping writes, if any. *)
Definition accordion_writes (docs_data : json) : option json :=
  match Nav.locate_tab docs_data with
  | Ok (Some (i, api_tab)) =>
      match RunSpec.accordion_groups api_tab with
      | Ok new_groups => Some (Nav.assign_groups i (JArr new_groups) docs_data)
      | Raise _ => None
      end
  | _ => None
  end.

(** The document that the service-level regrouping writes, if any. *)
Definition service_writes (docs_data : json) : option json :=
  match Nav.locate_tab docs_data with
  | Ok (Some (i, api_tab)) =>
      match RunSpec.service_level_groups api_tab with
      | Ok new_groups => Some (Nav.assign_groups i (JArr new_groups) docs_data)
      | Raise _ => None
      end
  | _ => None
  end.

(** The files after a run that parsed [docs_data]: the backup holds its
    dump, and [docs.json] the dump of the document written, if any. *)
Definition after (written : option json) (docs_data : json) (f : files) : files :=
  let f1 := Script.write BACKUP_JSON (Json.dump docs_data) f in
  match written with
  | Some d => Script.write DOCS_JSON (Json.dump d) f1
  | None => f1
  end.

End Outcome.

(** ** The icon pass over the endpoint directory
       ([process_endpoint_icons] of [improve-endpoint-navigation.py]) *)

Module IconPass.

(** An entry of the endpoint directory: a directory with its entries by
    name and content, in sorted order, or something else.  The content of
    an entry is [None] when it cannot be read as text. *)
Inductive entry :=
| Dir (children : list (text * option text))
| NotDir.

(** [sorted(ENDPOINT_DIR.iterdir())], by name. *)
Definition tree := list (text * entry).

Inductive icon_message :=
| UpdatingIcons                 (* Updating endpoint icons... *)
| Processing (category_name : text)
| ErrorUpdating (file_path : text)
| UpdatedFor (category_name : text)
| UpdatedCount (n : nat).

Definition ENDPOINT_DIR : text := txt "docs/api-reference/endpoint".

(** [s.endswith(suffix)] *)
Definition endswith (suffix s : text) : bool :=
  Text.startswith (rev suffix) (rev s).

(** The names that [glob("*.mdx")] yields: those that end in [.mdx]. *)
Definition is_mdx (name : text) : bool := endswith (txt ".mdx") name.

(** The icon that the pass gives the file [name] of a category. *)
Definition icon_for (category_name name : text) : text :=
  let mdx_file := ENDPOINT_DIR ++ txt "/" ++ category_name ++ txt "/" ++ name in
  let action := Icons.get_action_from_path mdx_file in
  Icons.get_icon_for_endpoint category_name action.

(** Whether [update_endpoint_icon] gets into its [except] branch. *)
Definition update_fails (file : option text) (new_icon : text) : bool :=
  match file with
  | None => true
  | Some stored =>
      match Icons.re_sub_icon (Icons.ICON_OPEN ++ new_icon ++ dq)
                              (Icons.read_text stored) with
      | Some _ => false
      | None => true
      end
  end.

(** The loop over the files of one category directory: the files
    afterwards, the number of files updated and the messages. *)
Fixpoint process_files (category_name : text)
    (children : list (text * option text))
  : list (text * option text) * nat * list icon_message :=
  match children with
  | [] => ([], 0, [])
  | (name, file) :: rest =>
      let '(rest', n, ms) := process_files category_name rest in
      if is_mdx name then
        let new_icon := icon_for category_name name in
        let '(updated, file') := Icons.update_endpoint_icon file new_icon in
        let err :=
          if update_fails file new_icon
          then [ErrorUpdating (ENDPOINT_DIR ++ txt "/" ++ category_name ++
                               txt "/" ++ name)]
          else [] in
        ((name, file') :: rest', (if updated then 1 else 0) + n, err ++ ms)
      else ((name, file) :: rest', n, ms)
  end.

(** The loop over the category directories. *)
Fixpoint process_dirs (t : tree) : tree * nat * list icon_message :=
  match t with
  | [] => ([], 0, [])
  | (category_name, e) :: rest =>
      let '(rest', n, ms) := process_dirs rest in
      match e with
      | Dir children =>
          if Text.startswith (txt ".") category_name
          then ((category_name, e) :: rest', n, ms)
          else
            let '(children', k, ms') := process_files category_name children in
            ((category_name, Dir children') :: rest', k + n,
             Processing category_name :: ms' ++ UpdatedFor category_name :: ms)
      | NotDir => ((category_name, e) :: rest', n, ms)
      end
  end.

(** [process_endpoint_icons()]: the directory afterwards, the count that
    is printed and the messages. *)
Definition process_endpoint_icons (t : tree) : tree * nat * list icon_message :=
  let '(t', updated_count, ms) := process_dirs t in
  (t', updated_count, UpdatingIcons :: ms ++ [UpdatedCount updated_count]).

(** The directory after the pass and the count that the pass prints. *)
Definition tree_after (t : tree) : tree := fst (fst (process_endpoint_icons t)).
Definition updated_count (t : tree) : nat := snd (fst (process_endpoint_icons t)).

(** The number of files whose content differs between two listings of the
    same directories. *)
Definition content_eqb (a b : option text) : bool :=
  match a, b with
  | Some x, Some y => Text.eqb x y
  | None, None => true
  | _, _ => false
  end.

Fixpoint changed_children (l l' : list (text * option text)) : nat :=
  match l, l' with
  | (_, f) :: r, (_, f') :: r' =>
      (if content_eqb f f' then 0 else 1) + changed_children r r'
  | _, _ => 0
  end.

Fixpoint changed (t t' : tree) : nat :=
  match t, t' with
  | (_, Dir l) :: r, (_, Dir l') :: r' => changed_children l l' + changed r r'
  | _ :: r, _ :: r' => changed r r'
  | _, _ => 0
  end.

(** What the pass may do to an entry of the endpoint directory: the name
    stays, a directory stays a directory with the same names in it, a
    directory whose name starts with a dot keeps its files, and so does
    every file whose name does not end in [.mdx]. *)
Definition entry_kept (e e' : text * entry) : Prop :=
  fst e' = fst e /\
  match snd e, snd e' with
  | NotDir, NotDir => True
  | Dir l, Dir l' =>
      (Text.startswith (txt ".") (fst e) = true -> l' = l) /\
      Forall2 (fun f f' => fst f' = fst f /\
                           (is_mdx (fst f) = false -> snd f' = snd f)) l l'
  | _, _ => False
  end.

End IconPass.

(** ** Flat navigation documents *)

Module FlatSpec.

(** A flat group: a name and its leaves. *)
Definition flat_group (g : text * list text) : json :=
  Accordion.group_of (JStr (fst g)) (map JStr (snd g)).

(** A tab of flat groups. *)
Definition flat_tab (t : text * list (text * list text)) : json :=
  JObj [ (txt "tab", JStr (fst t));
         (txt "groups", JArr (map flat_group (snd t))) ].

(** A navigation of such tabs. *)
Definition flat_navigation (tabs : list (text * list (text * list text))) : json :=
  JObj [ (txt "tabs", JArr (map flat_tab tabs)) ].

(** The groups of the tabs, in the order of the document. *)
Definition groups_of (tabs : list (text * list (text * list text)))
  : list (text * list text) :=
  concat (map snd tabs).

End FlatSpec.

(** ** The page generator ([process_category_file] of
       [generate-endpoint-docs.py]) *)

Module Generator.

Inductive gen_message :=
| ProcessingFile (name : text)           (* Processing: <name> *)
| NoPathsFound (name : text)             (* No paths found in <name> *)
| GeneratedEndpoints (n : nat) (category : text).

Definition ENDPOINT_DIR : text := txt "docs/api-reference/endpoint".

(** [ENDPOINT_DIR / category], as a string.  The category is the stem of
    the name of the category file, so it holds no separator; a stem that is
    a single dot adds no component to the path. *)
Definition category_dir (category : text) : text :=
  if Text.eqb category [] || Text.eqb category (txt ".")
  then ENDPOINT_DIR
  else ENDPOINT_DIR ++ txt "/" ++ category.

(** [category_dir / filename] for [filename = sanitize_filename(path) +
    ".mdx"], which is never empty and holds no separator. *)
Definition file_path (category path : text) : text :=
  category_dir category ++ txt "/" ++ Emitter.sanitize_filename path ++ txt ".mdx".

(** [str(filepath.relative_to('docs')).replace('.mdx', '')] *)
Definition nav_path (category path : text) : text :=
  Text.replace (txt ".mdx") []
    (skipn (length (txt "docs/")) (file_path category path)).

(** The state of the loop over [paths.items()]: the files on disk by their
    path, [generated_files] and [endpoint_count]. *)
Definition state : Type := list (text * text) * list (text * text) * nat.

(** The body of the loop. *)
Definition write_endpoint (category : text) (st : state)
    (entry : text * Emitter.path_item) : state :=
  let '(disk, generated_files, endpoint_count) := st in
  let path := fst entry in
  let methods := snd entry in
  let filepath := file_path category path in
  let mdx_content := Emitter.generate_mdx_content path methods category in
  let disk := Dict.set filepath mdx_content disk in
  let generated_files := Dict.set path (nav_path category path) generated_files in
  (disk, generated_files, S endpoint_count).

(** [process_category_file(category_file)], on the parsed file: [name] and
    [category] are the name and the stem of the file, [paths] is
    [data.get('paths', {})] in the order of the file.  The result is
    [generated_files], with the files on disk afterwards and the
    messages. *)
Definition process_category_file (name category : text)
    (paths : list (text * Emitter.path_item)) (disk : list (text * text))
  : list (text * text) * list (text * text) * list gen_message :=
  match paths with
  | [] => ([], disk, [ProcessingFile name; NoPathsFound name])
  | _ :: _ =>
      let '(disk', generated_files, endpoint_count) :=
        fold_left (write_endpoint category) paths (disk, [], 0) in
      (generated_files, disk',
       [ProcessingFile name; GeneratedEndpoints endpoint_count category])
  end.

(** The parts of the result. *)
Definition generated_files (r : list (text * text) * list (text * text) * list gen_message)
  : list (text * text) := fst (fst r).
Definition disk_after (r : list (text * text) * list (text * text) * list gen_message)
  : list (text * text) := snd (fst r).

End Generator.

(** ** More sample documents *)

Module Sample2.

Import Sample.

(** Eleven category groups of one page each. *)
Definition eleven_categories : list json :=
  map (fun name => category name ["api-reference/endpoint/x/x-get"]%string)
      ["Camera"; "Door"; "Door Controller"; "Doorbell Camera"; "User"; "Users";
       "Badge Reader"; "Sensor"; "Climate"; "Button"; "Relay"]%string.

(** A document after the service-level regrouping, with a service of
    eleven categories. *)
Definition docs_by_service : json :=
  document "API reference"
    [ Nav.INTRO_GROUP; group "Core Services" eleven_categories ].

Definition world_by_service : world :=
  world_of (Some (Json.dump docs_by_service)) None.

(** A path item with two operations, [post] before [get]. *)
Definition create_op : Emitter.operation :=
  {| Emitter.op_summary := Some (txt "Create"); Emitter.op_description := None;
     Emitter.op_deprecated := None |}.

Definition list_op : Emitter.operation :=
  {| Emitter.op_summary := Some (txt "List"); Emitter.op_description := None;
     Emitter.op_deprecated := None |}.

Definition two_operations : Emitter.path_item :=
  [ (txt "post", create_op); (txt "get", list_op) ].

(** A generated navigation with an entry that has no pages. *)
Definition bad_nav : list json :=
  [ camera; JObj [ (txt "group", JStr (txt "Door")) ] ].

Definition world_bad_nav : world :=
  world_of (Some (Json.dump docs)) (Some (Json.dump (JArr bad_nav))).

(** Two paths of a category file with the same derived file name. *)
Definition colliding_paths : list (text * Emitter.path_item) :=
  [ (txt "/api/x/getY", two_operations);
    (txt "/api/x/gety", [(txt "post", create_op)]) ].

(** A document of two tabs of flat groups. *)
Definition flat_tabs : list (text * list (text * list text)) :=
  [ (txt "Guides", [ (txt "Get started", [txt "index"]) ]);
    (txt "API reference",
     [ (txt "Camera", [txt "camera/camera-getcameralist";
                       txt "camera/camera-createcamera"]);
       (txt "Door", [txt "door/door-getdoor"]) ]) ].

Definition flat_docs : list (text * json) :=
  [ (txt "name", JStr (txt "Developer Documentation"));
    (txt "navigation", FlatSpec.flat_navigation flat_tabs) ].

Definition flat_files : files :=
  {| docs_json := Some (Json.dump (JObj flat_docs));
     backup_json := None; nav_json := None |}.

(** A [docs.json] that holds a page of markup, not JSON. *)
Definition world_not_json : world :=
  world_of (Some (txt "<!DOCTYPE html>")) None.

(** A generated navigation that is a JSON object, and one that is blank. *)
Definition world_nav_object : world :=
  world_of (Some (Json.dump docs)) (Some (txt "{}")).

Definition world_nav_blank : world :=
  world_of (Some (Json.dump docs)) (Some (txt " " ++ nl)).

End Sample2.

(** * Properties *)

(** ** Text *)

Section TextFacts.

Lemma ascii_eqb_eq a b : Text.ascii_eqb a b = true <-> a = b.
Proof. apply Ascii.eqb_eq. Qed.

Lemma ascii_eqb_refl a : Text.ascii_eqb a a = true.
Proof. now apply ascii_eqb_eq. Qed.

Lemma ascii_eqb_neq a b : Text.ascii_eqb a b = false <-> a <> b.
Proof. apply Ascii.eqb_neq. Qed.

Lemma text_eqb_eq s t : Text.eqb s t = true <-> s = t.
Proof.
  revert t; induction s as [|a s IH]; intros [|b t]; simpl; split;
    try congruence; try discriminate.
  - intros H. apply andb_true_iff in H as [H1 H2].
    apply ascii_eqb_eq in H1. apply IH in H2. congruence.
  - intros H. injection H as -> ->. apply andb_true_iff. split.
    + apply ascii_eqb_refl.
    + now apply IH.
Qed.

Lemma text_eqb_refl s : Text.eqb s s = true.
Proof. now apply text_eqb_eq. Qed.

Lemma text_eqb_neq s t : Text.eqb s t = false <-> s <> t.
Proof.
  split.
  - intros H E. apply text_eqb_eq in E. congruence.
  - intros H. destruct (Text.eqb s t) eqn:E; [|reflexivity].
    apply text_eqb_eq in E. contradiction.
Qed.

Lemma text_eqb_sym s t : Text.eqb s t = Text.eqb t s.
Proof.
  destruct (Text.eqb s t) eqn:E.
  - apply text_eqb_eq in E as ->. symmetry. apply text_eqb_refl.
  - symmetry. apply text_eqb_neq. apply text_eqb_neq in E. congruence.
Qed.

Lemma startswith_app p s : Text.startswith p (p ++ s) = true.
Proof.
  induction p as [|a p IH]; simpl; [reflexivity|].
  now rewrite IH, ascii_eqb_refl.
Qed.

Lemma startswith_spec p s :
  Text.startswith p s = true <-> exists r, s = p ++ r.
Proof.
  split.
  - revert s; induction p as [|a p IH]; intros s H; simpl in *.
    + now exists s.
    + destruct s as [|b s]; [discriminate|].
      apply andb_true_iff in H as [H1 H2].
      apply ascii_eqb_eq in H1 as ->.
      destruct (IH _ H2) as [r ->]. now exists r.
  - intros [r ->]. apply startswith_app.
Qed.

(** Where [old] does not occur, [replace] changes nothing. *)
Lemma replace_from_absent old new s :
  Text.contains old s = false -> Text.replace_from 0 old new s = s.
Proof.
  induction s as [|c s IH]; intros H; [reflexivity|].
  cbn [Text.contains] in H. apply orb_false_iff in H as [H1 H2].
  cbn [Text.replace_from]. rewrite H1. f_equal. now apply IH.
Qed.

Lemma replace_from_skip old new s r :
  Text.replace_from (length s) old new (s ++ r) = Text.replace_from 0 old new r.
Proof.
  induction s as [|c s IH]; [reflexivity|].
  simpl. exact IH.
Qed.

(** A leading occurrence is replaced and the scan goes on behind it. *)
Lemma replace_from_prefix c old new r :
  Text.replace_from 0 (c :: old) new ((c :: old) ++ r) =
  new ++ Text.replace_from 0 (c :: old) new r.
Proof.
  cbn [Text.replace_from app].
  change (c :: old ++ r) with ((c :: old) ++ r).
  rewrite startswith_app. f_equal.
  replace (length (c :: old) - 1) with (length old) by (simpl; lia).
  apply replace_from_skip.
Qed.

End TextFacts.

(** ** The endpoint page emitter *)

Section EmitterFacts.

Import Emitter.

Lemma sanitize_filename_example :
  sanitize_filename (txt "/api/camera/getCameraList") = txt "camera-getcameralist".
Proof. reflexivity. Qed.

(** Where ["/api/"] occurs only as the prefix of the path, the code and the
    derivation of the specification agree. *)
Lemma sanitize_filename_prefix_only rest :
  Text.contains (txt "/api/") rest = false ->
  sanitize_filename (txt "/api/" ++ rest) = spec_identifier (txt "/api/" ++ rest).
Proof.
  intros H. unfold sanitize_filename, spec_identifier, strip_prefix.
  rewrite startswith_app.
  rewrite skipn_app, skipn_all, Nat.sub_diag. cbn [skipn app].
  unfold Text.replace at 2. cbn [txt list_ascii_of_string].
  rewrite replace_from_prefix. cbn [app].
  now rewrite (replace_from_absent _ _ _ H).
Qed.

(** Where ["/api/"] does not occur at all, they agree as well. *)
Lemma sanitize_filename_no_prefix path :
  Text.contains (txt "/api/") path = false ->
  sanitize_filename path = spec_identifier path.
Proof.
  intros H. unfold sanitize_filename, spec_identifier, strip_prefix.
  assert (Hs : Text.startswith (txt "/api/") path = false).
  { destruct path; cbn [Text.contains] in H;
      apply orb_false_iff in H as [H _]; exact H. }
  rewrite Hs. unfold Text.replace at 2. cbn [txt list_ascii_of_string].
  now rewrite (replace_from_absent _ _ _ H).
Qed.

(** C8: on the path of the specification's example the derived identifier
    is [camera-getcameralist]; on a path with a second ["/api/"] inside, the
    code removes that occurrence too, where stripping the prefix alone
    (the comment of the code and the specification) keeps it as [-api-]. *)
Theorem sanitize_filename_inner_occurrence :
  sanitize_filename (txt "/api/camera/getCameraList") = txt "camera-getcameralist" /\
  sanitize_filename (txt "/api/org/api/getTokens") = txt "orggettokens" /\
  spec_identifier (txt "/api/org/api/getTokens") = txt "org-api-gettokens" /\
  sanitize_filename (txt "/api/org/api/getTokens") <>
  spec_identifier (txt "/api/org/api/getTokens").
Proof. repeat split; try reflexivity. discriminate. Qed.

Lemma truncate_long desc :
  160 < length desc ->
  truncate_description desc = firstn 157 desc ++ txt "..." /\
  length (truncate_description desc) = 160.
Proof.
  intros H. unfold truncate_description.
  apply Nat.ltb_lt in H as Hb. rewrite Hb. split; [reflexivity|].
  rewrite length_app, firstn_length_le by lia. reflexivity.
Qed.

Lemma truncate_short desc :
  length desc <= 160 -> truncate_description desc = desc.
Proof.
  intros H. unfold truncate_description.
  apply Nat.ltb_ge in H. now rewrite H.
Qed.

(** C9: the description written into the frontmatter is the effective
    description (the description, else the summary, else a default text);
    when that is longer than 160 characters it is cut to its first 157
    characters followed by three dots, 160 characters in all, and
    otherwise it is written as it is. *)
Theorem description_truncation path endpoint_data category :
  let '(_, summary, description, _) := get_method_and_summary endpoint_data in
  let desc := str_or description (str_or summary (txt "API endpoint for " ++ path)) in
  exists title rest written,
    generate_mdx_content path endpoint_data category =
      txt "---" ++ nl ++ txt "title: " ++ dq ++ title ++ dq ++ nl ++
      txt "description: " ++ dq ++ written ++ dq ++ nl ++ rest /\
    (160 < length desc ->
       written = firstn 157 desc ++ txt "..." /\ length written = 160) /\
    (length desc <= 160 -> written = desc).
Proof.
  unfold generate_mdx_content, frontmatter_description.
  destruct (get_method_and_summary endpoint_data) as [[[method summary] description] deprecated].
  cbv zeta.
  set (desc := str_or description (str_or summary (txt "API endpoint for " ++ path))).
  assert (E : exists rest,
    (let frontmatter :=
       txt "---" ++ nl ++
       txt "title: " ++ dq ++ str_or summary (Text.replace (txt "/api/") [] path) ++ dq ++ nl ++
       txt "description: " ++ dq ++ truncate_description desc ++ dq ++ nl ++
       txt "openapi: " ++ dq ++ method ++ txt " " ++ path ++ dq ++ nl ++
       txt "icon: " ++ dq ++ or_default (dict_get category icon_map) (txt "circle-dot") ++ dq ++ nl in
     frontmatter) =
    txt "---" ++ nl ++
    txt "title: " ++ dq ++ str_or summary (Text.replace (txt "/api/") [] path) ++ dq ++ nl ++
    txt "description: " ++ dq ++ truncate_description desc ++ dq ++ nl ++ rest)
    by (eexists; reflexivity).
  destruct E as [r0 E]. cbv zeta in E.
  exists (str_or summary (Text.replace (txt "/api/") [] path)).
  destruct deprecated, description as [|d0 description];
    try destruct (Text.eqb (d0 :: description) summary);
    rewrite E; repeat rewrite <- app_assoc;
    (eexists; exists (truncate_description desc);
     split; [reflexivity | split; [apply truncate_long | apply truncate_short]]).
Qed.

End EmitterFacts.

(** ** The icon update *)

Section IconFacts.

Import Icons IconSpec.

Lemma until_quote_spec s v rest :
  until_quote s = Some (v, rest) ->
  s = v ++ quote :: rest /\ ~ In quote v.
Proof.
  revert v rest; induction s as [|c s IH]; intros v rest H; [discriminate|].
  simpl in H. destruct (is_quote c) eqn:Q.
  - injection H as <- <-. apply ascii_eqb_eq in Q as ->.
    split; [reflexivity | intros []].
  - destruct (until_quote s) as [[v' rest']|]; [|discriminate].
    injection H as <- <-. destruct (IH _ _ eq_refl) as [-> Hn].
    split; [reflexivity|]. intros [->|Hin]; [|now apply Hn].
    unfold is_quote, quote in Q. now rewrite ascii_eqb_refl in Q.
Qed.

Lemma match_icon_spec s v rest :
  match_icon s = Some (v, rest) ->
  s = ICON_OPEN ++ v ++ dq ++ rest /\ ~ In quote v.
Proof.
  unfold match_icon. intros H.
  destruct (Text.startswith ICON_OPEN s) eqn:P; [|discriminate].
  apply startswith_spec in P as [r ->].
  rewrite skipn_app, skipn_all, Nat.sub_diag in H. cbn [skipn app] in H.
  apply until_quote_spec in H as [-> Hn]. split; [reflexivity | exact Hn].
Qed.

Lemma match_icon_shorter s v rest :
  match_icon s = Some (v, rest) -> length rest < length s.
Proof.
  intros H. apply match_icon_spec in H as [-> _].
  rewrite !length_app. simpl. lia.
Qed.

Lemma original_scan fuel s : original (scan fuel s) = s.
Proof.
  revert s; induction fuel as [|fuel IH]; intros s.
  - unfold original. simpl. induction s as [|c s IHs]; [reflexivity|].
    simpl. now rewrite IHs.
  - destruct s as [|c s]; [reflexivity|].
    cbn [scan]. destruct (match_icon (c :: s)) as [[v rest]|] eqn:M.
    + apply match_icon_spec in M as [-> _].
      unfold original in *. cbn [flat_map render]. rewrite IH.
      now rewrite <- !app_assoc.
    + unfold original in *. cbn [flat_map render app]. now rewrite IH.
Qed.



Lemma expand_literal repl matched :
  expand (map TChar repl) matched = repl.
Proof.
  unfold expand. induction repl as [|c r IH]; [reflexivity|].
  simpl. now rewrite IH.
Qed.

Lemma sub_loop_scan fuel repl s :
  sub_loop fuel (map TChar repl) s =
  flat_map (fun g => match g with Keep c => [c] | Field _ => repl end)
           (scan fuel s).
Proof.
  revert s; induction fuel as [|fuel IH]; intros s.
  - simpl. induction s as [|c s IHs]; [reflexivity|].
    simpl. now rewrite <- IHs.
  - destruct s as [|c s]; [reflexivity|].
    cbn [sub_loop scan]. destruct (match_icon (c :: s)) as [[v rest]|].
    + cbn [flat_map]. now rewrite expand_literal, IH.
    + cbn [flat_map app]. now rewrite IH.
Qed.

Lemma parse_template_literal s :
  ~ In backslash s -> parse_template (length s) s = Some (map TChar s).
Proof.
  induction s as [|c s IH]; intros H; [reflexivity|].
  cbn [length parse_template].
  assert (Hc : Text.ascii_eqb c "\" = false).
  { apply ascii_eqb_neq. intros ->. apply H. now left. }
  rewrite Hc. cbn [negb]. rewrite IH; [reflexivity|].
  intros Hin. apply H. now right.
Qed.

Lemma re_sub_icon_literal new_icon content :
  ~ In backslash new_icon ->
  re_sub_icon (ICON_OPEN ++ new_icon ++ dq) content =
  Some (replaced new_icon (scan (length content) content)).
Proof.
  intros H. unfold re_sub_icon. rewrite parse_template_literal.
  - rewrite sub_loop_scan. apply f_equal. unfold replaced.
    apply flat_map_ext. intros [c|v]; reflexivity.
  - intros Hin. apply in_app_or in Hin as [Hin|Hin].
    + revert Hin. unfold ICON_OPEN, backslash. cbn.
      intuition discriminate.
    + apply in_app_or in Hin as [Hin|Hin]; [now apply H|].
      revert Hin. unfold backslash. cbn. intuition discriminate.
Qed.

(** An icon returned by [get_icon_for_endpoint] holds no backslash. *)
Lemma first_icon_in test table icon :
  first_icon test table = Some icon -> In icon (map snd table).
Proof.
  induction table as [|[k i] table IH]; [discriminate|].
  simpl. destruct (test k); intros H.
  - injection H as ->. now left.
  - right. now apply IH.
Qed.

Lemma table_icons_plain category action :
  ~ In backslash (get_icon_for_endpoint category action).
Proof.
  assert (A : forallb (fun i => negb (existsb (Text.ascii_eqb backslash) i))
                (map snd ACTION_ICONS) = true) by reflexivity.
  assert (C : forallb (fun i => negb (existsb (Text.ascii_eqb backslash) i))
                (map snd CATEGORY_ICONS) = true) by reflexivity.
  assert (P : forall (table : list (text * text)) icon,
             forallb (fun i => negb (existsb (Text.ascii_eqb backslash) i))
               (map snd table) = true ->
             In icon (map snd table) -> ~ In backslash icon).
  { intros table icon F Hin Hb.
    rewrite forallb_forall in F. specialize (F _ Hin).
    apply negb_true_iff in F.
    assert (E : existsb (Text.ascii_eqb backslash) icon = true).
    { apply existsb_exists. exists backslash. split; [exact Hb|].
      apply ascii_eqb_refl. }
    congruence. }
  unfold get_icon_for_endpoint.
  destruct (first_icon _ ACTION_ICONS) as [icon|] eqn:E1.
  - apply (P _ _ A). now apply first_icon_in in E1.
  - destruct (first_icon _ CATEGORY_ICONS) as [icon|] eqn:E2.
    + apply (P _ _ C). now apply first_icon_in in E2.
    + unfold backslash. cbn. intuition discriminate.
Qed.

Lemma until_quote_found v rest :
  ~ In quote v -> until_quote (v ++ dq ++ rest) = Some (v, rest).
Proof.
  induction v as [|c v IH]; intros H; [reflexivity|].
  cbn [app until_quote]. destruct (is_quote c) eqn:Q.
  - apply ascii_eqb_eq in Q as ->. destruct H. now left.
  - rewrite IH; [reflexivity|]. intros Hin. apply H. now right.
Qed.

Lemma match_icon_intro v rest :
  ~ In quote v -> match_icon (ICON_OPEN ++ v ++ dq ++ rest) = Some (v, rest).
Proof.
  intros H. unfold match_icon. rewrite startswith_app.
  rewrite skipn_app, skipn_all, Nat.sub_diag. cbn [skipn app].
  now apply until_quote_found.
Qed.

(** *** Reading the file *)

(** What [read_text] returns holds no carriage return. *)
Lemma read_text_bounded n :
  forall stored, length stored <= n ->
    ~ In carriage_return (read_text stored).
Proof.
  unfold read_text, carriage_return.
  induction n as [|n IH]; intros s Hn.
  - destruct s; [intros [] | simpl in Hn; lia].
  - destruct s as [|c s]; [intros []|].
    cbn [universal_newlines].
    destruct (Text.ascii_eqb c "013") eqn:E.
    + destruct s as [|d s].
      * intros [H|[]]. discriminate H.
      * destruct (Text.ascii_eqb d "010"); intros [H|H];
          try discriminate H.
        -- revert H. apply IH. simpl in Hn. lia.
        -- revert H. apply IH. simpl in Hn |- *. lia.
    + intros [H|H].
      * subst c. now rewrite ascii_eqb_refl in E.
      * revert H. apply IH. simpl in Hn. lia.
Qed.

Lemma read_text_no_cr stored : ~ In carriage_return (read_text stored).
Proof. apply (@read_text_bounded (length stored)). apply Nat.le_refl. Qed.

(** A text without carriage return is read as it is stored. *)
Lemma read_text_plain stored :
  ~ In carriage_return stored -> read_text stored = stored.
Proof.
  unfold read_text, carriage_return.
  induction stored as [|c s IH]; intros H; [reflexivity|].
  cbn [universal_newlines].
  assert (E : Text.ascii_eqb c "013" = false).
  { apply ascii_eqb_neq. intros ->. apply H. now left. }
  rewrite E, IH; [reflexivity|]. intros Hin. apply H. now right.
Qed.

(** A character of the updated text is one of the text read or one of the
    new icon. *)
Lemma in_replaced a new_icon segs :
  In a (replaced new_icon segs) -> In a (original segs) \/ In a new_icon.
Proof.
  unfold replaced, original.
  induction segs as [|g segs IH]; intros H; [destruct H|].
  cbn [flat_map] in H |- *. apply in_app_or in H as [H|H].
  - destruct g as [c|v]; cbn [render] in H |- *.
    + left. apply in_or_app. now left.
    + apply in_app_or in H as [H|H].
      * left. apply in_or_app. left. apply in_or_app. now left.
      * apply in_app_or in H as [H|H]; [now right|].
        left. apply in_or_app. left. apply in_or_app. right.
        apply in_or_app. now right.
  - destruct (IH H) as [H'|H']; [|now right].
    left. apply in_or_app. now right.
Qed.




End IconFacts.

(** ** Stable partitions *)

Section Partition.

Import NavSpec.

Lemma nodupb_sound l : nodupb l = true -> NoDup l.
Proof.
  induction l as [|x l IH]; intros H; [constructor|].
  simpl in H. apply andb_true_iff in H as [H1 H2].
  constructor; [|now apply IH].
  intros Hin. apply negb_true_iff in H1.
  assert (E : existsb (Text.eqb x) l = true).
  { apply existsb_exists. exists x. split; [exact Hin | apply text_eqb_refl]. }
  congruence.
Qed.

Variable A : Type.
Variable key : A -> text.


(** Adding an item to the bucket of its key, in a concatenation of the
    buckets, adds that item once. *)
Lemma flat_map_add_one (f : text -> list A) (a : A) (k : text) keys :
  NoDup keys -> In k keys ->
  Permutation
    (flat_map (fun c => if Text.eqb k c then a :: f c else f c) keys)
    (a :: flat_map f keys).
Proof.
  induction keys as [|c keys IH]; intros ND Hin; [destruct Hin|].
  inversion ND as [|? ? Hn ND']; subst.
  cbn [flat_map]. destruct (Text.eqb k c) eqn:E.
  - apply text_eqb_eq in E as ->. cbn [app]. constructor.
    apply Permutation_app_head.
    assert (R : forall l, ~ In c l ->
              flat_map (fun c0 => if Text.eqb c c0 then a :: f c0 else f c0) l
              = flat_map f l).
    { induction l as [|x l IHl]; intros Hx; [reflexivity|].
      cbn [flat_map]. rewrite IHl by (intros ?; apply Hx; now right).
      destruct (Text.eqb c x) eqn:Ex; [|reflexivity].
      apply text_eqb_eq in Ex as ->. exfalso. apply Hx. now left. }
    now rewrite R.
  - destruct Hin as [->|Hin]; [now rewrite text_eqb_refl in E|].
    etransitivity; [apply Permutation_app_head, IH; assumption|].
    symmetry. apply Permutation_middle.
Qed.

(** The buckets of a partition by key, concatenated over distinct keys
    that cover every item, hold every item exactly once. *)
Lemma partition_permutation keys (l : list A) :
  NoDup keys ->
  (forall a, In a l -> In (key a) keys) ->
  Permutation (flat_map (fun c => filter (fun a => Text.eqb (key a) c) l) keys) l.
Proof.
  intros ND. induction l as [|a l IH]; intros Hk.
  - simpl. clear. induction keys; [constructor | exact IHkeys].
  - etransitivity.
    2:{ constructor. apply IH. intros b Hb. apply Hk. now right. }
    etransitivity.
    2:{ apply (@flat_map_add_one (fun c => filter (fun a => Text.eqb (key a) c) l) a (key a) keys ND).
        apply Hk. now left. }
    apply Permutation_refl'. apply flat_map_ext. intros c.
    cbn [filter]. reflexivity.
Qed.

End Partition.

(** ** The action categories of the accordion *)

Section CategorizeFacts.

Import Icons NavSpec.

Lemma action_categories_nodup : NoDup ACTION_CATEGORIES.
Proof. apply nodupb_sound. reflexivity. Qed.

Lemma action_category_known page : In (action_category page) ACTION_CATEGORIES.
Proof.
  unfold action_category, ACTION_CATEGORIES.
  destruct (any_in CREATE_WORDS _); [now left|].
  destruct (any_in GET_WORDS _); [right; now left|].
  destruct (any_in UPDATE_WORDS _); [do 2 right; now left|].
  destruct (any_in DELETE_WORDS _); [do 3 right; now left|].
  do 4 right. now left.
Qed.

Lemma dict_append_map {A} (g : text -> list A) k v cs :
  NoDup cs ->
  dict_append k v (map (fun c => (c, g c)) cs) =
  map (fun c => (c, if Text.eqb k c then g c ++ [v] else g c)) cs.
Proof.
  induction cs as [|c cs IH]; intros ND; [reflexivity|].
  inversion ND as [|? ? Hn ND']; subst.
  cbn [map dict_append]. destruct (Text.eqb k c) eqn:E.
  - f_equal. apply text_eqb_eq in E as ->.
    apply map_ext_in. intros c' Hc'.
    destruct (Text.eqb c c') eqn:E'; [|reflexivity].
    apply text_eqb_eq in E' as ->. contradiction.
  - f_equal. now apply IH.
Qed.

Lemma categorize_fold {A} (key : A -> text) (g : text -> list A) pages cs :
  NoDup cs ->
  fold_left (fun cats page => dict_append (action_category (key page)) page cats)
            pages (map (fun c => (c, g c)) cs) =
  map (fun c => (c, g c ++ filter (fun p => Text.eqb (action_category (key p)) c) pages)) cs.
Proof.
  intros ND. revert g. induction pages as [|p pages IH]; intros g.
  - cbn [fold_left filter]. apply map_ext. intros c. now rewrite app_nil_r.
  - cbn [fold_left]. rewrite dict_append_map by exact ND.
    rewrite (IH (fun c => if Text.eqb (action_category (key p)) c
                          then g c ++ [p] else g c)).
    apply map_ext. intros c. cbn [filter].
    destruct (Text.eqb (action_category (key p)) c); [|reflexivity].
    now rewrite <- app_assoc.
Qed.

(** [categorize_by]: the non-empty buckets, in the order of the five
    categories, each holding its pages in their order. *)
Lemma categorize_by_spec {A} (key : A -> text) pages :
  categorize_by key pages =
  filter (fun kv => nonempty (snd kv))
    (map (fun c => (c, filter (fun p => Text.eqb (action_category (key p)) c) pages))
         ACTION_CATEGORIES).
Proof.
  unfold categorize_by.
  rewrite (categorize_fold key (fun _ => []) pages action_categories_nodup).
  reflexivity.
Qed.

Lemma categorize_endpoints_spec pages :
  categorize_endpoints pages =
  filter (fun kv => nonempty (snd kv))
    (map (fun c => (c, action_bucket c pages)) ACTION_CATEGORIES).
Proof. unfold categorize_endpoints. now rewrite categorize_by_spec. Qed.

Lemma concat_nonempty {A} (f : text -> list A) cs :
  concat (map snd (filter (fun kv => nonempty (snd kv)) (map (fun c => (c, f c)) cs)))
  = flat_map f cs.
Proof.
  induction cs as [|c cs IH]; [reflexivity|].
  cbn [map filter flat_map snd]. destruct (f c) eqn:E; cbn [nonempty].
  - exact IH.
  - cbn [map concat snd]. now rewrite IH.
Qed.

Lemma categorize_endpoints_permutation pages :
  Permutation (concat (map snd (categorize_endpoints pages))) pages.
Proof.
  rewrite categorize_endpoints_spec, concat_nonempty.
  apply (@partition_permutation _ action_category ACTION_CATEGORIES pages
           action_categories_nodup).
  intros a _. apply action_category_known.
Qed.

Lemma categorize_endpoints_buckets pages k ps :
  In (k, ps) (categorize_endpoints pages) ->
  In k ACTION_CATEGORIES /\ ps = action_bucket k pages /\ ps <> [].
Proof.
  rewrite categorize_endpoints_spec. intros H.
  apply filter_In in H as [H N]. apply in_map_iff in H as [c [E Hc]].
  injection E as <- <-. split; [exact Hc|]. split; [reflexivity|].
  intros Z. cbn [snd] in N. now rewrite Z in N.
Qed.

Lemma categorize_endpoints_count pages :
  list_sum (map (fun kv => length (snd kv)) (categorize_endpoints pages))
  = length pages.
Proof.
  rewrite <- (Permutation_length (categorize_endpoints_permutation pages)).
  induction (categorize_endpoints pages) as [|[k ps] l IH]; [reflexivity|].
  cbn [map concat snd]. rewrite length_app.
  change (length ps + list_sum (map (fun kv : text * list text => length (snd kv)) l)
          = length ps + length (concat (map snd l))).
  f_equal. exact IH.
Qed.

End CategorizeFacts.

(** ** Service-level classification and grouping *)

Section ServiceFacts.

Import Service NavSpec.

Lemma getitem_member g k v : Py.getitem g k = Ok v -> Nav.member k g = v.
Proof.
  destruct g; try discriminate. simpl.
  destruct (Dict.get k members); [|discriminate]. congruence.
Qed.

Lemma name_in_spec s groups : name_in (JStr s) groups = true <-> In s groups.
Proof.
  unfold name_in. rewrite existsb_exists. split.
  - intros [x [Hx E]]. simpl in E. apply text_eqb_eq in E. now subst.
  - intros H. exists s. split; [exact H | apply text_eqb_refl].
Qed.

Lemma name_in_non_string n groups :
  (forall s, n <> JStr s) -> name_in n groups = false.
Proof.
  intros H. unfold name_in. induction groups as [|g groups IH]; [reflexivity|].
  simpl. rewrite IH. destruct n; try reflexivity. now destruct (H s).
Qed.

(** The first bucket of the table that holds the name wins; without one the
    answer is the sentinel. *)
Lemma classify_first table s :
  (exists pre members post,
      table = pre ++ (classify table (JStr s), members) :: post /\
      In s members /\
      forall b m, In (b, m) pre -> ~ In s m) \/
  (classify table (JStr s) = OTHER_SERVICES /\
   forall b m, In (b, m) table -> ~ In s m).
Proof.
  induction table as [|[b0 m0] table IH].
  - right. split; [reflexivity | intros b m []].
  - cbn [classify]. destruct (name_in (JStr s) m0) eqn:E.
    + left. exists [], m0, table. split; [reflexivity|].
      split; [now apply name_in_spec | intros b m []].
    + assert (N : ~ In s m0).
      { intros Hin. apply name_in_spec in Hin. congruence. }
      destruct IH as [[pre [members [post [Et [Hin Hpre]]]]]|[Eo Hall]].
      * left. exists ((b0, m0) :: pre), members, post.
        split; [cbn [app]; now rewrite <- Et|].
        split; [exact Hin|].
        intros b m [Eq|Hb]; [injection Eq as <- <-; exact N | now apply (Hpre b)].
      * right. split; [exact Eo|].
        intros b m [Eq|Hb]; [injection Eq as <- <-; exact N | now apply (Hall b)].
Qed.

Lemma classify_non_string table n :
  (forall s, n <> JStr s) -> classify table n = OTHER_SERVICES.
Proof.
  intros H. induction table as [|[b0 m0] table IH]; [reflexivity|].
  cbn [classify]. now rewrite name_in_non_string.
Qed.

Lemma classify_known table n :
  In (classify table n) (Dict.keys table ++ [OTHER_SERVICES]).
Proof.
  induction table as [|[b0 m0] table IH]; [now left|].
  cbn [classify]. destruct (name_in n m0); [now left | now right].
Qed.

Lemma buckets_nodup : NoDup BUCKETS.
Proof. apply nodupb_sound. reflexivity. Qed.

Lemma declared_not_sentinel s :
  In s (Dict.keys SERVICE_GROUPS) -> s <> OTHER_SERVICES.
Proof.
  intros Hin ->. pose proof buckets_nodup as ND. unfold BUCKETS in ND.
  apply NoDup_remove_2 in ND. apply ND. rewrite app_nil_r. exact Hin.
Qed.

Lemma get_add_to_service s s' g ss :
  Dict.get s (add_to_service s' g ss) =
  if Text.eqb s s'
  then Some (match Dict.get s ss with Some l => l | None => [] end ++ [g])
  else Dict.get s ss.
Proof.
  induction ss as [|[k l] ss IH].
  - cbn. destruct (Text.eqb s s'); reflexivity.
  - cbn [add_to_service]. destruct (Text.eqb s' k) eqn:E1.
    + apply text_eqb_eq in E1 as ->. cbn [Dict.get].
      destruct (Text.eqb s k); reflexivity.
    + cbn [Dict.get]. destruct (Text.eqb s k) eqn:E2.
      * apply text_eqb_eq in E2 as ->.
        rewrite text_eqb_sym in E1. now rewrite E1.
      * exact IH.
Qed.

(** The loop over the existing groups fills every bucket with its groups,
    in their order. *)
Lemma organize_spec gs :
  Forall has_name gs ->
  forall ss un,
  exists ss',
    organize gs ss un = Ok (ss', un ++ bucket OTHER_SERVICES gs) /\
    forall s, s <> OTHER_SERVICES ->
      Dict.get s ss' =
      match bucket s gs with
      | [] => Dict.get s ss
      | l => Some (match Dict.get s ss with Some l0 => l0 | None => [] end ++ l)
      end.
Proof.
  induction 1 as [|g gs [n Hn] _ IH]; intros ss un.
  - exists ss. cbn. rewrite app_nil_r. split; [reflexivity | reflexivity].
  - cbn [organize]. rewrite Hn. cbn [Py.bind].
    assert (Es : categorize_group n = service_of g).
    { unfold service_of, name_of. now rewrite (getitem_member _ _ Hn). }
    rewrite Es. unfold bucket. cbn [filter]. fold (bucket OTHER_SERVICES gs).
    destruct (Text.eqb (service_of g) OTHER_SERVICES) eqn:E.
    + destruct (IH ss (un ++ [g])) as [ss' [Ho Hg]].
      exists ss'. split; [rewrite Ho; now rewrite <- app_assoc|].
      intros s Hs. rewrite (Hg s Hs).
      apply text_eqb_eq in E. rewrite E.
      assert (F : Text.eqb OTHER_SERVICES s = false).
      { apply text_eqb_neq. congruence. }
      now rewrite F.
    + destruct (IH (add_to_service (service_of g) g ss) un) as [ss' [Ho Hg]].
      exists ss'. split; [exact Ho|].
      intros s Hs. rewrite (Hg s Hs), get_add_to_service.
      rewrite (text_eqb_sym s). fold (bucket s gs).
      destruct (Text.eqb (service_of g) s); [|reflexivity].
      destruct (bucket s gs); [reflexivity|].
      now rewrite <- app_assoc.
Qed.

Lemma emit_services_spec names ss :
  emit_services names ss =
  flat_map (fun s => match Dict.get s ss with
                     | Some c => [Accordion.group_of (JStr s) c]
                     | None => []
                     end) names.
Proof.
  induction names as [|s names IH]; [reflexivity|].
  cbn [emit_services flat_map]. rewrite IH.
  destruct (Dict.get s ss); reflexivity.
Qed.

Lemma flat_map_agree {A B} (f g : A -> list B) l :
  (forall a, In a l -> f a = g a) -> flat_map f l = flat_map g l.
Proof.
  induction l as [|a l IH]; intros H; [reflexivity|].
  cbn [flat_map]. rewrite (H a (or_introl eq_refl)), IH; [reflexivity|].
  intros b Hb. apply H. now right.
Qed.

(** The service groups built from a sequence of named category groups:
    one group per non-empty bucket, in the order of the table, the sentinel
    bucket last. *)
Lemma service_groups_spec gs :
  Forall has_name gs ->
  service_groups gs = Ok (flat_map (emit_bucket gs) BUCKETS).
Proof.
  intros H. unfold service_groups.
  destruct (organize_spec H [] []) as [ss' [Ho Hg]].
  rewrite Ho. cbn [Py.bind fst snd app]. f_equal.
  unfold build_groups, BUCKETS. rewrite flat_map_app, emit_services_spec.
  f_equal.
  - apply flat_map_agree. intros s Hs.
    rewrite (Hg s (@declared_not_sentinel s Hs)). unfold emit_bucket.
    cbn [Dict.get]. destruct (bucket s gs); reflexivity.
  - cbn [flat_map]. rewrite app_nil_r. unfold emit_bucket.
    destruct (bucket OTHER_SERVICES gs); reflexivity.
Qed.

Lemma names_of_buckets gs names :
  map name_of (flat_map (emit_bucket gs) names) =
  map JStr (filter (fun s => Icons.nonempty (bucket s gs)) names).
Proof.
  induction names as [|s names IH]; [reflexivity|].
  cbn [flat_map filter]. rewrite map_app, IH. unfold emit_bucket.
  destruct (bucket s gs); reflexivity.
Qed.

Lemma pages_of_buckets gs names :
  concat (map pages_of (flat_map (emit_bucket gs) names)) =
  flat_map (fun s => bucket s gs) names.
Proof.
  induction names as [|s names IH]; [reflexivity|].
  cbn [flat_map]. rewrite map_app, concat_app, IH. unfold emit_bucket.
  destruct (bucket s gs) eqn:E; [reflexivity|].
  cbn. now rewrite app_nil_r.
Qed.

Lemma built_groups_are_buckets gs names g :
  In g (flat_map (emit_bucket gs) names) ->
  exists s, In s names /\ name_of g = JStr s /\ pages_of g = bucket s gs /\
            bucket s gs <> [].
Proof.
  intros H. apply in_flat_map in H as [s [Hs Hg]].
  exists s. split; [exact Hs|]. unfold emit_bucket in Hg.
  destruct (bucket s gs) eqn:E; [destruct Hg|].
  destruct Hg as [<-|[]]. repeat split. discriminate.
Qed.

(** C5: for a name that is a string the classification answers the first
    bucket, in the order of the table, whose members hold the name, and the
    sentinel [Other Services] when no bucket holds it (a name that is not a
    string is in no bucket).  Built from category groups that have names,
    the service groups are those of the non-empty buckets in the order of
    the table, followed by the sentinel group when its bucket is not
    empty. *)
Theorem service_classification_and_order :
  (forall s : text,
      (exists pre members post,
          SERVICE_GROUPS = pre ++ (categorize_group (JStr s), members) :: post /\
          In s members /\
          forall b m, In (b, m) pre -> ~ In s m) \/
      (categorize_group (JStr s) = OTHER_SERVICES /\
       forall b m, In (b, m) SERVICE_GROUPS -> ~ In s m)) /\
  (forall n, (forall s, n <> JStr s) -> categorize_group n = OTHER_SERVICES) /\
  (forall existing_groups,
      Forall has_name existing_groups ->
      exists built,
        service_groups existing_groups = Ok built /\
        map name_of built =
          map JStr (filter (fun s => Icons.nonempty (bucket s existing_groups))
                           (Dict.keys SERVICE_GROUPS)) ++
          (if Icons.nonempty (bucket OTHER_SERVICES existing_groups)
           then [JStr OTHER_SERVICES] else [])).
Proof.
  split; [|split].
  - intros s. apply classify_first.
  - intros n H. now apply classify_non_string.
  - intros gs H. eexists. split; [now apply service_groups_spec|].
    rewrite names_of_buckets. unfold BUCKETS.
    rewrite filter_app, map_app. f_equal.
    cbn [filter]. destruct (Icons.nonempty _); reflexivity.
Qed.

Lemma service_groups_permutation gs :
  Permutation (flat_map (fun s => bucket s gs) BUCKETS) gs.
Proof.
  apply (@partition_permutation _ service_of BUCKETS gs buckets_nodup).
  intros g _. apply classify_known.
Qed.

(** C4: the groups that the two tree builders emit hold every item of the
    input exactly once, each group holding its items in the order of the
    input.  For [categorize_endpoints] the group of a category is the
    sub-sequence of the pages of that category; for the service builder,
    on category groups that have names, the group of a bucket is the
    sub-sequence of the category groups of that bucket. *)
Theorem builders_partition_stably :
  (forall pages : list text,
      Permutation (concat (map snd (Icons.categorize_endpoints pages))) pages /\
      forall k ps, In (k, ps) (Icons.categorize_endpoints pages) ->
                   ps = action_bucket k pages) /\
  (forall existing_groups,
      Forall has_name existing_groups ->
      exists built,
        service_groups existing_groups = Ok built /\
        Permutation (concat (map pages_of built)) existing_groups /\
        forall g, In g built ->
                  exists s, name_of g = JStr s /\
                            pages_of g = bucket s existing_groups).
Proof.
  split.
  - intros pages. split; [apply categorize_endpoints_permutation|].
    intros k ps H. now apply categorize_endpoints_buckets in H.
  - intros gs H. eexists. split; [now apply service_groups_spec|]. split.
    + rewrite pages_of_buckets. apply service_groups_permutation.
    + intros g Hg. apply built_groups_are_buckets in Hg as [s [_ [Hn [Hp _]]]].
      now exists s.
Qed.

End ServiceFacts.

(** ** The accordion threshold *)

Section AccordionFacts.

Import Accordion NavSpec.

Lemma mapM_as_str leaves :
  Py.mapM Py.as_str (map JStr leaves) = Ok leaves.
Proof.
  induction leaves as [|p leaves IH]; [reflexivity|].
  cbn [map Py.mapM Py.as_str Py.bind]. now rewrite IH.
Qed.

Lemma accordion_group_small g name pages :
  listed_group g name pages ->
  length pages <= 10 ->
  accordion_group g = Ok g.
Proof.
  intros [Hn Hp] Hl. unfold accordion_group.
  rewrite Hn, Hp. cbn [Py.bind Py.len].
  apply Nat.ltb_ge in Hl. now rewrite Hl.
Qed.

Lemma accordion_group_large g name leaves :
  listed_group g name (map JStr leaves) ->
  11 <= length leaves ->
  accordion_group g =
  Ok (group_of name (map sub_group (Icons.categorize_endpoints leaves))).
Proof.
  intros [Hn Hp] Hl. unfold accordion_group.
  rewrite Hn, Hp. cbn [Py.bind Py.len Py.iter]. rewrite length_map.
  assert (Hb : (10 <? length leaves) = true) by (apply Nat.ltb_lt; lia).
  rewrite Hb, mapM_as_str. reflexivity.
Qed.

Lemma map_JStr_inj leaves leaves' :
  map JStr leaves = map JStr leaves' -> leaves = leaves'.
Proof.
  revert leaves'. induction leaves as [|a l IH]; intros [|b l'] E;
    try discriminate; [reflexivity|].
  injection E as -> E. f_equal. now apply IH.
Qed.

(** Every action category has one bucket at most. *)
Lemma categorize_endpoints_keys leaves :
  NoDup (map fst (Icons.categorize_endpoints leaves)).
Proof.
  rewrite categorize_endpoints_spec.
  pose proof action_categories_nodup as ND.
  induction Icons.ACTION_CATEGORIES as [|c cs IH]; [constructor|].
  inversion ND as [|? ? Hn ND']; subst.
  cbn [map filter snd].
  destruct (Icons.nonempty (action_bucket c leaves)); [|now apply IH].
  cbn [map fst]. constructor; [|now apply IH].
  intros Hin. apply Hn. apply in_map_iff in Hin as [[k ps] [<- Hin]].
  apply filter_In in Hin as [Hin _].
  apply in_map_iff in Hin as [c' [E Hc']]. injection E as <- _. exact Hc'.
Qed.

Lemma accordion_group_spec g :
  regroupable g ->
  exists g', accordion_group g = Ok g' /\ regrouped_as g g'.
Proof.
  intros [name [pages [H Hs]]].
  destruct (Nat.le_gt_cases (length pages) 10) as [Hle|Hgt].
  - exists g. split; [now apply (accordion_group_small H)|].
    intros name' pages' [Hn' Hp']. destruct H as [Hn Hp].
    rewrite Hp in Hp'. injection Hp' as <-.
    split; [reflexivity | lia].
  - destruct (Hs Hgt) as [leaves ->]. rewrite length_map in Hgt.
    eexists. split; [now apply (@accordion_group_large _ _ _ H)|].
    intros name' pages' [Hn' Hp']. destruct H as [Hn Hp].
    rewrite Hn in Hn'. injection Hn' as <-.
    rewrite Hp in Hp'. injection Hp' as <-.
    rewrite length_map. split; [lia|]. intros _ leaves' E.
    apply map_JStr_inj in E as <-.
    exists (Icons.categorize_endpoints leaves). split; [reflexivity|].
    split; [apply categorize_endpoints_keys|].
    split; [apply categorize_endpoints_buckets|].
    apply categorize_endpoints_count.
Qed.

Lemma accordion_mapM gs :
  Forall regroupable gs ->
  exists gs', Py.mapM accordion_group gs = Ok gs' /\ Forall2 regrouped_as gs gs'.
Proof.
  induction 1 as [|g gs Hg _ [gs' [E F]]].
  - exists []. split; [reflexivity | constructor].
  - destruct (accordion_group_spec Hg) as [g' [Eg Rg]].
    exists (g' :: gs'). split.
    + cbn [Py.mapM]. rewrite Eg. cbn [Py.bind]. now rewrite E.
    + now constructor.
Qed.

End AccordionFacts.

(** ** Reading back what was dumped *)

Section JsonFacts.

Import Json JsonSpec.

(** Induction on JSON values, with the hypothesis for every item of a list
    and every value of a dictionary. *)
Lemma json_induction (P : json -> Prop) :
  P JNull ->
  (forall b, P (JBool b)) ->
  (forall n, P (JNum n)) ->
  (forall s, P (JStr s)) ->
  (forall items, Forall P items -> P (JArr items)) ->
  (forall members, Forall (fun kv => P (snd kv)) members -> P (JObj members)) ->
  forall v, P v.
Proof.
  intros Hnull Hbool Hnum Hstr Harr Hobj.
  fix IH 1. intros [| b | n | s | items | members].
  - exact Hnull.
  - apply Hbool.
  - apply Hnum.
  - apply Hstr.
  - apply Harr. induction items as [|x items IHl]; constructor.
    + apply IH.
    + exact IHl.
  - apply Hobj. induction members as [|[k x] members IHl]; constructor.
    + apply IH.
    + exact IHl.
Qed.

Lemma scanstring_escape c rest :
  scanstring (escape_char c ++ rest) = cons_char c (scanstring rest).
Proof.
  destruct c as [[|] [|] [|] [|] [|] [|] [|] [|]]; reflexivity.
Qed.

Lemma scanstring_dump s rest :
  scanstring (flat_map escape_char s ++ "034"%char :: rest) = Some (s, rest).
Proof.
  induction s as [|c s IH]; [reflexivity|].
  cbn [flat_map]. rewrite <- app_assoc, scanstring_escape, IH. reflexivity.
Qed.

Lemma skip_ws_spaces n s : skip_ws (spaces n ++ s) = skip_ws s.
Proof. induction n as [|n IH]; [reflexivity | exact IH]. Qed.

Lemma skip_ws_token s : starts_token s = true -> skip_ws s = s.
Proof.
  destruct s as [|c s]; [discriminate|]. cbn.
  destruct (is_ws c); [discriminate | reflexivity].
Qed.

Lemma skip_ws_space s : skip_ws (" "%char :: s) = skip_ws s.
Proof. reflexivity. Qed.

Lemma skip_ws_newline_indent level s :
  starts_token s = true -> skip_ws (newline_indent level ++ s) = s.
Proof.
  intros H. unfold newline_indent. rewrite <- app_assoc. cbn [nl app skip_ws].
  change (is_ws "010") with true. cbv iota.
  rewrite skip_ws_spaces. now apply skip_ws_token.
Qed.


Lemma span_digits_dump u rest :
  match rest with [] => true | c :: _ => negb (Text.is_digit c) end = true ->
  span_digits (digits_of_uint u ++ rest) = (digits_of_uint u, rest).
Proof.
  intros H. induction u; cbn [digits_of_uint app span_digits];
    try (change (Text.is_digit _) with true; cbv iota; now rewrite IHu).
  destruct rest as [|c rest]; [reflexivity|]. cbn [span_digits].
  apply negb_true_iff in H. now rewrite H.
Qed.

Lemma uint_of_digits_dump u : uint_of_digits (digits_of_uint u) = u.
Proof. induction u; cbn; now rewrite ?IHu. Qed.

Lemma delimited_ends_number rest :
  delimited rest = true ->
  float_follows rest = false /\
  match rest with [] => true | c :: _ => negb (Text.is_digit c) end = true.
Proof.
  destruct rest as [|c rest]; [now split|]. cbn [delimited]. intros H.
  apply orb_true_iff in H as [H|H]; apply ascii_eqb_eq in H; subst c;
    split; try reflexivity; now destruct rest.
Qed.

Lemma to_uint_no_leading_zero p d : Pos.to_uint p <> Decimal.D0 d.
Proof.
  intros E.
  assert (U : Decimal.unorm (Pos.to_uint p) = Pos.to_uint p).
  { rewrite <- (DecimalPos.Unsigned.to_of (Pos.to_uint p)).
    now rewrite DecimalPos.Unsigned.of_to. }
  unfold Decimal.unorm in U.
  destruct (Decimal.nzhead (Pos.to_uint p)) eqn:N;
    try (rewrite <- U in E; discriminate).
  - symmetry in U. now apply DecimalPos.Unsigned.to_uint_nonzero in U.
  - now apply DecimalFacts.nzhead_nonzero in N.
Qed.

Lemma scan_unsigned_dump p rest :
  delimited rest = true ->
  scan_unsigned (digits_of_uint (Pos.to_uint p) ++ rest) = Some (Z.pos p, rest).
Proof.
  intros H. destruct (delimited_ends_number rest H) as [Hf Hd].
  assert (V : Z.of_uint (Pos.to_uint p) = Z.pos p).
  { unfold Z.of_uint. now rewrite DecimalPos.Unsigned.of_to. }
  pose proof (span_digits_dump (Pos.to_uint p) rest Hd) as Hs.
  pose proof (uint_of_digits_dump (Pos.to_uint p)) as Hu.
  destruct (Pos.to_uint p) as [|u|u|u|u|u|u|u|u|u|u] eqn:E;
    [ now apply DecimalPos.Unsigned.to_uint_nonnil in E
    | now apply to_uint_no_leading_zero in E
    | .. ];
    unfold scan_unsigned; cbn [digits_of_uint app] in *;
    match goal with
    | |- context [Text.ascii_eqb ?c "0"] =>
        change (Text.ascii_eqb c "0") with false;
        change (Text.is_digit c) with true
    end;
    cbv iota; rewrite Hs, Hf, Hu, V; reflexivity.
Qed.

Lemma dump_int_head n :
  exists c s, dump_int n = c :: s /\
              (Text.is_digit c = true \/ c = "-"%char).
Proof.
  destruct n as [|p|p]; unfold dump_int; cbn [Z.to_int].
  - eexists _, _. split; [reflexivity | now left].
  - destruct (Pos.to_uint p) eqn:E; cbn [digits_of_uint];
      try (eexists _, _; split; [reflexivity | now left]).
    now apply DecimalPos.Unsigned.to_uint_nonnil in E.
  - eexists _, _. split; [reflexivity | now right].
Qed.

Lemma scan_number_dump n rest :
  delimited rest = true ->
  scan_number (dump_int n ++ rest) = Some (n, rest).
Proof.
  intros H. destruct n as [|p|p]; unfold dump_int; cbn [Z.to_int].
  - cbn. destruct (delimited_ends_number rest H) as [Hf _]. now rewrite Hf.
  - pose proof (scan_unsigned_dump p rest H) as Hs.
    destruct (dump_int_head (Z.pos p)) as [c [s [E [D|D]]]];
      unfold dump_int in E; cbn [Z.to_int] in E; rewrite E in *.
    + cbn [app scan_number].
      assert (N : Text.ascii_eqb c "-" = false).
      { destruct (Text.ascii_eqb c "-") eqn:Q; [|reflexivity].
        apply ascii_eqb_eq in Q. subst c. discriminate. }
      rewrite N. exact Hs.
    + subst c. exfalso. clear - E.
      destruct (Pos.to_uint p); discriminate.
  - cbn [app scan_number]. change (Text.ascii_eqb "-" "-") with true. cbv iota.
    now rewrite (scan_unsigned_dump p rest H).
Qed.

Lemma scan_value_numeric fuel c s :
  Text.is_digit c = true \/ c = "-"%char ->
  scan_value (S fuel) (c :: s) =
  match scan_number (c :: s) with
  | Some (n, r) => Some (JNum n, r)
  | None => None
  end.
Proof.
  destruct c as [[|] [|] [|] [|] [|] [|] [|] [|]];
    intros [H|H]; try discriminate H; reflexivity.
Qed.

Lemma scan_value_number fuel n rest :
  delimited rest = true ->
  scan_value (S fuel) (dump_int n ++ rest) = Some (JNum n, rest).
Proof.
  intros H. pose proof (scan_number_dump n rest H) as Hn.
  destruct (dump_int_head n) as [c [s [E D]]]. rewrite E in *.
  cbn [app] in *. now rewrite (@scan_value_numeric fuel c (s ++ rest) D), Hn.
Qed.


Lemma dict_set_fresh {A} k (v : A) d :
  ~ In k (map fst d) -> Dict.set k v d = d ++ [(k, v)].
Proof.
  induction d as [|[k' v'] d IH]; intros H; [reflexivity|].
  cbn [Dict.set]. destruct (Text.eqb k k') eqn:E.
  - apply text_eqb_eq in E. subst k'. exfalso. apply H. now left.
  - cbn [app]. f_equal. apply IH. intros Hin. apply H. now right.
Qed.

Lemma of_pairs_distinct {A} (m : list (text * A)) :
  NoDup (map fst m) -> Dict.of_pairs m = m.
Proof.
  unfold Dict.of_pairs.
  assert (G : forall acc,
             NoDup (map fst (acc ++ m)) ->
             fold_left (fun d kv => Dict.set (fst kv) (snd kv) d) m acc = acc ++ m).
  { induction m as [|[k v] m IH]; intros acc ND.
    - cbn. now rewrite app_nil_r.
    - cbn [fold_left fst snd]. rewrite dict_set_fresh.
      + rewrite IH; rewrite <- app_assoc; [reflexivity | exact ND].
      + rewrite map_app in ND. cbn [map fst] in ND.
        apply NoDup_remove_2 in ND. intros Hin. apply ND.
        apply in_or_app. now left. }
  intros ND. now apply (G []).
Qed.

(** The dump of a non-empty list and of a non-empty dictionary, with the
    items after the first as a concatenation. *)
Lemma dump_at_list level x xs :
  dump_at level (JArr (x :: xs)) =
  txt "[" ++ newline_indent (S level) ++ dump_at (S level) x ++
  flat_map (fun y => txt "," ++ newline_indent (S level) ++ dump_at (S level) y) xs ++
  newline_indent level ++ txt "]".
Proof.
  cbn [dump_at]. do 3 f_equal. f_equal.
  induction xs as [|y xs IH]; [reflexivity|].
  cbn [flat_map]. rewrite IH. now rewrite <- !app_assoc.
Qed.

Lemma dump_at_dict level k x kvs :
  dump_at level (JObj ((k, x) :: kvs)) =
  txt "{" ++ newline_indent (S level) ++
  dump_string k ++ txt ": " ++ dump_at (S level) x ++
  flat_map (fun kv => txt "," ++ newline_indent (S level) ++
                      dump_string (fst kv) ++ txt ": " ++
                      dump_at (S level) (snd kv)) kvs ++
  newline_indent level ++ txt "}".
Proof.
  cbn [dump_at]. do 5 f_equal. f_equal.
  induction kvs as [|[k' y] kvs IH]; [reflexivity|].
  cbn [flat_map fst snd]. rewrite IH. now rewrite <- !app_assoc.
Qed.

Lemma starts_token_dump level v rest :
  starts_token (dump_at level v ++ rest) = true.
Proof.
  destruct v as [|[|]|n|s|[|x xs]|[|[k x] kvs]]; try reflexivity.
  cbn [dump_at]. destruct (dump_int_head n) as [c [s [E [D|D]]]]; rewrite E.
  - cbn. destruct c as [[|] [|] [|] [|] [|] [|] [|] [|]];
      try discriminate D; reflexivity.
  - now subst c.
Qed.


Ltac sum_lia :=
  cbn [map snd] in *; unfold list_sum in *; cbn [fold_right] in *; lia.

Lemma delimited_comma s : delimited (txt "," ++ s) = true.
Proof. reflexivity. Qed.

Lemma delimited_newline level s : delimited (newline_indent level ++ s) = true.
Proof. reflexivity. Qed.

Lemma starts_token_string k s : starts_token (dump_string k ++ s) = true.
Proof. reflexivity. Qed.

(** One item of a list: the value, then what follows it decides. *)
Lemma scan_items_step fuel x level tail :
  scans_back x -> size x <= fuel -> delimited tail = true ->
  scan_items (S fuel) (dump_at level x ++ tail) =
  match skip_ws tail with
  | c :: r1 =>
      if Text.ascii_eqb c "]" then Some ([x], r1)
      else if Text.ascii_eqb c "," then
        match scan_items fuel (skip_ws r1) with
        | Some (vs, r2) => Some (x :: vs, r2)
        | None => None
        end
      else None
  | [] => None
  end.
Proof.
  intros Hx Hs Hd. cbn [scan_items]. now rewrite Hx.
Qed.

(** One member of a dictionary: the key, the colon, the value, then what
    follows decides. *)
Lemma scan_members_step fuel k x level tail :
  scans_back x -> size x <= fuel -> delimited tail = true ->
  scan_members (S fuel)
    (dump_string k ++ txt ": " ++ dump_at level x ++ tail) =
  match skip_ws tail with
  | e :: r3 =>
      if Text.ascii_eqb e "}" then Some ([(k, x)], r3)
      else if Text.ascii_eqb e "," then
        match scan_members fuel (skip_ws r3) with
        | Some (kvs, r4) => Some ((k, x) :: kvs, r4)
        | None => None
        end
      else None
  | [] => None
  end.
Proof.
  intros Hx Hs Hd. unfold dump_string. rewrite <- !app_assoc.
  cbn [scan_members dq app].
  change (Text.ascii_eqb "034" "034") with true. cbv iota.
  rewrite scanstring_dump. cbn [txt list_ascii_of_string app].
  rewrite (skip_ws_token (":"%char :: _)) by reflexivity.
  change (Text.ascii_eqb ":" ":") with true. cbv iota.
  rewrite skip_ws_space, skip_ws_token by apply starts_token_dump.
  now rewrite Hx.
Qed.

Lemma scan_items_dump level rest xs :
  forall x fuel,
    Forall scans_back (x :: xs) ->
    list_sum (map (fun y => S (size y)) (x :: xs)) <= fuel ->
    scan_items fuel
      (dump_at (S level) x ++
       flat_map (fun y => txt "," ++ newline_indent (S level) ++ dump_at (S level) y) xs ++
       newline_indent level ++ txt "]" ++ rest)
    = Some (x :: xs, rest).
Proof.
  induction xs as [|y ys IH]; intros x fuel F Hf;
    inversion F as [|? ? Hx F']; subst;
    (destruct fuel as [|fuel]; [sum_lia|]).
  - cbn [flat_map app].
    rewrite scan_items_step; [|exact Hx | sum_lia | apply delimited_newline].
    rewrite skip_ws_newline_indent by reflexivity. reflexivity.
  - cbn [flat_map]. rewrite <- !app_assoc.
    rewrite scan_items_step; [|exact Hx | sum_lia | apply delimited_comma].
    cbn [txt list_ascii_of_string app].
    rewrite (skip_ws_token (","%char :: _)) by reflexivity.
    change (Text.ascii_eqb "," "]") with false.
    change (Text.ascii_eqb "," ",") with true. cbv iota.
    rewrite skip_ws_newline_indent by apply starts_token_dump.
    assert (Hy : list_sum (map (fun y => S (size y)) (y :: ys)) <= fuel)
      by sum_lia.
    pose proof (IH y fuel F' Hy) as IH'.
    cbn [txt list_ascii_of_string app] in IH'. now rewrite IH'.
Qed.

Lemma scan_members_dump level rest kvs :
  forall k x fuel,
    Forall (fun kv => scans_back (snd kv)) ((k, x) :: kvs) ->
    list_sum (map (fun kv => S (size (snd kv))) ((k, x) :: kvs)) <= fuel ->
    scan_members fuel
      (dump_string k ++ txt ": " ++ dump_at (S level) x ++
       flat_map (fun kv => txt "," ++ newline_indent (S level) ++
                           dump_string (fst kv) ++ txt ": " ++
                           dump_at (S level) (snd kv)) kvs ++
       newline_indent level ++ txt "}" ++ rest)
    = Some ((k, x) :: kvs, rest).
Proof.
  induction kvs as [|[k' y] kvs IH]; intros k x fuel F Hf;
    inversion F as [|? ? Hx F']; subst; cbn [snd] in Hx;
    (destruct fuel as [|fuel]; [sum_lia|]).
  - cbn [flat_map app].
    rewrite scan_members_step; [|exact Hx | sum_lia | apply delimited_newline].
    rewrite skip_ws_newline_indent by reflexivity. reflexivity.
  - cbn [flat_map fst snd]. rewrite <- !app_assoc.
    rewrite scan_members_step; [|exact Hx | sum_lia | apply delimited_comma].
    change (txt "," ++ ?s) with (","%char :: s).
    rewrite (skip_ws_token (","%char :: _)) by reflexivity.
    change (Text.ascii_eqb "," "}") with false.
    change (Text.ascii_eqb "," ",") with true. cbv iota.
    rewrite skip_ws_newline_indent by apply starts_token_string.
    assert (Hy : list_sum (map (fun kv => S (size (snd kv))) ((k', y) :: kvs)) <= fuel)
      by sum_lia.
    now rewrite (IH k' y fuel F' Hy).
Qed.


(** A dump does not start with a closing bracket. *)
Lemma dump_at_head level v rest d s :
  dump_at level v ++ rest = d :: s -> Text.ascii_eqb d "]" = false.
Proof.
  destruct v as [|b|n|t|l|m]; cbn [dump_at].
  - intros E. injection E as <- _. reflexivity.
  - destruct b; intros E; injection E as <- _; reflexivity.
  - destruct (dump_int_head n) as [c [s' [En D]]]. rewrite En.
    intros E. injection E as <- _.
    destruct D as [D|D]; [|now subst c].
    destruct c as [[|] [|] [|] [|] [|] [|] [|] [|]];
      try discriminate D; reflexivity.
  - intros E. injection E as <- _. reflexivity.
  - destruct l; intros E; injection E as <- _; reflexivity.
  - destruct m as [|[k y] kvs]; intros E; injection E as <- _; reflexivity.
Qed.

Lemma forallb_Forall {A} (f : A -> bool) (P : A -> Prop) l :
  Forall (fun a => f a = true -> P a) l -> forallb f l = true -> Forall P l.
Proof.
  induction 1 as [|a l Ha _ IH]; intros H; [constructor|].
  cbn in H. apply andb_true_iff in H as [H1 H2].
  constructor; [now apply Ha | now apply IH].
Qed.

(** Every value with distinct keys is scanned back from its dump. *)
Lemma scan_value_dump v : wfb v = true -> scans_back v.
Proof.
  induction v as [| b | n | s | items IH | members IH] using json_induction;
    intros W level fuel rest Hf Hd;
    (destruct fuel as [|fuel]; [cbn in Hf; lia|]).
  - reflexivity.
  - destruct b; reflexivity.
  - cbn [dump_at]. now apply scan_value_number.
  - cbn [dump_at]. unfold dump_string. rewrite <- !app_assoc.
    cbn [dq app scan_value].
    change (Text.ascii_eqb "034" "034") with true. cbv iota.
    now rewrite scanstring_dump.
  - destruct items as [|x xs]; [reflexivity|].
    cbn [wfb] in W. pose proof (@forallb_Forall _ wfb scans_back _ IH W) as F.
    rewrite dump_at_list, <- !app_assoc.
    cbn [txt list_ascii_of_string app scan_value].
    change (Text.ascii_eqb "[" "034") with false.
    change (Text.ascii_eqb "[" "{") with false.
    change (Text.ascii_eqb "[" "[") with true. cbv iota.
    rewrite skip_ws_newline_indent by apply starts_token_dump.
    pose proof (starts_token_dump (S level) x
                  (flat_map (fun y => ","%char :: newline_indent (S level) ++ dump_at (S level) y) xs ++
                   newline_indent level ++ "]"%char :: rest)) as T.
    pose proof (@scan_items_dump level rest xs x fuel F) as HS.
    cbn [txt list_ascii_of_string app] in HS.
    destruct (dump_at (S level) x ++ _) as [|d s2] eqn:E; [discriminate T|].
    pose proof (dump_at_head _ _ _ E) as N.
    rewrite N, HS; [reflexivity|].
    cbn [size] in Hf. lia.
  - destruct members as [|[k x] kvs]; [reflexivity|].
    cbn [wfb] in W. apply andb_true_iff in W as [ND W].
    assert (F : Forall (fun kv => scans_back (snd kv)) ((k, x) :: kvs)).
    { revert W. clear - IH. induction IH as [|kv l Ha _ IHl]; intros W;
        [constructor|].
      cbn in W. apply andb_true_iff in W as [W1 W2].
      constructor; [now apply Ha | now apply IHl]. }
    rewrite dump_at_dict, <- !app_assoc.
    cbn [txt list_ascii_of_string app scan_value].
    change (Text.ascii_eqb "{" "034") with false.
    change (Text.ascii_eqb "{" "{") with true. cbv iota.
    rewrite skip_ws_newline_indent by apply starts_token_string.
    pose proof (@scan_members_dump level rest kvs k x fuel F) as HS.
    unfold dump_string in HS |- *. rewrite <- !app_assoc in HS |- *.
    cbn [txt list_ascii_of_string app dq] in HS |- *.
    change (Text.ascii_eqb "034" "}") with false. cbv iota.
    rewrite HS; [|cbn [size] in Hf; lia].
    rewrite of_pairs_distinct; [reflexivity | now apply nodupb_sound].
Qed.


Ltac text_lengths :=
  change (length (txt ",")) with 1;
  change (length (txt "[")) with 1; change (length (txt "]")) with 1;
  change (length (txt "{")) with 1; change (length (txt "}")) with 1;
  change (length (txt ": ")) with 2.

Lemma length_newline_indent level : 1 <= length (newline_indent level).
Proof. unfold newline_indent. rewrite length_app. cbn. lia. Qed.

Lemma size_le_length v : forall level, size v <= length (dump_at level v).
Proof.
  induction v as [| b | n | s | items IH | members IH] using json_induction;
    intros level.
  - cbn. lia.
  - destruct b; cbn; lia.
  - cbn [dump_at size]. destruct (dump_int_head n) as [c [s [E _]]].
    rewrite E. cbn. lia.
  - cbn [dump_at size]. unfold dump_string. rewrite !length_app. cbn. lia.
  - destruct items as [|x xs]; [cbn; lia|].
    rewrite dump_at_list. cbn [size map]. rewrite !length_app.
    inversion IH as [|? ? Hx Hxs]; subst.
    pose proof (Hx (S level)) as Lx.
    pose proof (length_newline_indent (S level)) as L1.
    pose proof (length_newline_indent level) as L2.
    assert (Ls : list_sum (map (fun y => S (size y)) xs) <=
                 length (flat_map (fun y => txt "," ++ newline_indent (S level) ++
                                            dump_at (S level) y) xs)).
    { clear - Hxs. induction Hxs as [|y ys Hy _ IHl]; [cbn; lia|].
      cbn [map flat_map]. rewrite !length_app.
      pose proof (Hy (S level)). pose proof (length_newline_indent (S level)).
      unfold list_sum in *. cbn [fold_right]. text_lengths. lia. }
    unfold list_sum in *. cbn [fold_right]. text_lengths. lia.
  - destruct members as [|[k x] kvs]; [cbn; lia|].
    rewrite dump_at_dict. cbn [size map snd]. rewrite !length_app.
    inversion IH as [|? ? Hx Hxs]; subst. cbn [snd] in Hx.
    pose proof (Hx (S level)) as Lx.
    pose proof (length_newline_indent (S level)) as L1.
    pose proof (length_newline_indent level) as L2.
    assert (Ls : list_sum (map (fun kv => S (size (snd kv))) kvs) <=
                 length (flat_map (fun kv => txt "," ++ newline_indent (S level) ++
                                             dump_string (fst kv) ++ txt ": " ++
                                             dump_at (S level) (snd kv)) kvs)).
    { clear - Hxs. induction Hxs as [|[k' y] ys Hy _ IHl]; [cbn; lia|].
      cbn [map flat_map fst snd]. rewrite !length_app. cbn [snd] in Hy.
      pose proof (Hy (S level)). pose proof (length_newline_indent (S level)).
      unfold list_sum in *. cbn [fold_right]. text_lengths. lia. }
    unfold list_sum in *. cbn [fold_right]. text_lengths. lia.
Qed.

(** Reading back a dump gives the value that was dumped. *)
Lemma load_dump v : wfb v = true -> load (dump v) = Some v.
Proof.
  intros W. unfold load, dump.
  pose proof (starts_token_dump 0 v []) as T. rewrite app_nil_r in T.
  rewrite (skip_ws_token _ T).
  pose proof (@scan_value_dump v W 0 (S (length (dump_at 0 v))) []) as HS.
  rewrite app_nil_r in HS. rewrite HS; [reflexivity | | reflexivity].
  pose proof (size_le_length v 0). lia.
Qed.


Lemma nodupb_complete l : NoDup l -> NavSpec.nodupb l = true.
Proof.
  induction 1 as [|x l Hx _ IH]; [reflexivity|].
  cbn. rewrite IH, andb_true_r. apply negb_true_iff.
  destruct (existsb (Text.eqb x) l) eqn:E; [|reflexivity].
  apply existsb_exists in E as [y [Hy Q]]. apply text_eqb_eq in Q.
  subst y. contradiction.
Qed.

Lemma dict_set_keys {A} k (v : A) d x :
  In x (map fst (Dict.set k v d)) -> x = k \/ In x (map fst d).
Proof.
  induction d as [|[k' v'] d IH]; cbn [Dict.set].
  - intros [<-|[]]. now left.
  - destruct (Text.eqb k k'); cbn [map fst].
    + intros [<-|H]; right; [now left | now right].
    + intros [<-|H]; [right; now left|].
      destruct (IH H) as [->|H']; [now left | right; now right].
Qed.

Lemma dict_set_nodup {A} k (v : A) d :
  NoDup (map fst d) -> NoDup (map fst (Dict.set k v d)).
Proof.
  induction d as [|[k' v'] d IH]; intros ND; cbn [Dict.set].
  - cbn. constructor; [intros [] | constructor].
  - inversion ND as [|? ? Hn ND']; subst.
    destruct (Text.eqb k k') eqn:E; cbn [map fst].
    + now constructor.
    + constructor; [|now apply IH].
      intros H. apply dict_set_keys in H as [->|H]; [|contradiction].
      now rewrite text_eqb_refl in E.
Qed.

Lemma dict_set_forallb {A} (f : A -> bool) k v d :
  f v = true ->
  forallb (fun kv => f (snd kv)) d = true ->
  forallb (fun kv => f (snd kv)) (Dict.set k v d) = true.
Proof.
  intros Hv. induction d as [|[k' v'] d IH]; intros H; cbn [Dict.set].
  - cbn. now rewrite Hv.
  - cbn in H. apply andb_true_iff in H as [H1 H2].
    destruct (Text.eqb k k'); cbn; [now rewrite Hv, H2 | now rewrite H1, IH].
Qed.

Lemma of_pairs_wf pairs :
  forallb (fun kv => wfb (snd kv)) pairs = true ->
  wfb (JObj (Dict.of_pairs pairs)) = true.
Proof.
  unfold Dict.of_pairs.
  assert (G : forall acc,
             NoDup (map fst acc) ->
             forallb (fun kv => wfb (snd kv)) acc = true ->
             forallb (fun kv => wfb (snd kv)) pairs = true ->
             wfb (JObj (fold_left (fun d kv => Dict.set (fst kv) (snd kv) d)
                                  pairs acc)) = true).
  { induction pairs as [|[k v] pairs IH]; intros acc ND Fa Fp.
    - cbn [fold_left wfb]. now rewrite (nodupb_complete ND), Fa.
    - cbn in Fp. apply andb_true_iff in Fp as [Fv Fp].
      cbn [fold_left fst snd]. apply IH.
      + now apply dict_set_nodup.
      + now apply dict_set_forallb.
      + exact Fp. }
  intros H. apply G; [constructor | reflexivity | exact H].
Qed.

Ltac break_scan H :=
  repeat match type of H with
         | context [match ?x with _ => _ end] =>
             destruct x eqn:?; try discriminate H
         end.

(** Every value that the scanner returns has distinct keys. *)
Lemma scan_wf fuel :
  (forall s v r, scan_value fuel s = Some (v, r) -> wfb v = true) /\
  (forall s vs r, scan_items fuel s = Some (vs, r) -> forallb wfb vs = true) /\
  (forall s kvs r, scan_members fuel s = Some (kvs, r) ->
                   forallb (fun kv => wfb (snd kv)) kvs = true).
Proof.
  induction fuel as [|fuel [IHv [IHi IHm]]].
  - repeat split; intros; discriminate.
  - repeat split.
    + intros s v r H. cbn [scan_value] in H.
      break_scan H; injection H as <- <-; try reflexivity.
      * eapply of_pairs_wf, IHm. eassumption.
      * cbn [wfb]. eapply IHi. eassumption.
    + intros s vs r H. cbn [scan_items] in H.
      break_scan H; injection H as <- <-; cbn [forallb].
      * erewrite IHv by eassumption. reflexivity.
      * erewrite IHv by eassumption. erewrite IHi by eassumption. reflexivity.
    + intros s kvs r H. cbn [scan_members] in H.
      break_scan H; injection H as <- <-; cbn [forallb snd].
      * erewrite IHv by eassumption. reflexivity.
      * erewrite IHv by eassumption. erewrite IHm by eassumption. reflexivity.
Qed.

Lemma load_wf c v : load c = Some v -> wfb v = true.
Proof.
  unfold load. intros H.
  destruct (scan_value (S (length c)) (skip_ws c)) as [[v' r]|] eqn:E;
    [|discriminate].
  destruct (skip_ws r); [|discriminate]. injection H as <-.
  now apply (proj1 (scan_wf _) _ _ _ E).
Qed.

(** The dump of a document that was read is read back as that document. *)
Lemma load_dump_load c v : load c = Some v -> load (dump v) = Some v.
Proof. intros H. apply load_dump. now apply (load_wf c). Qed.

End JsonFacts.

(** ** The runs of the three merge scripts *)

Section RunFacts.

Import Script RunSpec.

Lemma bind_print m {B} (k : unit -> M B) w :
  bind (print m) k w = k tt (say [m] w).
Proof. reflexivity. Qed.

Lemma bind_load p c v {B} (k : json -> M B) w :
  read p (fs w) = Some c -> Json.load c = Some v ->
  bind (load_json p) k w = k v w.
Proof. intros Hr Hl. unfold bind, load_json. now rewrite Hr, Hl. Qed.

Lemma bind_load_missing p {B} (k : json -> M B) w :
  read p (fs w) = None ->
  bind (load_json p) k w = (Raise FileNotFoundError, w).
Proof. intros Hr. unfold bind, load_json. now rewrite Hr. Qed.

Lemma bind_load_malformed p c {B} (k : json -> M B) w :
  read p (fs w) = Some c -> Json.load c = None ->
  bind (load_json p) k w = (Raise JSONDecodeError, w).
Proof. intros Hr Hl. unfold bind, load_json. now rewrite Hr, Hl. Qed.

Lemma bind_dump p v {B} (k : unit -> M B) w :
  bind (dump_json p v) k w =
  k tt {| fs := write p (Json.dump v) (fs w); console := console w |}.
Proof. reflexivity. Qed.

Lemma bind_lift {A B} (r : result A) (k : A -> M B) w :
  bind (lift r) k w =
  match r with Ok a => k a w | Raise e => (Raise e, w) end.
Proof. unfold bind, lift. now destruct r. Qed.

Lemma say_say a b w : say b (say a w) = say (a ++ b) w.
Proof. unfold say. cbn [fs console]. now rewrite <- app_assoc. Qed.

(** The run of [create_accordion_navigation] on a parsed document. *)
Lemma accordion_run w c docs_data :
  docs_json (fs w) = Some c ->
  Json.load c = Some docs_data ->
  Accordion.create_accordion_navigation w =
  let w1 := backed_up docs_data (say [Started] w) in
  match Nav.locate_tab docs_data with
  | Raise e => (Raise e, w1)
  | Ok None => (Ok tt, say [TabNotFound] w1)
  | Ok (Some (i, api_tab)) =>
      match accordion_groups api_tab with
      | Raise e => (Raise e, w1)
      | Ok new_groups =>
          (Ok tt,
           say [UpdatedDocs; StructureHeader; TotalGroups (length new_groups);
                Accordions (length (filter Accordion.has_accordion new_groups))]
               (persisted (Nav.assign_groups i (JArr new_groups) docs_data) w1))
      end
  end.
Proof.
  intros Hd Hl. unfold Accordion.create_accordion_navigation.
  rewrite bind_print, (@bind_load DOCS_JSON c docs_data) by assumption.
  rewrite bind_dump, bind_print, bind_lift. cbv zeta.
  destruct (Nav.locate_tab docs_data) as [[[i api_tab]|]|e]; try reflexivity.
  unfold accordion_groups. rewrite bind_lift.
  destruct (Py.getitem api_tab (txt "groups")) as [groups|e]; [|reflexivity].
  cbn [Py.bind]. rewrite bind_lift.
  destruct (Py.slice_from1 groups) as [rest|e]; [|reflexivity].
  cbn [Py.bind]. rewrite bind_lift.
  destruct (Py.iter rest) as [items|e]; [|reflexivity].
  cbn [Py.bind]. rewrite bind_lift.
  destruct (Py.mapM Accordion.accordion_group items) as [regrouped|e];
    [|reflexivity].
  cbn [Py.bind]. rewrite bind_dump, !bind_print.
  unfold print, say, persisted, backed_up. cbn [fs console].
  now rewrite <- !app_assoc.
Qed.

Lemma keeps_files_print m : keeps_files (print m).
Proof. intros w. reflexivity. Qed.

Lemma keeps_files_lift {A} (r : result A) : keeps_files (lift r).
Proof. intros w. reflexivity. Qed.

Lemma keeps_files_bind {A B} (m : M A) (k : A -> M B) :
  keeps_files m -> (forall a, keeps_files (k a)) -> keeps_files (bind m k).
Proof.
  intros Hm Hk w. unfold bind. specialize (Hm w).
  destruct (m w) as [[a|e] w']; cbn [snd] in *.
  - now rewrite Hk.
  - exact Hm.
Qed.

Lemma keeps_files_print_all ms : keeps_files (Service.print_all ms).
Proof.
  induction ms as [|m ms IH]; [intros w; reflexivity|].
  cbn [Service.print_all]. apply keeps_files_bind.
  - apply keeps_files_print.
  - intros _. exact IH.
Qed.

Lemma keeps_files_service_report new_groups :
  keeps_files (service_report new_groups).
Proof.
  unfold service_report.
  repeat (first [ apply keeps_files_bind | apply keeps_files_print
                | apply keeps_files_lift | apply keeps_files_print_all
                | intros ? ]).
Qed.

Lemma keeps_files_update_report groups : keeps_files (update_report groups).
Proof.
  unfold update_report.
  repeat (first [ apply keeps_files_bind | apply keeps_files_print
                | apply keeps_files_lift | intros ? ]).
Qed.

(** The run of [organize_with_service_groups] on a parsed document. *)
Lemma service_run w c docs_data :
  docs_json (fs w) = Some c ->
  Json.load c = Some docs_data ->
  Service.organize_with_service_groups w =
  let w1 := backed_up docs_data (say [Started] w) in
  match Nav.locate_tab docs_data with
  | Raise e => (Raise e, w1)
  | Ok None => (Ok tt, say [TabNotFound] w1)
  | Ok (Some (i, api_tab)) =>
      match service_level_groups api_tab with
      | Raise e => (Raise e, w1)
      | Ok new_groups =>
          service_report new_groups
            (say [UpdatedDocs]
               (persisted (Nav.assign_groups i (JArr new_groups) docs_data) w1))
      end
  end.
Proof.
  intros Hd Hl. unfold Service.organize_with_service_groups.
  rewrite bind_print, (@bind_load DOCS_JSON c docs_data) by assumption.
  rewrite bind_dump, bind_print, bind_lift. cbv zeta.
  destruct (Nav.locate_tab docs_data) as [[[i api_tab]|]|e]; try reflexivity.
  unfold service_level_groups. rewrite bind_lift.
  destruct (Py.getitem api_tab (txt "groups")) as [groups|e]; [|reflexivity].
  cbn [Py.bind]. rewrite bind_lift.
  destruct (Py.first_item groups) as [intro_group|e]; [|reflexivity].
  cbn [Py.bind]. rewrite bind_lift.
  destruct (Py.slice_from1 groups) as [rest|e]; [|reflexivity].
  cbn [Py.bind]. rewrite bind_lift.
  destruct (Py.iter rest) as [items|e]; [|reflexivity].
  cbn [Py.bind]. rewrite bind_lift.
  destruct (Service.service_groups items) as [built|e]; [|reflexivity].
  cbn [Py.bind]. rewrite bind_dump, bind_print. reflexivity.
Qed.

(** The run of [main] of [update-docs-navigation.py] on a parsed document. *)
Lemma update_run w c docs_data :
  docs_json (fs w) = Some c ->
  Json.load c = Some docs_data ->
  UpdateDocs.main w =
  let w1 := backed_up docs_data (say [Started] w) in
  match nav_json (fs w) with
  | None => (Raise FileNotFoundError, w1)
  | Some nc =>
      match Json.load nc with
      | None => (Raise JSONDecodeError, w1)
      | Some endpoint_nav =>
          match Py.len endpoint_nav with
          | Raise e => (Raise e, w1)
          | Ok n =>
              let w2 := say [LoadedNav n] w1 in
              match Nav.locate_tab docs_data with
              | Raise e => (Raise e, w2)
              | Ok None => (Ok tt, say [TabNotFound] w2)
              | Ok (Some (i, _)) =>
                  match Py.cons_list Nav.INTRO_GROUP endpoint_nav with
                  | Raise e => (Raise e, w2)
                  | Ok groups =>
                      update_report groups
                        (say [UpdatedDocs]
                           (persisted
                              (Nav.assign_groups i (JArr groups) docs_data)
                              (say [UpdatedTab n] w2)))
                  end
              end
          end
      end
  end.
Proof.
  intros Hd Hl. unfold UpdateDocs.main.
  rewrite bind_print, (@bind_load DOCS_JSON c docs_data) by assumption.
  rewrite bind_dump, bind_print. cbv zeta.
  destruct (nav_json (fs w)) as [nc|] eqn:Hn;
    [|now rewrite bind_load_missing by exact Hn].
  destruct (Json.load nc) as [endpoint_nav|] eqn:Hnl;
    [|now rewrite (@bind_load_malformed NAV_JSON nc) by assumption].
  rewrite (@bind_load NAV_JSON nc endpoint_nav) by assumption.
  rewrite bind_lift.
  destruct (Py.len endpoint_nav) as [n|e]; [|reflexivity].
  rewrite bind_print, bind_lift.
  destruct (Nav.locate_tab docs_data) as [[[i api_tab]|]|e]; reflexivity.
Qed.

End RunFacts.

(** ** The document that is written *)

Section DocumentFacts.

Import Script Json JsonSpec RunSpec NavSpec.

Lemma dict_get_set_same {A} k (v : A) d : Dict.get k (Dict.set k v d) = Some v.
Proof.
  induction d as [|[k' v'] d IH]; cbn.
  - now rewrite text_eqb_refl.
  - destruct (Text.eqb k k') eqn:E; cbn; now rewrite E.
Qed.

Lemma dict_get_set_other {A} k k' (v : A) d :
  k <> k' -> Dict.get k (Dict.set k' v d) = Dict.get k d.
Proof.
  intros N. induction d as [|[k0 v0] d IH]; cbn.
  - apply text_eqb_neq in N. now rewrite N.
  - destruct (Text.eqb k' k0) eqn:E; cbn.
    + apply text_eqb_eq in E as ->. apply text_eqb_neq in N. now rewrite N.
    + destruct (Text.eqb k k0); [reflexivity | exact IH].
Qed.

Lemma getitem_set_same k v o d :
  o = JObj d -> Py.getitem (Nav.set_member k v o) k = Ok v.
Proof. intros ->. cbn. now rewrite dict_get_set_same. Qed.

(** The assignment to the groups of the tab found leaves the tab where it
    was, and the tab then has the groups assigned. *)
Lemma find_tab_set_groups items i g :
  Nav.find_tab items = Ok (Some i) ->
  let tab := Nav.set_member (txt "groups") g (nth i items JNull) in
  Nav.find_tab (Nav.set_nth i tab items) = Ok (Some i) /\
  nth i (Nav.set_nth i tab items) JNull = tab /\
  Py.getitem tab (txt "groups") = Ok g.
Proof.
  revert i; induction items as [|t items IH]; intros i H; [discriminate|].
  cbn [Nav.find_tab] in H.
  destruct (Py.getitem t (txt "tab")) as [name|e] eqn:En; [|discriminate].
  cbn [Py.bind] in H. destruct t as [| | | | |td]; try discriminate.
  destruct (Py.eq_str name Nav.TAB_NAME) eqn:Eq.
  - injection H as <-. cbn [nth Nav.set_nth]. cbv zeta. split; [|split].
    + cbn [Nav.find_tab Nav.set_member Py.getitem].
      rewrite dict_get_set_other by discriminate.
      cbn [Py.getitem] in En. rewrite En. cbn [Py.bind]. now rewrite Eq.
    + reflexivity.
    + now apply (@getitem_set_same _ _ _ td).
  - destruct (Nav.find_tab items) as [[j|]|e] eqn:Ef; try discriminate.
    injection H as <-. cbn [nth Nav.set_nth]. cbv zeta.
    destruct (IH j eq_refl) as [H1 [H2 H3]]. split; [|split].
    + cbn [Nav.find_tab]. rewrite En. cbn [Py.bind]. rewrite Eq.
      cbv zeta in H1. now rewrite H1.
    + exact H2.
    + exact H3.
Qed.

Lemma find_tab_some_list tabs items i :
  Py.iter tabs = Ok items -> Nav.find_tab items = Ok (Some i) ->
  tabs = JArr items.
Proof.
  destruct tabs as [| | |s|l|d]; try discriminate; intros H F.
  - injection H as <-. destruct s; discriminate.
  - now injection H as <-.
  - injection H as <-. destruct d as [|[k v] d]; discriminate.
Qed.

Lemma tab_groups_assign docs_data i api_tab g :
  Nav.locate_tab docs_data = Ok (Some (i, api_tab)) ->
  Nav.tab_groups (Nav.assign_groups i g docs_data) = Some g.
Proof.
  unfold Nav.locate_tab. intros H.
  destruct (Py.getitem docs_data (txt "navigation")) as [navigation|] eqn:E1;
    [|discriminate].
  cbn [Py.bind] in H.
  destruct (Py.getitem navigation (txt "tabs")) as [tabs|] eqn:E2;
    [|discriminate].
  cbn [Py.bind] in H.
  destruct (Py.iter tabs) as [items|] eqn:E3; [|discriminate].
  cbn [Py.bind] in H.
  destruct (Nav.find_tab items) as [[j|]|] eqn:E4; try discriminate.
  injection H as -> _.
  rewrite (find_tab_some_list _ E3 E4) in *. clear E3.
  destruct docs_data as [| | | | |dd]; try discriminate.
  destruct navigation as [| | | | |nd]; try discriminate.
  unfold Nav.assign_groups.
  rewrite (getitem_member _ _ E1), (getitem_member _ _ E2).
  destruct (@find_tab_set_groups items i g E4) as [H1 [H2 H3]]. cbv zeta in *.
  unfold Nav.tab_groups, Nav.locate_tab.
  rewrite (@getitem_set_same _ _ _ dd eq_refl). cbn [Py.bind].
  rewrite (@getitem_set_same _ _ _ nd eq_refl). cbn [Py.bind Py.iter].
  rewrite H1. cbn [Py.bind]. rewrite H2, H3. reflexivity.
Qed.

Lemma wfb_get d k v :
  forallb (fun kv => wfb (snd kv)) d = true ->
  Dict.get k d = Some v -> wfb v = true.
Proof.
  induction d as [|[k' v'] d IH]; [discriminate|]. cbn.
  intros H. apply andb_true_iff in H as [H1 H2].
  destruct (Text.eqb k k'); [congruence | now apply IH].
Qed.

Lemma wfb_getitem o k v :
  wfb o = true -> Py.getitem o k = Ok v -> wfb v = true.
Proof.
  destruct o; try discriminate. cbn. intros W.
  apply andb_true_iff in W as [_ W].
  destruct (Dict.get k members) eqn:E; [|discriminate].
  intros H. injection H as <-. now apply (wfb_get _ _ W E).
Qed.

Lemma wfb_member k o : wfb o = true -> wfb (Nav.member k o) = true.
Proof.
  intros W. unfold Nav.member. destruct o; try reflexivity.
  destruct (Dict.get k members) eqn:E; [|reflexivity].
  cbn in W. apply andb_true_iff in W as [_ W]. now apply (wfb_get _ _ W E).
Qed.

Lemma wfb_set_member k v o :
  wfb o = true -> wfb v = true -> wfb (Nav.set_member k v o) = true.
Proof.
  intros W Wv. destruct o; try exact W. cbn in *.
  apply andb_true_iff in W as [N W]. apply andb_true_iff. split.
  - apply nodupb_complete, dict_set_nodup. now apply nodupb_sound.
  - now apply dict_set_forallb.
Qed.

Lemma wfb_set_nth i x l :
  forallb wfb l = true -> wfb x = true ->
  forallb wfb (Nav.set_nth i x l) = true.
Proof.
  revert i; induction l as [|y l IH]; intros i W Wx; [now destruct i|].
  cbn in W. apply andb_true_iff in W as [W1 W2].
  destruct i; cbn; [now rewrite Wx, W2 | now rewrite W1, IH].
Qed.

Lemma wfb_nth i l : forallb wfb l = true -> wfb (nth i l JNull) = true.
Proof.
  revert i; induction l as [|y l IH]; intros i W; [now destruct i|].
  cbn in W. apply andb_true_iff in W as [W1 W2].
  destruct i; [exact W1 | now apply IH].
Qed.

Lemma wfb_assign_groups i g d :
  wfb d = true -> wfb g = true -> wfb (Nav.assign_groups i g d) = true.
Proof.
  intros W Wg. unfold Nav.assign_groups.
  pose proof (wfb_member (txt "navigation") d W) as Wn.
  pose proof (wfb_member (txt "tabs") _ Wn) as Wt.
  destruct (Nav.member (txt "tabs") (Nav.member (txt "navigation") d))
    as [| | | |items|]; try exact W.
  apply wfb_set_member; [exact W|]. apply wfb_set_member; [exact Wn|].
  cbn [wfb] in Wt |- *. apply wfb_set_nth; [exact Wt|].
  apply wfb_set_member; [now apply wfb_nth | exact Wg].
Qed.

Lemma wfb_iter o l : wfb o = true -> Py.iter o = Ok l -> forallb wfb l = true.
Proof.
  destruct o; try discriminate; intros W H; injection H as <-.
  - clear W. induction s as [|c s IH]; [reflexivity | exact IH].
  - exact W.
  - clear W. unfold Dict.keys.
    induction members as [|[k v] members IH]; [reflexivity | exact IH].
Qed.

Lemma wfb_slice o o' :
  wfb o = true -> Py.slice_from1 o = Ok o' -> wfb o' = true.
Proof.
  destruct o; try discriminate; intros W H; injection H as <-;
    [reflexivity|].
  destruct items; [reflexivity|]. cbn in W.
  now apply andb_true_iff in W as [_ W].
Qed.

Lemma wfb_first_item o x :
  wfb o = true -> Py.first_item o = Ok x -> wfb x = true.
Proof.
  destruct o as [| | |[|c s]|[|y l]|]; try discriminate; intros W H;
    injection H as <-; [reflexivity|].
  cbn in W. now apply andb_true_iff in W as [W _].
Qed.

Lemma wfb_mapM (f : json -> result json) l :
  (forall x y, wfb x = true -> f x = Ok y -> wfb y = true) ->
  forall l', forallb wfb l = true -> Py.mapM f l = Ok l' ->
             forallb wfb l' = true.
Proof.
  intros Hf. induction l as [|x l IH]; intros l' W H.
  - now injection H as <-.
  - cbn in W. apply andb_true_iff in W as [W1 W2]. cbn [Py.mapM] in H.
    destruct (f x) as [y|] eqn:E; [|discriminate]. cbn [Py.bind] in H.
    destruct (Py.mapM f l) as [ys|]; [|discriminate].
    injection H as <-. cbn. now rewrite (Hf _ _ W1 E), IH.
Qed.

Lemma wfb_sub_groups cats :
  forallb wfb (map Accordion.sub_group cats) = true.
Proof.
  induction cats as [|[k ps] cats IH]; [reflexivity|].
  cbn [map forallb]. rewrite IH, andb_true_r.
  unfold Accordion.sub_group, Accordion.group_of. cbn.
  rewrite andb_true_r. now induction ps.
Qed.

Lemma wfb_accordion_group g g' :
  wfb g = true -> Accordion.accordion_group g = Ok g' -> wfb g' = true.
Proof.
  intros W. unfold Accordion.accordion_group.
  destruct (Py.getitem g (txt "group")) as [name|] eqn:En; [|discriminate].
  cbn [Py.bind].
  destruct (Py.getitem g (txt "pages")) as [pages|]; [|discriminate].
  cbn [Py.bind]. destruct (Py.len pages) as [n|]; [|discriminate].
  cbn [Py.bind]. destruct (10 <? n); [|now intros H; injection H as <-].
  destruct (Py.iter pages) as [items|]; [|discriminate]. cbn [Py.bind].
  destruct (Py.mapM Py.as_str items) as [names|]; [|discriminate].
  cbn [Py.bind]. intros H. injection H as <-.
  unfold Accordion.group_of. cbn.
  rewrite (wfb_getitem _ _ W En), wfb_sub_groups. reflexivity.
Qed.

Lemma wfb_accordion_groups api_tab gs :
  wfb api_tab = true -> accordion_groups api_tab = Ok gs ->
  forallb wfb gs = true.
Proof.
  intros W. unfold accordion_groups.
  destruct (Py.getitem api_tab (txt "groups")) as [groups|] eqn:Eg;
    [|discriminate].
  cbn [Py.bind]. destruct (Py.slice_from1 groups) as [rest|] eqn:Es;
    [|discriminate].
  cbn [Py.bind]. destruct (Py.iter rest) as [items|] eqn:Ei; [|discriminate].
  cbn [Py.bind].
  destruct (Py.mapM Accordion.accordion_group items) as [regrouped|] eqn:Em;
    [|discriminate].
  cbn [Py.bind]. intros H. injection H as <-.
  cbn [forallb]. change (wfb Nav.INTRO_GROUP) with true. cbn [andb].
  eapply wfb_mapM; [apply wfb_accordion_group | | exact Em].
  eapply wfb_iter; [|exact Ei]. eapply wfb_slice; [|exact Es].
  now apply (wfb_getitem _ _ W Eg).
Qed.

Lemma wfb_add_to_service s g ss :
  wfb g = true ->
  forallb (fun kv => forallb wfb (snd kv)) ss = true ->
  forallb (fun kv => forallb wfb (snd kv)) (Service.add_to_service s g ss) = true.
Proof.
  intros Wg. induction ss as [|[k l] ss IH]; intros W.
  - cbn. now rewrite Wg.
  - cbn in W. apply andb_true_iff in W as [W1 W2]. cbn [Service.add_to_service].
    destruct (Text.eqb s k); cbn.
    + rewrite W2, andb_true_r, forallb_app, W1. cbn. now rewrite Wg.
    + now rewrite W1, IH.
Qed.

Lemma wfb_organize gs :
  forall ss un ss' un',
    forallb wfb gs = true ->
    forallb (fun kv => forallb wfb (snd kv)) ss = true ->
    forallb wfb un = true ->
    Service.organize gs ss un = Ok (ss', un') ->
    forallb (fun kv => forallb wfb (snd kv)) ss' = true /\
    forallb wfb un' = true.
Proof.
  induction gs as [|g gs IH]; intros ss un ss' un' W Ws Wu H.
  - injection H as <- <-. now split.
  - cbn in W. apply andb_true_iff in W as [Wg W]. cbn [Service.organize] in H.
    destruct (Py.getitem g (txt "group")) as [name|]; [|discriminate].
    cbn [Py.bind] in H.
    destruct (Text.eqb (Service.categorize_group name) Service.OTHER_SERVICES).
    + apply (IH _ _ _ _ W Ws) in H; [exact H|].
      rewrite forallb_app, Wu. cbn. now rewrite Wg.
    + apply (IH _ _ _ _ W) in H; [exact H | | exact Wu].
      now apply wfb_add_to_service.
Qed.

Lemma wfb_emit_services names ss :
  forallb (fun kv => forallb wfb (snd kv)) ss = true ->
  forallb wfb (Service.emit_services names ss) = true.
Proof.
  intros W. induction names as [|n names IH]; [reflexivity|].
  cbn [Service.emit_services].
  destruct (Dict.get n ss) as [cats|] eqn:E; [|exact IH].
  cbn [forallb]. rewrite IH, andb_true_r.
  unfold Accordion.group_of. cbn. rewrite andb_true_r.
  clear - W E. induction ss as [|[k l] ss IHs]; [discriminate|].
  cbn in W, E. apply andb_true_iff in W as [W1 W2].
  destruct (Text.eqb n k); [now injection E as <- | now apply IHs].
Qed.

Lemma wfb_service_groups gs built :
  forallb wfb gs = true -> Service.service_groups gs = Ok built ->
  forallb wfb built = true.
Proof.
  intros W. unfold Service.service_groups.
  destruct (Service.organize gs [] []) as [[ss un]|] eqn:E; [|discriminate].
  cbn [Py.bind fst snd]. intros H. injection H as <-.
  destruct (@wfb_organize gs [] [] ss un W eq_refl eq_refl E) as [Ws Wu].
  unfold Service.build_groups. rewrite forallb_app, wfb_emit_services by exact Ws.
  destruct un as [|u un]; [reflexivity|].
  cbn [forallb andb]. rewrite andb_true_r.
  unfold Accordion.group_of. cbn [wfb map fst snd forallb].
  cbn [forallb] in Wu. now rewrite Wu.
Qed.

Lemma wfb_service_level_groups api_tab gs :
  wfb api_tab = true -> service_level_groups api_tab = Ok gs ->
  forallb wfb gs = true.
Proof.
  intros W. unfold service_level_groups.
  destruct (Py.getitem api_tab (txt "groups")) as [groups|] eqn:Eg;
    [|discriminate].
  cbn [Py.bind].
  destruct (Py.first_item groups) as [intro_group|] eqn:Ef; [|discriminate].
  cbn [Py.bind]. destruct (Py.slice_from1 groups) as [rest|] eqn:Es;
    [|discriminate].
  cbn [Py.bind]. destruct (Py.iter rest) as [items|] eqn:Ei; [|discriminate].
  cbn [Py.bind].
  destruct (Service.service_groups items) as [built|] eqn:Eb; [|discriminate].
  cbn [Py.bind]. intros H. injection H as <-.
  pose proof (wfb_getitem _ _ W Eg) as Wg.
  cbn [forallb]. rewrite (wfb_first_item _ Wg Ef). cbn [andb].
  eapply wfb_service_groups; [|exact Eb].
  eapply wfb_iter; [|exact Ei]. now apply (wfb_slice _ Wg Es).
Qed.

Lemma wfb_locate docs_data i api_tab :
  wfb docs_data = true ->
  Nav.locate_tab docs_data = Ok (Some (i, api_tab)) ->
  wfb api_tab = true.
Proof.
  intros W. unfold Nav.locate_tab.
  destruct (Py.getitem docs_data (txt "navigation")) as [navigation|] eqn:E1;
    [|discriminate].
  cbn [Py.bind].
  destruct (Py.getitem navigation (txt "tabs")) as [tabs|] eqn:E2;
    [|discriminate].
  cbn [Py.bind]. destruct (Py.iter tabs) as [items|] eqn:E3; [|discriminate].
  cbn [Py.bind]. destruct (Nav.find_tab items) as [[j|]|]; try discriminate.
  intros H. injection H as <- <-. apply wfb_nth.
  eapply wfb_iter; [|exact E3].
  eapply wfb_getitem; [|exact E2]. now apply (wfb_getitem _ _ W E1).
Qed.

(** A world whose [docs.json] holds the dump of a document with distinct
    keys holds, for the reader, the groups of the tab of that document. *)
Lemma written_reads_back w written groups :
  docs_json (fs w) = Some (Json.dump written) ->
  wfb written = true ->
  Nav.tab_groups written = Some groups ->
  persisted_groups w = Some groups.
Proof.
  intros Hd W Hg. unfold persisted_groups. now rewrite Hd, load_dump.
Qed.

End DocumentFacts.

(** ** The merge operations on the navigation document *)

Section MergeFacts.

Import Script RunSpec NavSpec.

Lemma find_tab_none tabs :
  Forall (fun tab => exists name,
              Py.getitem tab (txt "tab") = Ok name /\
              name <> JStr Nav.TAB_NAME) tabs ->
  Nav.find_tab tabs = Ok None.
Proof.
  induction 1 as [|tab tabs [name [Hn Hd]] _ IH]; [reflexivity|].
  cbn [Nav.find_tab]. rewrite Hn. cbn [Py.bind].
  assert (E : Py.eq_str name Nav.TAB_NAME = false).
  { destruct name; try reflexivity. simpl. apply text_eqb_neq. congruence. }
  rewrite E, IH. reflexivity.
Qed.

Lemma locate_tab_none docs_data :
  no_such_tab docs_data -> Nav.locate_tab docs_data = Ok None.
Proof.
  intros [navigation [tabs [Hn [Ht Hf]]]]. unfold Nav.locate_tab.
  rewrite Hn. cbn [Py.bind]. rewrite Ht. cbn [Py.bind Py.iter].
  now rewrite (find_tab_none Hf).
Qed.

(** C3: when the accordion regrouping runs on a document whose tab holds a
    list of groups, those behind the first one having a name and a list of
    pages each (a list of more than 10 pages holding leaves only), it
    writes a document in which the tab holds, after the introduction, one
    group per group behind the first, in the same order: the group itself,
    unchanged, when it has at most 10 pages, and from 11 leaves on the
    object with the same name whose pages are the sub-groups, a name and a
    list of leaves each, of the action categories that have a leaf; each
    category has one sub-group at most, and the sub-groups together hold
    as many leaves as the group had. *)
Theorem accordion_threshold w c docs_data i api_tab groups :
  docs_json (fs w) = Some c ->
  Json.load c = Some docs_data ->
  Nav.locate_tab docs_data = Ok (Some (i, api_tab)) ->
  Py.getitem api_tab (txt "groups") = Ok (JArr groups) ->
  Forall regroupable (tl groups) ->
  exists gs' w',
    Accordion.create_accordion_navigation w = (Ok tt, w') /\
    docs_json (fs w') =
      Some (Json.dump (Nav.assign_groups i (JArr (Nav.INTRO_GROUP :: gs')) docs_data)) /\
    persisted_groups w' = Some (JArr (Nav.INTRO_GROUP :: gs')) /\
    Forall2 regrouped_as (tl groups) gs'.
Proof.
  intros Hd Hl Ht Hg Hc.
  destruct (accordion_mapM Hc) as [gs' [Em F]].
  assert (Ha : accordion_groups api_tab = Ok (Nav.INTRO_GROUP :: gs')).
  { unfold accordion_groups. rewrite Hg.
    cbn [Py.bind Py.slice_from1 Py.iter]. now rewrite Em. }
  pose proof (@load_wf c docs_data Hl) as W.
  rewrite (accordion_run _ Hd Hl). cbv zeta. rewrite Ht, Ha.
  eexists gs', _. split; [reflexivity|]. split; [reflexivity|].
  split; [|exact F].
  eapply written_reads_back; [reflexivity | |].
  - apply wfb_assign_groups; [exact W|]. cbn [JsonSpec.wfb].
    eapply wfb_accordion_groups; [|exact Ha]. now apply (wfb_locate _ W Ht).
  - now apply (@tab_groups_assign docs_data i api_tab).
Qed.

(** C6: when no tab of the document has the display name [API reference],
    each of the three operations prints that it could not find the tab,
    returns, and leaves the content of [docs.json] as it was.  (The full
    replacement reads the generated navigation before it looks for the
    tab, so it gets there when that file holds a list.) *)
Theorem missing_tab_leaves_document w c docs_data :
  docs_json (fs w) = Some c ->
  Json.load c = Some docs_data ->
  no_such_tab docs_data ->
  (exists w',
      Accordion.create_accordion_navigation w = (Ok tt, w') /\
      docs_json (fs w') = Some c /\
      console w' = console w ++ [Started; BackedUp; TabNotFound]) /\
  (exists w',
      Service.organize_with_service_groups w = (Ok tt, w') /\
      docs_json (fs w') = Some c /\
      console w' = console w ++ [Started; BackedUp; TabNotFound]) /\
  (forall nc endpoint_nav n,
      nav_json (fs w) = Some nc ->
      Json.load nc = Some endpoint_nav ->
      Py.len endpoint_nav = Ok n ->
      exists w',
        UpdateDocs.main w = (Ok tt, w') /\
        docs_json (fs w') = Some c /\
        console w' = console w ++ [Started; BackedUp; LoadedNav n; TabNotFound]) /\
  docs_json (fs (snd (UpdateDocs.main w))) = Some c.
Proof.
  intros Hd Hl Hn. apply locate_tab_none in Hn.
  split; [|split; [|split]].
  - rewrite (accordion_run _ Hd Hl). cbv zeta. rewrite Hn.
    eexists. split; [reflexivity|]. split; [exact Hd|].
    cbn. now rewrite <- !app_assoc.
  - rewrite (service_run _ Hd Hl). cbv zeta. rewrite Hn.
    eexists. split; [reflexivity|]. split; [exact Hd|].
    cbn. now rewrite <- !app_assoc.
  - intros nc endpoint_nav n Hnc Hnl Hlen.
    rewrite (update_run _ Hd Hl). cbv zeta. rewrite Hnc, Hnl, Hlen, Hn.
    eexists. split; [reflexivity|]. split; [exact Hd|].
    cbn. now rewrite <- !app_assoc.
  - rewrite (update_run _ Hd Hl). cbv zeta. rewrite Hn.
    destruct (nav_json (fs w)) as [nc|]; [|exact Hd].
    destruct (Json.load nc) as [endpoint_nav|]; [|exact Hd].
    destruct (Py.len endpoint_nav); exact Hd.
Qed.

(** C2, as the code has it: in every run of the three operations on a
    document that parses, the backup file holds the serialization with an
    indent of two of the parsed document, which reads back as the same
    document; it is not a copy of the bytes of the document. *)
Theorem backup_is_reserialization w c docs_data :
  docs_json (fs w) = Some c ->
  Json.load c = Some docs_data ->
  Json.load (Json.dump docs_data) = Some docs_data /\
  backup_json (fs (snd (UpdateDocs.main w))) = Some (Json.dump docs_data) /\
  backup_json (fs (snd (Accordion.create_accordion_navigation w)))
    = Some (Json.dump docs_data) /\
  backup_json (fs (snd (Service.organize_with_service_groups w)))
    = Some (Json.dump docs_data).
Proof.
  intros Hd Hl. split; [now apply (load_dump_load c)|]. split; [|split].
  - rewrite (update_run _ Hd Hl). cbv zeta.
    destruct (nav_json (fs w)) as [nc|]; [|reflexivity].
    destruct (Json.load nc) as [endpoint_nav|]; [|reflexivity].
    destruct (Py.len endpoint_nav) as [n|e]; [|reflexivity].
    destruct (Nav.locate_tab docs_data) as [[[i api_tab]|]|e]; try reflexivity.
    destruct (Py.cons_list Nav.INTRO_GROUP endpoint_nav) as [groups|e];
      [|reflexivity].
    now rewrite keeps_files_update_report.
  - rewrite (accordion_run _ Hd Hl). cbv zeta.
    destruct (Nav.locate_tab docs_data) as [[[i api_tab]|]|e]; try reflexivity.
    destruct (accordion_groups api_tab); reflexivity.
  - rewrite (service_run _ Hd Hl). cbv zeta.
    destruct (Nav.locate_tab docs_data) as [[[i api_tab]|]|e]; try reflexivity.
    destruct (service_level_groups api_tab) as [new_groups|e]; [|reflexivity].
    now rewrite keeps_files_service_report.
Qed.

End MergeFacts.

(** ** Element 0 of the tab *)

Section IntroFacts.

Import Script RunSpec NavSpec Sample.

(** The service-level regrouping keeps element 0 of the tab: in the
    document that it writes, the groups of the tab start with the element 0
    that the tab had. *)
Lemma service_keeps_intro w c docs_data i api_tab intro_group gs :
  docs_json (fs w) = Some c ->
  Json.load c = Some docs_data ->
  Nav.locate_tab docs_data = Ok (Some (i, api_tab)) ->
  Py.getitem api_tab (txt "groups") = Ok (JArr (intro_group :: gs)) ->
  Forall has_name gs ->
  exists built,
    Service.service_groups gs = Ok built /\
    persisted_groups (snd (Service.organize_with_service_groups w))
      = Some (JArr (intro_group :: built)).
Proof.
  intros Hd Hl Ht Hg Hn.
  pose proof (service_groups_spec Hn) as Hs.
  pose proof (@load_wf c docs_data Hl) as W.
  assert (Ha : service_level_groups api_tab =
               Ok (intro_group :: flat_map (emit_bucket gs) BUCKETS)).
  { unfold service_level_groups. rewrite Hg.
    cbn [Py.bind Py.first_item Py.slice_from1 Py.iter tl]. now rewrite Hs. }
  eexists. split; [exact Hs|].
  eapply written_reads_back.
  - rewrite (service_run _ Hd Hl). cbv zeta. rewrite Ht, Ha.
    now rewrite keeps_files_service_report.
  - apply wfb_assign_groups; [exact W|]. cbn [JsonSpec.wfb].
    eapply wfb_service_level_groups; [|exact Ha]. now apply (wfb_locate _ W Ht).
  - now apply (@tab_groups_assign docs_data i api_tab).
Qed.

(** The full replacement and the accordion regrouping write the literal
    introduction group as element 0, whatever element 0 was. *)
Lemma literal_intro_written w c docs_data i api_tab :
  docs_json (fs w) = Some c ->
  Json.load c = Some docs_data ->
  Nav.locate_tab docs_data = Ok (Some (i, api_tab)) ->
  (forall regrouped,
      accordion_groups api_tab = Ok regrouped ->
      element0 (persisted_groups (snd (Accordion.create_accordion_navigation w)))
        = Some Nav.INTRO_GROUP) /\
  (forall nc endpoint_nav,
      nav_json (fs w) = Some nc ->
      Json.load nc = Some (JArr endpoint_nav) ->
      persisted_groups (snd (UpdateDocs.main w))
        = Some (JArr (Nav.INTRO_GROUP :: endpoint_nav))).
Proof.
  intros Hd Hl Ht. pose proof (@load_wf c docs_data Hl) as W. split.
  - intros regrouped Ha.
    assert (R : exists rest, regrouped = Nav.INTRO_GROUP :: rest).
    { unfold accordion_groups in Ha.
      destruct (Py.getitem api_tab (txt "groups")); [|discriminate].
      cbn [Py.bind] in Ha. destruct (Py.slice_from1 a); [|discriminate].
      cbn [Py.bind] in Ha. destruct (Py.iter a0); [|discriminate].
      cbn [Py.bind] in Ha.
      destruct (Py.mapM Accordion.accordion_group a1); [|discriminate].
      injection Ha as <-. now eexists. }
    destruct R as [rest ->].
    assert (P : persisted_groups (snd (Accordion.create_accordion_navigation w))
                = Some (JArr (Nav.INTRO_GROUP :: rest))).
    { eapply written_reads_back.
      - rewrite (accordion_run _ Hd Hl). cbv zeta. rewrite Ht, Ha. reflexivity.
      - apply wfb_assign_groups; [exact W|]. cbn [JsonSpec.wfb].
        eapply wfb_accordion_groups; [|exact Ha].
        now apply (wfb_locate _ W Ht).
      - now apply (@tab_groups_assign docs_data i api_tab). }
    now rewrite P.
  - intros nc endpoint_nav Hn Hnl.
    eapply written_reads_back.
    + rewrite (update_run _ Hd Hl). cbv zeta. rewrite Hn, Hnl, Ht.
      cbn [Py.len Py.cons_list]. now rewrite keeps_files_update_report.
    + apply wfb_assign_groups; [exact W|].
      pose proof (@load_wf nc _ Hnl) as Wn. cbn [JsonSpec.wfb] in Wn |- *.
      cbn [forallb]. now rewrite Wn.
    + now apply (@tab_groups_assign docs_data i api_tab).
Qed.

(** C1: on a document whose introduction entry is a group [Overview], the
    service-level regrouping writes that entry back as element 0, but the
    full replacement and the accordion regrouping write the literal group
    [API documentation] of the scripts in its place. *)
Theorem intro_group_overwritten :
  element0 (persisted_groups world1) = Some overview /\
  element0 (persisted_groups (snd (Service.organize_with_service_groups world1)))
    = Some overview /\
  element0 (persisted_groups (snd (UpdateDocs.main world1)))
    = Some Nav.INTRO_GROUP /\
  element0 (persisted_groups (snd (Accordion.create_accordion_navigation world1)))
    = Some Nav.INTRO_GROUP /\
  overview <> Nav.INTRO_GROUP.
Proof.
  repeat split; try (vm_compute; reflexivity). discriminate.
Qed.

End IntroFacts.

(** ** The operations on the sample documents *)

Section SampleFacts.

Import Script RunSpec NavSpec Sample.

Lemma category_is_regroupable name pages :
  regroupable (category name pages).
Proof.
  exists (JStr (txt name)), (map JStr (map txt pages)). split.
  - split; [reflexivity|]. unfold category, group, Accordion.group_of, leaf.
    cbn. now rewrite map_map.
  - intros _. now exists (map txt pages).
Qed.

Lemma accordion_threshold_witness :
  exists gs' w',
    Accordion.create_accordion_navigation world1 = (Ok tt, w') /\
    docs_json (fs w') =
      Some (Json.dump (Nav.assign_groups 1 (JArr (Nav.INTRO_GROUP :: gs')) docs)) /\
    persisted_groups w' = Some (JArr (Nav.INTRO_GROUP :: gs')) /\
    Forall2 regrouped_as [camera; webhooks; door] gs'.
Proof.
  apply (@accordion_threshold world1 (Json.dump docs) docs 1
           (tab_of "API reference" [overview; camera; webhooks; door])
           [overview; camera; webhooks; door]).
  - reflexivity.
  - vm_compute. reflexivity.
  - reflexivity.
  - reflexivity.
  - repeat constructor; apply category_is_regroupable.
Defined.

Lemma missing_tab_witness :
  docs_json (fs (snd (UpdateDocs.main world_without_tab)))
    = Some (Json.dump docs_without_tab) /\
  exists w',
    Service.organize_with_service_groups world_without_tab = (Ok tt, w') /\
    docs_json (fs w') = Some (Json.dump docs_without_tab) /\
    console w' = [Started; BackedUp; TabNotFound].
Proof.
  assert (L : Json.load (Json.dump docs_without_tab) = Some docs_without_tab)
    by (vm_compute; reflexivity).
  assert (N : no_such_tab docs_without_tab).
  { eexists. eexists. split; [reflexivity|]. split; [reflexivity|].
    repeat constructor; eexists; (split; [reflexivity | discriminate]). }
  destruct (@missing_tab_leaves_document world_without_tab
              (Json.dump docs_without_tab) docs_without_tab eq_refl L N)
    as [_ [S [_ U]]].
  split; [exact U | exact S].
Defined.

Lemma backup_is_reserialization_witness :
  Json.load (Json.dump one_line_value) = Some one_line_value /\
  backup_json (fs (snd (UpdateDocs.main world_one_line)))
    = Some (Json.dump one_line_value) /\
  backup_json (fs (snd (Accordion.create_accordion_navigation world_one_line)))
    = Some (Json.dump one_line_value) /\
  backup_json (fs (snd (Service.organize_with_service_groups world_one_line)))
    = Some (Json.dump one_line_value).
Proof.
  apply (@backup_is_reserialization world_one_line one_line one_line_value).
  - reflexivity.
  - vm_compute. reflexivity.
Defined.

(** A document written on one line is backed up on several lines: in each
    of the three runs, which all complete, the backup differs from the
    content that the document had. *)
Lemma backup_differs_from_document :
  fst (UpdateDocs.main world_one_line) = Ok tt /\
  fst (Accordion.create_accordion_navigation world_one_line) = Ok tt /\
  fst (Service.organize_with_service_groups world_one_line) = Ok tt /\
  backup_json (fs (snd (UpdateDocs.main world_one_line)))
    <> docs_json (fs world_one_line) /\
  backup_json (fs (snd (Accordion.create_accordion_navigation world_one_line)))
    <> docs_json (fs world_one_line) /\
  backup_json (fs (snd (Service.organize_with_service_groups world_one_line)))
    <> docs_json (fs world_one_line).
Proof.
  repeat split; try (vm_compute; reflexivity);
    intros H; vm_compute in H; discriminate H.
Qed.

End SampleFacts.

(** ** The summarizer *)

Section SummarizerFacts.

Import Summarizer Sample.

Lemma key_eqb_refl_str s : key_eqb (JStr s) (JStr s) = true.
Proof. apply text_eqb_refl. Qed.

Lemma get_set_count k n ec :
  key_eqb k k = true -> get_count k (set_count k n ec) = Some n.
Proof.
  intros R. induction ec as [|[k' m] ec IH]; cbn.
  - now rewrite R.
  - destruct (key_eqb k k') eqn:E; cbn; now rewrite E.
Qed.

Lemma set_set_count k n m ec :
  key_eqb k k = true -> set_count k n (set_count k m ec) = set_count k n ec.
Proof.
  intros R. induction ec as [|[k' j] ec IH]; cbn.
  - now rewrite R.
  - destruct (key_eqb k k') eqn:E; cbn; rewrite E; [reflexivity | now rewrite IH].
Qed.

Lemma traverse_flat name leaves cc ec :
  name <> [] ->
  traverse (Accordion.group_of (JStr name) (map JStr leaves)) cc ec =
  Ok (set_count (JStr name) (length leaves) ec).
Proof.
  intros N. unfold Accordion.group_of.
  cbn [traverse].
  change (Dict.get (txt "group") _) with (Some (JStr name)).
  cbn [hashable Py.bind fst snd].
  change (Text.eqb (txt "pages") (txt "group")) with false.
  change (Text.eqb (txt "pages") (txt "pages")) with true.
  cbv iota.
  assert (T : truthy (JStr name) = true) by (destruct name; [contradiction | reflexivity]).
  rewrite T.
  match goal with
  | |- Py.bind (?F _ _) _ = _ =>
      assert (P : forall k, F (map JStr leaves) (set_count (JStr name) k ec)
                            = Ok (set_count (JStr name) (k + length leaves) ec))
  end.
  { induction leaves as [|l leaves IH]; intros k.
    - cbn [map length]. now rewrite Nat.add_0_r.
    - cbn [map length]. unfold incr_count.
      rewrite get_set_count by apply key_eqb_refl_str.
      cbn [Py.bind]. rewrite set_set_count by apply key_eqb_refl_str.
      rewrite IH. f_equal. f_equal. lia. }
  rewrite P. cbn [Py.bind Nat.add].
  match goal with
  | |- Py.bind (?G _ _) _ = _ =>
      assert (Q : forall ec1, G (map JStr leaves) ec1 = Ok ec1)
  end.
  { clear. induction leaves as [|l leaves IH]; intros ec1; [reflexivity|].
    cbn [map traverse Py.bind]. apply IH. }
  now rewrite Q.
Qed.

(** A list of flat groups: every group sets the count of its name to the
    number of its leaves, so a later group of the same name replaces the
    count of an earlier one. *)
Lemma traverse_flat_list (groups : list (text * list text)) cc ec :
  Forall (fun g => fst g <> []) groups ->
  traverse (JArr (map (fun g => Accordion.group_of (JStr (fst g)) (map JStr (snd g))) groups)) cc ec
  = Ok (fold_left (fun ec g => set_count (JStr (fst g)) (length (snd g)) ec) groups ec).
Proof.
  intros F. cbn [traverse]. revert ec.
  induction F as [|[name leaves] groups Hn _ IH]; intros ec; [reflexivity|].
  cbn [map fst snd fold_left]. rewrite traverse_flat by exact Hn.
  cbn [Py.bind]. apply IH.
Qed.

Lemma total_set_fresh k n ec :
  get_count k ec = None -> total (set_count k n ec) = total ec + n.
Proof.
  unfold total, list_sum. induction ec as [|[k' m] ec IH]; intros H.
  - cbn. lia.
  - cbn [get_count] in H. cbn [set_count].
    destruct (key_eqb k k'); [discriminate|].
    cbn [map fold_right snd]. rewrite IH by exact H. lia.
Qed.

Lemma get_set_count_other a b n ec :
  a <> b ->
  get_count (JStr a) (set_count (JStr b) n ec) = get_count (JStr a) ec.
Proof.
  intros N. apply text_eqb_neq in N.
  induction ec as [|[k0 m] ec IH].
  - cbn. now rewrite N.
  - cbn [set_count]. destruct (key_eqb (JStr b) k0) eqn:E.
    + destruct k0; try discriminate E. cbn [key_eqb] in E.
      apply text_eqb_eq in E. subst s. cbn [get_count key_eqb]. now rewrite N.
    + cbn [get_count]. destruct (key_eqb (JStr a) k0); [reflexivity | exact IH].
Qed.

(** With distinct names the counts add up. *)
Lemma total_flat_distinct (groups : list (text * list text)) :
  NoDup (map fst groups) ->
  forall ec,
    (forall g, In g groups -> get_count (JStr (fst g)) ec = None) ->
    total (fold_left (fun ec g => set_count (JStr (fst g)) (length (snd g)) ec)
                     groups ec)
    = total ec + list_sum (map (fun g => length (snd g)) groups).
Proof.
  induction groups as [|[name leaves] groups IH]; intros ND ec Hf.
  - cbn [fold_left map]. change (list_sum []) with 0. lia.
  - inversion ND as [|? ? Hn ND']; subst. cbn [fold_left fst snd].
    rewrite IH; [|exact ND'|].
    + rewrite total_set_fresh by (apply (Hf (name, leaves)); now left).
      unfold list_sum. cbn [map fold_right snd]. lia.
    + intros g Hg. rewrite get_set_count_other.
      * apply Hf. now right.
      * intros E. apply Hn. rewrite <- E. now apply in_map.
Qed.

Lemma leaves_flat_list (groups : list (text * list text)) :
  leaves (JArr (map (fun g => Accordion.group_of (JStr (fst g)) (map JStr (snd g))) groups))
  = list_sum (map (fun g => length (snd g)) groups).
Proof.
  cbn [leaves]. induction groups as [|[name ls] groups IH]; [reflexivity|].
  cbn [map fst snd]. rewrite IH. unfold list_sum at 2. cbn [map fold_right snd].
  f_equal. unfold Accordion.group_of. cbn [leaves].
  change (Dict.get (txt "group") _) with (Some (JStr name)).
  change (Dict.get (txt "pages") _) with (Some (JArr (map JStr ls))).
  cbv iota.
  assert (L : length (filter (fun p => match p with JStr _ => true | _ => false end)
                             (map JStr ls)) = length ls).
  { clear. induction ls as [|l ls IH]; [reflexivity|]. cbn. now rewrite IH. }
  rewrite L.
  match goal with
  | |- _ + (_ + (?G _ + 0)) = _ => assert (Z : G (map JStr ls) = 0)
  end.
  { clear. induction ls as [|l ls IH]; [reflexivity | exact IH]. }
  rewrite Z. lia.
Qed.

(** On a list of flat groups with distinct, non-empty names the total of
    the walk is the number of leaves. *)
Lemma flat_distinct_total (groups : list (text * list text)) :
  Forall (fun g => fst g <> []) groups ->
  NoDup (map fst groups) ->
  let nav := JArr (map (fun g => Accordion.group_of (JStr (fst g)) (map JStr (snd g))) groups) in
  exists ec, count_endpoints_in_nav nav = Ok ec /\ total ec = leaves nav.
Proof.
  intros F ND nav. unfold count_endpoints_in_nav, nav.
  rewrite traverse_flat_list by exact F. eexists. split; [reflexivity|].
  rewrite total_flat_distinct; [|exact ND | reflexivity].
  now rewrite leaves_flat_list.
Qed.

(** Two groups of the same name: the count is that of the second, and the
    leaves of the first are lost to the total. *)
Lemma shared_name_last_wins name leaves1 leaves2 :
  name <> [] ->
  count_endpoints_in_nav
    (JArr [Accordion.group_of (JStr name) (map JStr leaves1);
           Accordion.group_of (JStr name) (map JStr leaves2)])
  = Ok [(JStr name, length leaves2)].
Proof.
  intros N. unfold count_endpoints_in_nav.
  rewrite (@traverse_flat_list [(name, leaves1); (name, leaves2)]).
  - cbn [fold_left fst snd set_count key_eqb]. now rewrite text_eqb_refl.
  - repeat constructor; exact N.
Qed.

(** C7: on a document in which two category groups each have a sub-group
    named [Get & Find], with two leaves and with one leaf, the walk leaves
    for that name the count of the group visited last, 1, and the total is
    3, while the groups of the document hold 5 string leaves. *)
Theorem shared_names_undercount :
  exists ec,
    endpoint_figures docs_with_accordions = Ok (3, ec) /\
    ec = [ (JStr (txt "Get started"), 1); (JStr (txt "API documentation"), 1);
           (JStr (txt "Camera"), 0); (JStr (txt "Get & Find"), 1);
           (JStr (txt "Door"), 0) ] /\
    analyze_docs_json (fs (world_of (Some (Json.dump docs_with_accordions)) None))
      = Ok (3, ec) /\
    leaves docs_with_accordions = 5.
Proof.
  eexists. split; [vm_compute; reflexivity|].
  split; [reflexivity|]. split; vm_compute; reflexivity.
Qed.

End SummarizerFacts.

(** ** The tab that is assigned to *)

Section AssignFacts.

Import Script Json JsonSpec RunSpec NavSpec FrameSpec.

Lemma eq_str_true o s : Py.eq_str o s = true -> o = JStr s.
Proof.
  destruct o; try discriminate. simpl. intros H.
  now apply text_eqb_eq in H as ->.
Qed.

Lemma find_tab_bound items i :
  Nav.find_tab items = Ok (Some i) -> i < length items.
Proof.
  revert i; induction items as [|t items IH]; intros i H; [discriminate|].
  cbn [Nav.find_tab] in H.
  destruct (Py.getitem t (txt "tab")) as [name|e]; [|discriminate].
  cbn [Py.bind] in H. destruct (Py.eq_str name Nav.TAB_NAME).
  - injection H as <-. simpl. lia.
  - destruct (Nav.find_tab items) as [[j|]|e]; try discriminate.
    injection H as <-. specialize (IH j eq_refl). simpl. lia.
Qed.

(** The tab found is the first one of that name, and it is an object. *)
Lemma find_tab_first items i :
  Nav.find_tab items = Ok (Some i) ->
  exists pre td post,
    items = pre ++ JObj td :: post /\ length pre = i /\
    Forall (fun t => Nav.member (txt "tab") t <> JStr Nav.TAB_NAME) pre /\
    Dict.get (txt "tab") td = Some (JStr Nav.TAB_NAME).
Proof.
  revert i; induction items as [|t items IH]; intros i H; [discriminate|].
  cbn [Nav.find_tab] in H.
  destruct (Py.getitem t (txt "tab")) as [name|e] eqn:En; [|discriminate].
  cbn [Py.bind] in H. destruct (Py.eq_str name Nav.TAB_NAME) eqn:Eq.
  - injection H as <-. apply eq_str_true in Eq as ->.
    destruct t as [| | | | |td]; try discriminate.
    exists [], td, items. repeat split; [constructor|].
    cbn [Py.getitem] in En. destruct (Dict.get (txt "tab") td); congruence.
  - destruct (Nav.find_tab items) as [[j|]|e] eqn:Ef; try discriminate.
    injection H as <-. destruct (IH j eq_refl) as [pre [td [post [E [L [F G]]]]]].
    exists (t :: pre), td, post. subst items. repeat split.
    + simpl. now rewrite L.
    + constructor; [|exact F]. rewrite (getitem_member _ _ En).
      intros ->. unfold Py.eq_str in Eq. now rewrite text_eqb_refl in Eq.
    + exact G.
Qed.

(** What a document in which the tab is found looks like. *)
Lemma locate_tab_shape docs_data i api_tab :
  Nav.locate_tab docs_data = Ok (Some (i, api_tab)) ->
  exists dd nd items,
    docs_data = JObj dd /\
    Dict.get (txt "navigation") dd = Some (JObj nd) /\
    Dict.get (txt "tabs") nd = Some (JArr items) /\
    Nav.find_tab items = Ok (Some i) /\
    api_tab = nth i items JNull.
Proof.
  unfold Nav.locate_tab. intros H.
  destruct (Py.getitem docs_data (txt "navigation")) as [navigation|] eqn:E1;
    [|discriminate].
  cbn [Py.bind] in H.
  destruct (Py.getitem navigation (txt "tabs")) as [tabs|] eqn:E2;
    [|discriminate].
  cbn [Py.bind] in H.
  destruct (Py.iter tabs) as [items|] eqn:E3; [|discriminate].
  cbn [Py.bind] in H.
  destruct (Nav.find_tab items) as [[j|]|] eqn:E4; try discriminate.
  injection H as -> <-.
  rewrite (find_tab_some_list _ E3 E4) in *. clear E3.
  destruct docs_data as [| | | | |dd]; try discriminate.
  destruct navigation as [| | | | |nd]; try discriminate.
  exists dd, nd, items. cbn [Py.getitem] in E1, E2.
  destruct (Dict.get (txt "navigation") dd); [|discriminate].
  destruct (Dict.get (txt "tabs") nd); [|discriminate].
  repeat split; congruence.
Qed.

Lemma assign_groups_shape dd nd items i g :
  Dict.get (txt "navigation") dd = Some (JObj nd) ->
  Dict.get (txt "tabs") nd = Some (JArr items) ->
  Nav.assign_groups i g (JObj dd) =
  JObj (Dict.set (txt "navigation")
          (JObj (Dict.set (txt "tabs")
                   (JArr (Nav.set_nth i
                            (Nav.set_member (txt "groups") g (nth i items JNull))
                            items)) nd)) dd).
Proof.
  intros H1 H2. unfold Nav.assign_groups. cbn [Nav.member].
  rewrite H1. cbn [Nav.member]. rewrite H2. reflexivity.
Qed.

Lemma dict_set_set {A} k (v v' : A) d :
  Dict.set k v' (Dict.set k v d) = Dict.set k v' d.
Proof.
  induction d as [|[k0 v0] d IH]; cbn.
  - now rewrite text_eqb_refl.
  - destruct (Text.eqb k k0) eqn:E; cbn; rewrite E; [reflexivity|].
    now rewrite IH.
Qed.

Lemma set_nth_set_nth {A} i (x y : A) l :
  Nav.set_nth i x (Nav.set_nth i y l) = Nav.set_nth i x l.
Proof.
  revert i; induction l as [|z l IH]; intros i; [now destruct i|].
  destruct i; cbn; [reflexivity | now rewrite IH].
Qed.

Lemma nth_set_nth i (x : json) l :
  i < length l -> nth i (Nav.set_nth i x l) JNull = x.
Proof.
  revert i; induction l as [|z l IH]; intros i H; [simpl in H; lia|].
  destruct i; cbn; [reflexivity|]. apply IH. simpl in H. lia.
Qed.

Lemma set_nth_split {A} i (x : A) pre y post :
  length pre = i ->
  Nav.set_nth i x (pre ++ y :: post) = pre ++ x :: post.
Proof.
  revert i; induction pre as [|z pre IH]; intros i H; subst i; [reflexivity|].
  cbn. now rewrite IH.
Qed.

Lemma nth_split_at (pre : list json) y post :
  nth (length pre) (pre ++ y :: post) JNull = y.
Proof. induction pre; [reflexivity | exact IHpre]. Qed.

Lemma set_member_set_member k v v' o :
  Nav.set_member k v' (Nav.set_member k v o) = Nav.set_member k v' o.
Proof. destruct o; try reflexivity. cbn. now rewrite dict_set_set. Qed.

(** In the document that an assignment gives, the tab is found at the same
    place, with the groups assigned. *)
Lemma locate_tab_assign docs_data i api_tab g :
  Nav.locate_tab docs_data = Ok (Some (i, api_tab)) ->
  Nav.locate_tab (Nav.assign_groups i g docs_data) =
  Ok (Some (i, Nav.set_member (txt "groups") g api_tab)).
Proof.
  intros H.
  destruct (@locate_tab_shape _ _ _ H) as [dd [nd [items [-> [H1 [H2 [H3 ->]]]]]]].
  rewrite (@assign_groups_shape dd nd items i g H1 H2).
  destruct (@find_tab_set_groups items i g H3) as [F1 [F2 _]]. cbv zeta in *.
  unfold Nav.locate_tab. cbn [Py.getitem].
  rewrite dict_get_set_same. cbn [Py.bind Py.getitem].
  rewrite dict_get_set_same. cbn [Py.bind Py.iter].
  rewrite F1. cbn [Py.bind]. now rewrite F2.
Qed.

(** A second assignment to the tab overrides the first. *)
Lemma assign_groups_assign docs_data i api_tab g g' :
  Nav.locate_tab docs_data = Ok (Some (i, api_tab)) ->
  Nav.assign_groups i g' (Nav.assign_groups i g docs_data) =
  Nav.assign_groups i g' docs_data.
Proof.
  intros H.
  destruct (@locate_tab_shape _ _ _ H) as [dd [nd [items [-> [H1 [H2 [H3 ->]]]]]]].
  rewrite (@assign_groups_shape dd nd items i g H1 H2).
  rewrite (@assign_groups_shape _ (Dict.set (txt "tabs")
             (JArr (Nav.set_nth i
                (Nav.set_member (txt "groups") g (nth i items JNull)) items)) nd)
             (Nav.set_nth i
                (Nav.set_member (txt "groups") g (nth i items JNull)) items));
    [| apply dict_get_set_same | apply dict_get_set_same].
  rewrite !dict_set_set, set_nth_set_nth.
  rewrite nth_set_nth by now apply find_tab_bound.
  rewrite set_member_set_member. symmetry.
  now apply assign_groups_shape.
Qed.

End AssignFacts.

(** ** The files after a run *)

Section OutcomeFacts.

Import Script Json JsonSpec RunSpec NavSpec FrameSpec Outcome.

Lemma update_files w c docs_data :
  docs_json (fs w) = Some c ->
  Json.load c = Some docs_data ->
  fs (snd (UpdateDocs.main w)) = after (update_writes docs_data (fs w)) docs_data (fs w).
Proof.
  intros Hd Hl. rewrite (update_run _ Hd Hl). cbv zeta.
  unfold update_writes, after.
  destruct (nav_json (fs w)) as [nc|]; [|reflexivity].
  destruct (Json.load nc) as [endpoint_nav|]; [|reflexivity].
  destruct (Py.len endpoint_nav) as [n|e] eqn:En.
  - destruct (Nav.locate_tab docs_data) as [[[i api_tab]|]|e];
      try (destruct endpoint_nav; reflexivity).
    destruct endpoint_nav; try reflexivity.
    cbn [Py.cons_list]. now rewrite keeps_files_update_report.
  - destruct endpoint_nav; try reflexivity; discriminate.
Qed.

Lemma accordion_files w c docs_data :
  docs_json (fs w) = Some c ->
  Json.load c = Some docs_data ->
  fs (snd (Accordion.create_accordion_navigation w)) =
  after (accordion_writes docs_data) docs_data (fs w).
Proof.
  intros Hd Hl. rewrite (accordion_run _ Hd Hl). cbv zeta.
  unfold accordion_writes, after.
  destruct (Nav.locate_tab docs_data) as [[[i api_tab]|]|e]; try reflexivity.
  destruct (accordion_groups api_tab); reflexivity.
Qed.

Lemma service_files w c docs_data :
  docs_json (fs w) = Some c ->
  Json.load c = Some docs_data ->
  fs (snd (Service.organize_with_service_groups w)) =
  after (service_writes docs_data) docs_data (fs w).
Proof.
  intros Hd Hl. rewrite (service_run _ Hd Hl). cbv zeta.
  unfold service_writes, after.
  destruct (Nav.locate_tab docs_data) as [[[i api_tab]|]|e]; try reflexivity.
  destruct (service_level_groups api_tab); [|reflexivity].
  now rewrite keeps_files_service_report.
Qed.

(** Without a document that parses a run stops at once. *)
Lemma unreadable_run w :
  (docs_json (fs w) = None \/
   exists c, docs_json (fs w) = Some c /\ Json.load c = None) ->
  let e := match docs_json (fs w) with
           | None => FileNotFoundError
           | Some _ => JSONDecodeError
           end in
  UpdateDocs.main w = (Raise e, say [Started] w) /\
  Accordion.create_accordion_navigation w = (Raise e, say [Started] w) /\
  Service.organize_with_service_groups w = (Raise e, say [Started] w).
Proof.
  intros [H|[c [H L]]]; rewrite H; cbv zeta;
    unfold UpdateDocs.main, Accordion.create_accordion_navigation,
      Service.organize_with_service_groups; rewrite !bind_print.
  - now rewrite !bind_load_missing by exact H.
  - now rewrite !(@bind_load_malformed DOCS_JSON c) by assumption.
Qed.

Lemma wfb_update_writes docs_data f d :
  wfb docs_data = true -> update_writes docs_data f = Some d -> wfb d = true.
Proof.
  intros W. unfold update_writes.
  destruct (nav_json f) as [nc|]; [|discriminate].
  destruct (Json.load nc) as [[| | | |nav|]|] eqn:L; try discriminate.
  destruct (Nav.locate_tab docs_data) as [[[i api_tab]|]|e]; try discriminate.
  intros H. injection H as <-. apply wfb_assign_groups; [exact W|].
  apply load_wf in L. cbn [wfb] in L |- *. cbn [forallb]. now rewrite L.
Qed.

Lemma wfb_accordion_writes docs_data d :
  wfb docs_data = true -> accordion_writes docs_data = Some d -> wfb d = true.
Proof.
  intros W. unfold accordion_writes.
  destruct (Nav.locate_tab docs_data) as [[[i api_tab]|]|e] eqn:Ht;
    try discriminate.
  destruct (accordion_groups api_tab) as [gs|] eqn:Ha; [|discriminate].
  intros H. injection H as <-. apply wfb_assign_groups; [exact W|].
  cbn [wfb]. eapply wfb_accordion_groups; [|exact Ha].
  now apply (wfb_locate _ W Ht).
Qed.

Lemma wfb_service_writes docs_data d :
  wfb docs_data = true -> service_writes docs_data = Some d -> wfb d = true.
Proof.
  intros W. unfold service_writes.
  destruct (Nav.locate_tab docs_data) as [[[i api_tab]|]|e] eqn:Ht;
    try discriminate.
  destruct (service_level_groups api_tab) as [gs|] eqn:Ha; [|discriminate].
  intros H. injection H as <-. apply wfb_assign_groups; [exact W|].
  cbn [wfb]. eapply wfb_service_level_groups; [|exact Ha].
  now apply (wfb_locate _ W Ht).
Qed.

End OutcomeFacts.

(** ** What the merges keep *)

Section FrameFacts.

Import Script Json JsonSpec RunSpec NavSpec FrameSpec Outcome Sample.

Lemma dict_keys_set k (v : json) d :
  Dict.keys (Dict.set k v d) =
  if existsb (Text.eqb k) (Dict.keys d) then Dict.keys d else Dict.keys d ++ [k].
Proof.
  unfold Dict.keys. induction d as [|[k0 v0] d IH]; [reflexivity|].
  cbn [Dict.set map fst existsb]. destruct (Text.eqb k k0) eqn:E.
  - reflexivity.
  - cbn [orb map fst]. rewrite IH.
    now destruct (existsb (Text.eqb k) (map fst d)).
Qed.

Lemma dict_keys_get k (v : json) d :
  Dict.get k d = Some v -> existsb (Text.eqb k) (Dict.keys d) = true.
Proof.
  unfold Dict.keys. induction d as [|[k0 v0] d IH]; [discriminate|].
  cbn [Dict.get map fst existsb]. destruct (Text.eqb k k0); [reflexivity|].
  exact IH.
Qed.

Lemma assigned_at_set k v d :
  assigned_at k (JObj d) (Nav.set_member k v (JObj d)).
Proof.
  split.
  - intros k' N. cbn. now rewrite dict_get_set_other.
  - apply dict_keys_set.
Qed.

Lemma differs_only_at_set k v x d :
  Dict.get k d = Some x ->
  differs_only_at k (JObj d) (Nav.set_member k v (JObj d)).
Proof.
  intros H. split.
  - intros k' N. cbn. now rewrite dict_get_set_other.
  - cbn [keys_of Nav.set_member]. rewrite dict_keys_set.
    now rewrite (dict_keys_get _ _ H).
Qed.

(** The assignment to the groups of the tab found changes nothing else. *)
Lemma assign_groups_frame docs_data i api_tab g :
  Nav.locate_tab docs_data = Ok (Some (i, api_tab)) ->
  same_configuration docs_data (Nav.assign_groups i g docs_data).
Proof.
  intros H. right.
  destruct (@locate_tab_shape _ _ _ H) as [dd [nd [items [-> [H1 [H2 [H3 ->]]]]]]].
  rewrite (@assign_groups_shape dd nd items i g H1 H2).
  destruct (@find_tab_first items i H3) as [pre [td [post [E [L [F G]]]]]].
  split; [|split].
  - now apply (@differs_only_at_set (txt "navigation") _ (JObj nd) dd).
  - cbn [Nav.member]. rewrite H1, dict_get_set_same.
    now apply (@differs_only_at_set (txt "tabs") _ (JArr items) nd).
  - exists pre, (JObj td),
      (Nav.set_member (txt "groups") g (JObj td)), post.
    unfold tabs_of. cbn [Nav.member]. rewrite H1, dict_get_set_same.
    cbn [Nav.member]. rewrite H2, dict_get_set_same.
    subst items. rewrite <- L, nth_split_at, set_nth_split by reflexivity.
    repeat split; try assumption.
    + cbn [Nav.member]. now rewrite G.
    + intros k' N. cbn [Nav.member Nav.set_member].
      now rewrite dict_get_set_other.
    + apply dict_keys_set.
Qed.

Lemma after_frame written c docs_data f :
  docs_json f = Some c ->
  Json.load c = Some docs_data ->
  (forall d, written = Some d ->
             wfb d = true /\ same_configuration docs_data d) ->
  exists c' d',
    docs_json (after written docs_data f) = Some c' /\
    Json.load c' = Some d' /\
    same_configuration docs_data d'.
Proof.
  intros Hd Hl Hw. unfold after. destruct written as [d|].
  - destruct (Hw d eq_refl) as [W S].
    exists (Json.dump d), d. split; [reflexivity|].
    split; [now apply load_dump | exact S].
  - exists c, docs_data. split; [exact Hd|]. split; [exact Hl | now left].
Qed.

(** X1: each of the three merge operations leaves in [docs.json] a document
    that parses and that is the document read up to the groups of the first
    tab named [API reference]: the keys of the document, of its navigation
    and of that tab are in the order they had (a tab without the key
    [groups] gets it as its last key), and the value of every other key and
    the other tabs are as they were.  This holds whether the run completes
    or raises. *)
Theorem merges_keep_configuration w c docs_data :
  docs_json (fs w) = Some c ->
  Json.load c = Some docs_data ->
  (exists c' d',
      docs_json (fs (snd (UpdateDocs.main w))) = Some c' /\
      Json.load c' = Some d' /\ same_configuration docs_data d') /\
  (exists c' d',
      docs_json (fs (snd (Accordion.create_accordion_navigation w))) = Some c' /\
      Json.load c' = Some d' /\ same_configuration docs_data d') /\
  (exists c' d',
      docs_json (fs (snd (Service.organize_with_service_groups w))) = Some c' /\
      Json.load c' = Some d' /\ same_configuration docs_data d').
Proof.
  intros Hd Hl. pose proof (@load_wf c docs_data Hl) as W.
  rewrite (update_files _ Hd Hl), (accordion_files _ Hd Hl),
    (service_files _ Hd Hl).
  split; [|split]; apply (@after_frame _ _ _ _ Hd Hl); intros d E;
    (split; [eauto using wfb_update_writes, wfb_accordion_writes,
               wfb_service_writes|]).
  - unfold update_writes in E.
    destruct (nav_json (fs w)) as [nc|]; [|discriminate].
    destruct (Json.load nc) as [[| | | |nav|]|]; try discriminate.
    destruct (Nav.locate_tab docs_data) as [[[i api_tab]|]|e] eqn:Ht;
      try discriminate.
    injection E as <-. now apply (@assign_groups_frame _ _ api_tab).
  - unfold accordion_writes in E.
    destruct (Nav.locate_tab docs_data) as [[[i api_tab]|]|e] eqn:Ht;
      try discriminate.
    destruct (accordion_groups api_tab); [|discriminate].
    injection E as <-. now apply (@assign_groups_frame _ _ api_tab).
  - unfold service_writes in E.
    destruct (Nav.locate_tab docs_data) as [[[i api_tab]|]|e] eqn:Ht;
      try discriminate.
    destruct (service_level_groups api_tab); [|discriminate].
    injection E as <-. now apply (@assign_groups_frame _ _ api_tab).
Qed.

Lemma merges_keep_configuration_witness :
  (exists c' d',
      docs_json (fs (snd (UpdateDocs.main world1))) = Some c' /\
      Json.load c' = Some d' /\ same_configuration docs d') /\
  (exists c' d',
      docs_json (fs (snd (Accordion.create_accordion_navigation world1))) = Some c' /\
      Json.load c' = Some d' /\ same_configuration docs d') /\
  (exists c' d',
      docs_json (fs (snd (Service.organize_with_service_groups world1))) = Some c' /\
      Json.load c' = Some d' /\ same_configuration docs d').
Proof.
  apply (@merges_keep_configuration world1 (Json.dump docs) docs).
  - reflexivity.
  - vm_compute. reflexivity.
Defined.

End FrameFacts.

(** ** Running an operation again *)

Section RerunFacts.

Import Script Json JsonSpec RunSpec NavSpec FrameSpec Outcome Sample.

Lemma after_docs written docs_data f :
  docs_json (after written docs_data f) =
  match written with
  | Some d => Some (Json.dump d)
  | None => docs_json f
  end.
Proof. now destruct written. Qed.

Lemma after_nav written docs_data f :
  nav_json (after written docs_data f) = nav_json f.
Proof. now destruct written. Qed.

Lemma after_backup written docs_data f :
  backup_json (after written docs_data f) = Some (Json.dump docs_data).
Proof. now destruct written. Qed.

Lemma update_writes_again docs_data f f' d :
  nav_json f' = nav_json f ->
  update_writes docs_data f = Some d ->
  update_writes d f' = Some d.
Proof.
  intros N. unfold update_writes. rewrite N.
  destruct (nav_json f) as [nc|]; [|discriminate].
  destruct (Json.load nc) as [[| | | |nav|]|]; try discriminate.
  destruct (Nav.locate_tab docs_data) as [[[i api_tab]|]|e] eqn:Ht;
    try discriminate.
  intros H. injection H as <-.
  rewrite (@locate_tab_assign docs_data i api_tab _ Ht).
  now rewrite (@assign_groups_assign docs_data i api_tab _ _ Ht).
Qed.

(** X2: a second run of the full replacement writes the document that the
    first run left, byte for byte. *)
Theorem update_twice_same_document w :
  docs_json (fs (snd (UpdateDocs.main (snd (UpdateDocs.main w))))) =
  docs_json (fs (snd (UpdateDocs.main w))).
Proof.
  destruct (docs_json (fs w)) as [c|] eqn:Hd.
  - destruct (Json.load c) as [docs_data|] eqn:Hl.
    + pose proof (@load_wf c docs_data Hl) as W.
      pose proof (@update_files _ _ _ Hd Hl) as F1.
      destruct (update_writes docs_data (fs w)) as [d|] eqn:E.
      * pose proof (@wfb_update_writes _ _ _ W E) as Wd.
        assert (Hd1 : docs_json (fs (snd (UpdateDocs.main w))) = Some (Json.dump d))
          by now rewrite F1.
        rewrite (@update_files _ _ _ Hd1 (@load_dump _ Wd)).
        rewrite (@update_writes_again docs_data (fs w) _ d); [| |exact E].
        -- now rewrite after_docs.
        -- now rewrite F1, after_nav.
      * assert (Hd1 : docs_json (fs (snd (UpdateDocs.main w))) = Some c)
          by now rewrite F1.
        rewrite (@update_files _ _ _ Hd1 Hl).
        assert (E1 : update_writes docs_data (fs (snd (UpdateDocs.main w))) = None).
        { unfold update_writes in *. now rewrite F1, after_nav. }
        rewrite E1, after_docs. reflexivity.
    + destruct (@unreadable_run w) as [U _];
        [right; now exists c|]. rewrite Hd in U. cbv zeta in U. rewrite U.
      cbn [snd]. destruct (@unreadable_run (say [Started] w)) as [U' _];
        [right; now exists c|].
      cbn [say fs] in U'. rewrite Hd in U'. cbv zeta in U'. now rewrite U'.
  - destruct (@unreadable_run w) as [U _]; [now left|].
    rewrite Hd in U. cbv zeta in U. rewrite U. cbn [snd].
    destruct (@unreadable_run (say [Started] w)) as [U' _]; [now left|].
    cbn [say fs] in U'. rewrite Hd in U'. cbv zeta in U'. now rewrite U'.
Qed.

Lemma length_categorize_endpoints pages :
  length (Icons.categorize_endpoints pages) <= 5.
Proof.
  rewrite categorize_endpoints_spec.
  etransitivity; [apply filter_length_le|]. now rewrite length_map.
Qed.

(** A group that the accordion regrouping gives is left as it is by the
    regrouping. *)
Lemma accordion_group_fixed g g' :
  Accordion.accordion_group g = Ok g' -> Accordion.accordion_group g' = Ok g'.
Proof.
  unfold Accordion.accordion_group at 1.
  destruct (Py.getitem g (txt "group")) as [name|] eqn:En; [|discriminate].
  cbn [Py.bind].
  destruct (Py.getitem g (txt "pages")) as [pages|] eqn:Ep; [|discriminate].
  cbn [Py.bind]. destruct (Py.len pages) as [n|] eqn:El; [|discriminate].
  cbn [Py.bind]. destruct (10 <? n) eqn:Lt.
  - destruct (Py.iter pages) as [items|]; [|discriminate]. cbn [Py.bind].
    destruct (Py.mapM Py.as_str items) as [names|]; [|discriminate].
    cbn [Py.bind]. intros H. injection H as <-.
    unfold Accordion.accordion_group, Accordion.group_of.
    cbn [Py.getitem Dict.get]. rewrite !text_eqb_refl.
    change (Text.eqb (txt "pages") (txt "group")) with false.
    cbn [Py.bind Py.len]. rewrite length_map.
    pose proof (length_categorize_endpoints names) as L.
    destruct (10 <? length (Icons.categorize_endpoints names)) eqn:B;
      [apply Nat.ltb_lt in B; lia | reflexivity].
  - intros H. injection H as <-. unfold Accordion.accordion_group.
    rewrite En, Ep. cbn [Py.bind]. rewrite El. cbn [Py.bind]. now rewrite Lt.
Qed.

Lemma accordion_mapM_fixed gs gs' :
  Py.mapM Accordion.accordion_group gs = Ok gs' ->
  Py.mapM Accordion.accordion_group gs' = Ok gs'.
Proof.
  revert gs'; induction gs as [|g gs IH]; intros gs' H.
  - now injection H as <-.
  - cbn [Py.mapM] in H.
    destruct (Accordion.accordion_group g) as [g'|] eqn:E; [|discriminate].
    cbn [Py.bind] in H.
    destruct (Py.mapM Accordion.accordion_group gs) as [l|]; [|discriminate].
    injection H as <-. cbn [Py.mapM].
    now rewrite (@accordion_group_fixed _ _ E), (IH l eq_refl).
Qed.

Lemma getitem_is_object o k v : Py.getitem o k = Ok v -> exists d, o = JObj d.
Proof. destruct o; try discriminate. now eexists. Qed.

Lemma accordion_writes_again docs_data d :
  accordion_writes docs_data = Some d -> accordion_writes d = Some d.
Proof.
  unfold accordion_writes at 1.
  destruct (Nav.locate_tab docs_data) as [[[i api_tab]|]|e] eqn:Ht;
    try discriminate.
  destruct (accordion_groups api_tab) as [gs|] eqn:Ha; [|discriminate].
  intros H. injection H as <-. unfold accordion_writes.
  rewrite (@locate_tab_assign docs_data i api_tab _ Ht).
  assert (Hg : accordion_groups
                 (Nav.set_member (txt "groups") (JArr gs) api_tab) = Ok gs).
  { unfold accordion_groups in Ha |- *.
    destruct (Py.getitem api_tab (txt "groups")) as [groups|] eqn:Eg;
      [|discriminate].
    destruct (@getitem_is_object _ _ _ Eg) as [td ->].
    rewrite (@getitem_set_same _ _ _ td eq_refl).
    cbn [Py.bind] in Ha |- *.
    destruct (Py.slice_from1 groups) as [rest|]; [|discriminate].
    cbn [Py.bind] in Ha. destruct (Py.iter rest) as [items|]; [|discriminate].
    cbn [Py.bind] in Ha.
    destruct (Py.mapM Accordion.accordion_group items) as [regrouped|] eqn:Em;
      [|discriminate].
    injection Ha as <-. cbn [Py.slice_from1 tl Py.bind Py.iter].
    now rewrite (@accordion_mapM_fixed _ _ Em). }
  rewrite Hg. now rewrite (@assign_groups_assign docs_data i api_tab _ _ Ht).
Qed.

(** X3: a second run of the accordion regrouping writes the document that the
    first run left, byte for byte: groups that were regrouped are not
    regrouped again. *)
Theorem accordion_twice_same_document w :
  docs_json (fs (snd (Accordion.create_accordion_navigation
                        (snd (Accordion.create_accordion_navigation w))))) =
  docs_json (fs (snd (Accordion.create_accordion_navigation w))).
Proof.
  destruct (docs_json (fs w)) as [c|] eqn:Hd.
  - destruct (Json.load c) as [docs_data|] eqn:Hl.
    + pose proof (@load_wf c docs_data Hl) as W.
      pose proof (@accordion_files _ _ _ Hd Hl) as F1.
      destruct (accordion_writes docs_data) as [d|] eqn:E.
      * pose proof (@wfb_accordion_writes _ _ W E) as Wd.
        assert (Hd1 : docs_json (fs (snd (Accordion.create_accordion_navigation w)))
                      = Some (Json.dump d)) by now rewrite F1.
        rewrite (@accordion_files _ _ _ Hd1 (@load_dump _ Wd)).
        rewrite (@accordion_writes_again _ _ E). now rewrite after_docs.
      * assert (Hd1 : docs_json (fs (snd (Accordion.create_accordion_navigation w)))
                      = Some c) by now rewrite F1.
        rewrite (@accordion_files _ _ _ Hd1 Hl). rewrite E, after_docs. reflexivity.
    + destruct (@unreadable_run w) as [_ [U _]];
        [right; now exists c|]. rewrite Hd in U. cbv zeta in U. rewrite U.
      cbn [snd]. destruct (@unreadable_run (say [Started] w)) as [_ [U' _]];
        [right; now exists c|].
      cbn [say fs] in U'. rewrite Hd in U'. cbv zeta in U'. now rewrite U'.
  - destruct (@unreadable_run w) as [_ [U _]]; [now left|].
    rewrite Hd in U. cbv zeta in U. rewrite U. cbn [snd].
    destruct (@unreadable_run (say [Started] w)) as [_ [U' _]]; [now left|].
    cbn [say fs] in U'. rewrite Hd in U'. cbv zeta in U'. now rewrite U'.
Qed.

End RerunFacts.

(** ** The service-level regrouping, run again and counted *)

Section ServiceMore.

Import Script Json JsonSpec RunSpec NavSpec FrameSpec Outcome Sample Service.

(** Of the service names only [Integrations] is in the table as a member
    (of the service of that name). *)
Lemma bucket_names_classified s :
  In s BUCKETS ->
  categorize_group (JStr s) =
  if Text.eqb s (txt "Integrations") then txt "Integrations" else OTHER_SERVICES.
Proof.
  intros H. unfold BUCKETS in H. simpl in H.
  repeat (destruct H as [<-|H]; [vm_compute; reflexivity|]). destruct H.
Qed.

Lemma flat_map_filter {A B} (p : A -> bool) (f : A -> list B) l :
  (forall a, In a l -> p a = false -> f a = []) ->
  flat_map f l = flat_map f (filter p l).
Proof.
  induction l as [|a l IH]; intros H; [reflexivity|].
  cbn [flat_map filter]. rewrite IH by (intros b Hb; apply H; now right).
  destruct (p a) eqn:E; [reflexivity|].
  now rewrite (H a (or_introl eq_refl) E).
Qed.

Lemma filter_none {A} (f : A -> bool) l :
  (forall a, In a l -> f a = false) -> filter f l = [].
Proof.
  induction l as [|a l IH]; intros H; [reflexivity|].
  cbn [filter]. rewrite (H a (or_introl eq_refl)), IH; [reflexivity|].
  intros b Hb. apply H. now right.
Qed.

(** How the service groups that were built are classified themselves. *)
Lemma built_groups_classified gs g :
  In g (flat_map (emit_bucket gs) BUCKETS) ->
  has_name g /\
  (service_of g = txt "Integrations" \/ service_of g = OTHER_SERVICES) /\
  (name_of g <> JStr (txt "Integrations") -> service_of g = OTHER_SERVICES).
Proof.
  intros H. apply in_flat_map in H as [s [Hs Hg]]. unfold emit_bucket in Hg.
  destruct (bucket s gs) eqn:E; [destruct Hg|]. destruct Hg as [<-|[]].
  split; [now eexists|].
  change (service_of (Accordion.group_of (JStr s) (j :: l)))
    with (categorize_group (JStr s)).
  change (name_of (Accordion.group_of (JStr s) (j :: l))) with (JStr s).
  rewrite (@bucket_names_classified s Hs).
  destruct (Text.eqb s (txt "Integrations")) eqn:Q.
  - split; [now left|]. apply text_eqb_eq in Q as ->. intros N. now destruct N.
  - split; [now right | reflexivity].
Qed.

Lemma built_nonempty gs :
  gs <> [] -> flat_map (emit_bucket gs) BUCKETS <> [].
Proof.
  intros N E. apply N. apply Permutation_nil.
  rewrite <- (service_groups_permutation gs), <- pages_of_buckets, E.
  reflexivity.
Qed.

(** The service groups of service groups: at most a group [Integrations]
    and a sentinel group. *)
Lemma service_groups_of_services gs :
  let built := flat_map (emit_bucket gs) BUCKETS in
  service_groups built =
  Ok (flat_map (emit_bucket built) [txt "Integrations"; OTHER_SERVICES]).
Proof.
  intros built.
  assert (U : forall g, In g built ->
              has_name g /\
              (service_of g = txt "Integrations" \/ service_of g = OTHER_SERVICES) /\
              (name_of g <> JStr (txt "Integrations") ->
               service_of g = OTHER_SERVICES))
    by apply built_groups_classified.
  rewrite service_groups_spec by (apply Forall_forall; intros g Hg; now apply U).
  rewrite (@flat_map_filter _ _
             (fun s => Text.eqb s (txt "Integrations") || Text.eqb s OTHER_SERVICES)).
  - reflexivity.
  - intros s _ Hp. apply orb_false_iff in Hp as [P1 P2].
    unfold emit_bucket, bucket. rewrite filter_none; [reflexivity|].
    intros g Hg. destruct (U g Hg) as [_ [[->| ->] _]];
      now rewrite text_eqb_sym.
Qed.

(** X4: running the service-level regrouping a second time does not leave the
    tab as the first run wrote it.  The second run classifies the service
    groups of the first run by their names, and of these only
    [Integrations] is in the table: after the second run the tab holds,
    behind its element 0, at most a group [Integrations] and a group
    [Other Services], and the service groups of the first run are their
    children. *)
Theorem service_twice_nests_services w c docs_data i api_tab intro_group gs :
  docs_json (fs w) = Some c ->
  Json.load c = Some docs_data ->
  Nav.locate_tab docs_data = Ok (Some (i, api_tab)) ->
  Py.getitem api_tab (txt "groups") = Ok (JArr (intro_group :: gs)) ->
  Forall has_name gs ->
  exists built,
    service_groups gs = Ok built /\
    persisted_groups (snd (organize_with_service_groups w))
      = Some (JArr (intro_group :: built)) /\
    persisted_groups
      (snd (organize_with_service_groups (snd (organize_with_service_groups w))))
      = Some (JArr (intro_group ::
                    flat_map (emit_bucket built)
                      [txt "Integrations"; OTHER_SERVICES])) /\
    Forall (fun g => name_of g <> JStr (txt "Integrations") ->
                     service_of g = OTHER_SERVICES) built /\
    (gs <> [] -> built <> []).
Proof.
  intros Hd Hl Ht Hg Hn.
  pose proof (service_groups_spec Hn) as Hs.
  pose proof (@load_wf c docs_data Hl) as W.
  set (built := flat_map (emit_bucket gs) BUCKETS) in *.
  set (built2 := flat_map (emit_bucket built) [txt "Integrations"; OTHER_SERVICES]).
  assert (Ha : service_level_groups api_tab = Ok (intro_group :: built)).
  { unfold service_level_groups. rewrite Hg.
    cbn [Py.bind Py.first_item Py.slice_from1 Py.iter tl]. now rewrite Hs. }
  set (d1 := Nav.assign_groups i (JArr (intro_group :: built)) docs_data).
  assert (E1 : service_writes docs_data = Some d1).
  { unfold service_writes. now rewrite Ht, Ha. }
  pose proof (@wfb_service_writes _ _ W E1) as W1.
  pose proof (@service_files _ _ _ Hd Hl) as F1. rewrite E1 in F1.
  assert (Hd1 : docs_json (fs (snd (organize_with_service_groups w)))
                = Some (Json.dump d1)) by now rewrite F1.
  pose proof (@locate_tab_assign docs_data i api_tab
                (JArr (intro_group :: built)) Ht) as Ht1.
  fold d1 in Ht1.
  destruct (@getitem_is_object _ _ _ Hg) as [td Etd].
  assert (Ha1 : service_level_groups
                  (Nav.set_member (txt "groups") (JArr (intro_group :: built)) api_tab)
                = Ok (intro_group :: built2)).
  { unfold service_level_groups.
    rewrite (@getitem_set_same _ _ _ td Etd).
    cbn [Py.bind Py.first_item Py.slice_from1 Py.iter tl].
    unfold built. now rewrite (service_groups_of_services gs). }
  set (d2 := Nav.assign_groups i (JArr (intro_group :: built2)) d1).
  assert (E2 : service_writes d1 = Some d2).
  { unfold service_writes. now rewrite Ht1, Ha1. }
  pose proof (@service_files _ _ _ Hd1 (@load_dump _ W1)) as F2.
  rewrite E2 in F2.
  exists built. split; [exact Hs|]. split; [|split; [|split]].
  - eapply written_reads_back; [exact Hd1 | exact W1 |].
    now apply (@tab_groups_assign docs_data i api_tab).
  - eapply written_reads_back.
    + rewrite F2. reflexivity.
    + now apply (@wfb_service_writes _ _ W1 E2).
    + unfold d2. eapply tab_groups_assign. exact Ht1.
  - apply Forall_forall. intros g Hg'.
    now apply (@built_groups_classified gs).
  - apply built_nonempty.
Qed.

Lemma service_twice_nests_services_witness :
  exists built,
    service_groups [camera; webhooks; door] = Ok built /\
    persisted_groups (snd (organize_with_service_groups world1))
      = Some (JArr (overview :: built)) /\
    persisted_groups
      (snd (organize_with_service_groups (snd (organize_with_service_groups world1))))
      = Some (JArr (overview ::
                    flat_map (emit_bucket built)
                      [txt "Integrations"; OTHER_SERVICES])) /\
    Forall (fun g => name_of g <> JStr (txt "Integrations") ->
                     service_of g = OTHER_SERVICES) built /\
    ([camera; webhooks; door] <> [] -> built <> []).
Proof.
  apply (@service_twice_nests_services world1 (Json.dump docs) docs 1
           (tab_of "API reference" [overview; camera; webhooks; door])
           overview [camera; webhooks; door]).
  - reflexivity.
  - vm_compute. reflexivity.
  - reflexivity.
  - reflexivity.
  - repeat constructor; eexists; reflexivity.
Defined.

End ServiceMore.

(** ** Runs that stop early *)

Section FailureFacts.

Import Script Json JsonSpec RunSpec NavSpec FrameSpec Outcome Sample.

(** A text without a value is refused. *)
Lemma no_value_load c : no_value c = true -> Json.load c = None.
Proof.
  unfold no_value, Json.load.
  destruct (Json.skip_ws c) as [|ch r]; [reflexivity|].
  intros H. apply negb_true_iff in H. unfold starts_value in H.
  apply orb_false_iff in H as [H Hdigit].
  apply orb_false_iff in H as [H Hminus].
  apply orb_false_iff in H as [H _].
  apply orb_false_iff in H as [H _].
  apply orb_false_iff in H as [H Hf].
  apply orb_false_iff in H as [H Ht].
  apply orb_false_iff in H as [H Hn].
  apply orb_false_iff in H as [H Hbracket].
  apply orb_false_iff in H as [Hquote Hbrace].
  assert (Hzero : Text.ascii_eqb ch "0" = false).
  { apply ascii_eqb_neq. intros ->. discriminate. }
  cbn [Json.scan_value]. rewrite Hquote, Hbrace, Hbracket.
  unfold Text.startswith, txt. cbn [list_ascii_of_string].
  unfold Text.ascii_eqb in *.
  rewrite (Ascii.eqb_sym "n" ch), (Ascii.eqb_sym "t" ch),
    (Ascii.eqb_sym "f" ch), Hn, Ht, Hf.
  cbn [andb]. unfold Json.scan_number, Json.scan_unsigned.
  unfold Text.ascii_eqb. now rewrite Hminus, Hzero, Hdigit.
Qed.

(** X5: when [docs.json] is missing, or holds no JSON value (it is empty
    or blank, or starts with a character that cannot start a value), each
    of the three merge operations raises ([FileNotFoundError],
    [JSONDecodeError]) before it writes anything: no backup is made, and
    every file is as it was. *)
Theorem unreadable_document_stops_run w :
  (docs_json (fs w) = None \/
   exists c, docs_json (fs w) = Some c /\ no_value c = true) ->
  let e := match docs_json (fs w) with
           | None => FileNotFoundError
           | Some _ => JSONDecodeError
           end in
  (fst (UpdateDocs.main w) = Raise e /\
   fs (snd (UpdateDocs.main w)) = fs w) /\
  (fst (Accordion.create_accordion_navigation w) = Raise e /\
   fs (snd (Accordion.create_accordion_navigation w)) = fs w) /\
  (fst (Service.organize_with_service_groups w) = Raise e /\
   fs (snd (Service.organize_with_service_groups w)) = fs w).
Proof.
  intros H.
  assert (H' : docs_json (fs w) = None \/
               exists c, docs_json (fs w) = Some c /\ Json.load c = None).
  { destruct H as [H|[c [H N]]]; [now left|].
    right. exists c. split; [exact H | now apply no_value_load]. }
  destruct (@unreadable_run w H') as [U [A S]]. cbv zeta in *.
  rewrite U, A, S. repeat split.
Qed.

Lemma unreadable_document_stops_run_witness :
  ((fst (UpdateDocs.main (world_of None None)) = Raise FileNotFoundError /\
    fs (snd (UpdateDocs.main (world_of None None))) = fs (world_of None None)) /\
   (fst (Accordion.create_accordion_navigation (world_of None None))
      = Raise FileNotFoundError /\
    fs (snd (Accordion.create_accordion_navigation (world_of None None)))
      = fs (world_of None None)) /\
   (fst (Service.organize_with_service_groups (world_of None None))
      = Raise FileNotFoundError /\
    fs (snd (Service.organize_with_service_groups (world_of None None)))
      = fs (world_of None None))) /\
  ((fst (UpdateDocs.main Sample2.world_not_json) = Raise JSONDecodeError /\
    fs (snd (UpdateDocs.main Sample2.world_not_json))
      = fs Sample2.world_not_json) /\
   (fst (Accordion.create_accordion_navigation Sample2.world_not_json)
      = Raise JSONDecodeError /\
    fs (snd (Accordion.create_accordion_navigation Sample2.world_not_json))
      = fs Sample2.world_not_json) /\
   (fst (Service.organize_with_service_groups Sample2.world_not_json)
      = Raise JSONDecodeError /\
    fs (snd (Service.organize_with_service_groups Sample2.world_not_json))
      = fs Sample2.world_not_json)).
Proof.
  split.
  - apply (@unreadable_document_stops_run (world_of None None)).
    left. reflexivity.
  - apply (@unreadable_document_stops_run Sample2.world_not_json).
    right. eexists. split; reflexivity.
Defined.

(** X6: a document that [json.dump] wrote with an indent of two, as the merge
    operations write it, is backed up byte for byte. *)
Theorem backup_copies_written_document w docs_data :
  wfb docs_data = true ->
  docs_json (fs w) = Some (Json.dump docs_data) ->
  backup_json (fs (snd (UpdateDocs.main w))) = docs_json (fs w) /\
  backup_json (fs (snd (Accordion.create_accordion_navigation w)))
    = docs_json (fs w) /\
  backup_json (fs (snd (Service.organize_with_service_groups w)))
    = docs_json (fs w).
Proof.
  intros W Hd. pose proof (@load_dump _ W) as Hl.
  rewrite (@update_files _ _ _ Hd Hl), (@accordion_files _ _ _ Hd Hl),
    (@service_files _ _ _ Hd Hl), !after_backup. now rewrite Hd.
Qed.

Lemma backup_copies_written_document_witness :
  backup_json (fs (snd (UpdateDocs.main world1))) = docs_json (fs world1) /\
  backup_json (fs (snd (Accordion.create_accordion_navigation world1)))
    = docs_json (fs world1) /\
  backup_json (fs (snd (Service.organize_with_service_groups world1)))
    = docs_json (fs world1).
Proof.
  apply (@backup_copies_written_document world1 docs).
  - reflexivity.
  - reflexivity.
Defined.

(** X7: when [_navigation.json] is missing, holds no JSON value, or holds
    a value that is not a list, the full replacement leaves [docs.json] as
    it was, having written the backup; and it returns normally only when
    it did not find the tab. *)
Theorem update_needs_navigation_list w c docs_data :
  docs_json (fs w) = Some c ->
  Json.load c = Some docs_data ->
  (nav_json (fs w) = None \/
   (exists nc, nav_json (fs w) = Some nc /\ no_value nc = true) \/
   (exists nc v, nav_json (fs w) = Some nc /\ Json.load nc = Some v /\
                 forall endpoint_nav, v <> JArr endpoint_nav)) ->
  docs_json (fs (snd (UpdateDocs.main w))) = Some c /\
  backup_json (fs (snd (UpdateDocs.main w))) = Some (Json.dump docs_data) /\
  (fst (UpdateDocs.main w) = Ok tt -> Nav.locate_tab docs_data = Ok None).
Proof.
  intros Hd Hl H.
  assert (Hn : forall nc endpoint_nav,
             nav_json (fs w) = Some nc ->
             Json.load nc <> Some (JArr endpoint_nav)).
  { intros nc l En El. destruct H as [H|[[nc' [H N]]|[nc' [v [H [L Hv]]]]]].
    - congruence.
    - rewrite En in H. injection H as <-.
      apply no_value_load in N. congruence.
    - rewrite En in H. injection H as <-. rewrite El in L.
      injection L as <-. now apply (Hv l). }
  clear H.
  assert (E : update_writes docs_data (fs w) = None).
  { unfold update_writes. destruct (nav_json (fs w)) as [nc|]; [|reflexivity].
    specialize (Hn nc).
    destruct (Json.load nc) as [[| | | |nav|]|]; try reflexivity.
    now destruct (Hn nav eq_refl). }
  rewrite (@update_files _ _ _ Hd Hl), E, after_docs, after_backup.
  split; [exact Hd|]. split; [reflexivity|].
  rewrite (update_run _ Hd Hl). cbv zeta.
  destruct (nav_json (fs w)) as [nc|]; [|discriminate].
  specialize (Hn nc).
  destruct (Json.load nc) as [nav|]; [|discriminate].
  destruct (Py.len nav) as [n|e]; [|discriminate].
  destruct (Nav.locate_tab docs_data) as [[[i api_tab]|]|e];
    [|reflexivity|discriminate].
  destruct nav; try discriminate. now destruct (Hn items eq_refl).
Qed.

Lemma update_needs_navigation_list_witness :
  (docs_json (fs (snd (UpdateDocs.main Sample2.world_nav_object)))
     = Some (Json.dump docs) /\
   backup_json (fs (snd (UpdateDocs.main Sample2.world_nav_object)))
     = Some (Json.dump docs) /\
   (fst (UpdateDocs.main Sample2.world_nav_object) = Ok tt ->
    Nav.locate_tab docs = Ok None)) /\
  (docs_json (fs (snd (UpdateDocs.main Sample2.world_nav_blank)))
     = Some (Json.dump docs) /\
   backup_json (fs (snd (UpdateDocs.main Sample2.world_nav_blank)))
     = Some (Json.dump docs) /\
   (fst (UpdateDocs.main Sample2.world_nav_blank) = Ok tt ->
    Nav.locate_tab docs = Ok None)).
Proof.
  split.
  - apply (@update_needs_navigation_list
             Sample2.world_nav_object (Json.dump docs) docs).
    + reflexivity.
    + vm_compute. reflexivity.
    + right. right. exists (txt "{}"), (JObj []).
      split; [reflexivity|]. split; [reflexivity|]. intros l H. discriminate H.
  - apply (@update_needs_navigation_list
             Sample2.world_nav_blank (Json.dump docs) docs).
    + reflexivity.
    + vm_compute. reflexivity.
    + right. left. eexists. split; reflexivity.
Defined.

Lemma mapM_raises {A B} (f : A -> result B) e l :
  Forall (fun x => (exists y, f x = Ok y) \/ f x = Raise e) l ->
  Exists (fun x => f x = Raise e) l ->
  Py.mapM f l = Raise e.
Proof.
  induction 1 as [|x l [[y Hy]|Hx] _ IH]; intros Ex.
  - inversion Ex.
  - cbn [Py.mapM]. rewrite Hy. cbn [Py.bind].
    inversion Ex as [? ? Hx|? ? Hl]; subst; [congruence|].
    now rewrite (IH Hl).
  - cbn [Py.mapM]. now rewrite Hx.
Qed.

Lemma mapM_as_str_raises pages :
  Exists (fun p => forall s, p <> JStr s) pages ->
  Py.mapM Py.as_str pages = Raise TypeError.
Proof.
  intros Ex. apply mapM_raises.
  - apply Forall_forall. intros p _.
    destruct p; try (right; reflexivity). left. now eexists.
  - apply Exists_exists in Ex as [p [Hin Hp]]. apply Exists_exists.
    exists p. split; [exact Hin|].
    destruct p; try reflexivity. now destruct (Hp s).
Qed.

(** X8: the accordion regrouping takes the pages of a group of more than ten
    for paths.  When the groups behind element 0 have a name and a list of
    pages each, and one of them has more than ten pages that are not all
    strings (a group that holds sub-groups already, as a service group
    does), the run raises [TypeError] after the backup and leaves
    [docs.json] as it was. *)
Theorem accordion_rejects_nested_pages w c docs_data i api_tab g0 gs :
  docs_json (fs w) = Some c ->
  Json.load c = Some docs_data ->
  Nav.locate_tab docs_data = Ok (Some (i, api_tab)) ->
  Py.getitem api_tab (txt "groups") = Ok (JArr (g0 :: gs)) ->
  Forall (fun g => exists name pages,
              Py.getitem g (txt "group") = Ok name /\
              Py.getitem g (txt "pages") = Ok (JArr pages)) gs ->
  Exists (fun g => exists pages,
              Py.getitem g (txt "pages") = Ok (JArr pages) /\
              10 < length pages /\
              Exists (fun p => forall s, p <> JStr s) pages) gs ->
  fst (Accordion.create_accordion_navigation w) = Raise TypeError /\
  docs_json (fs (snd (Accordion.create_accordion_navigation w))) = Some c /\
  backup_json (fs (snd (Accordion.create_accordion_navigation w)))
    = Some (Json.dump docs_data).
Proof.
  intros Hd Hl Ht Hg Hf Hx.
  assert (M : Py.mapM Accordion.accordion_group gs = Raise TypeError).
  { apply mapM_raises.
    - apply Forall_forall. intros g Hin.
      destruct (proj1 (@Forall_forall _ _ _) Hf g Hin) as [name [pages [En Ep]]].
      unfold Accordion.accordion_group. rewrite En, Ep.
      cbn [Py.bind Py.len Py.iter]. destruct (10 <? length pages).
      + destruct (Py.mapM Py.as_str pages) as [names|e] eqn:E.
        * left. now eexists.
        * right. cbn [Py.bind]. f_equal.
          clear - E. revert e E. induction pages as [|p pages IH]; intros e E;
            [discriminate|].
          cbn [Py.mapM] in E. destruct p; try (injection E as <-; reflexivity).
          cbn [Py.as_str Py.bind] in E.
          destruct (Py.mapM Py.as_str pages); [discriminate|].
          injection E as <-. now apply IH.
      + left. now eexists.
    - apply Exists_exists in Hx as [g [Hin [pages [Ep [Hlen Hp]]]]].
      apply Exists_exists. exists g. split; [exact Hin|].
      destruct (proj1 (@Forall_forall _ _ _) Hf g Hin) as [name [pages' [En Ep']]].
      unfold Accordion.accordion_group. rewrite En, Ep.
      cbn [Py.bind Py.len Py.iter]. apply Nat.ltb_lt in Hlen. rewrite Hlen.
      now rewrite (@mapM_as_str_raises _ Hp). }
  assert (Ha : accordion_groups api_tab = Raise TypeError).
  { unfold accordion_groups. rewrite Hg.
    cbn [Py.bind Py.slice_from1 Py.iter tl]. now rewrite M. }
  rewrite (accordion_run _ Hd Hl). cbv zeta. rewrite Ht, Ha.
  repeat split. exact Hd.
Qed.

End FailureFacts.

Section FailureWitness.

Import Script Json JsonSpec RunSpec NavSpec FrameSpec Outcome Sample Sample2.

Lemma accordion_rejects_nested_pages_witness :
  fst (Accordion.create_accordion_navigation world_by_service) = Raise TypeError /\
  docs_json (fs (snd (Accordion.create_accordion_navigation world_by_service)))
    = Some (Json.dump docs_by_service) /\
  backup_json (fs (snd (Accordion.create_accordion_navigation world_by_service)))
    = Some (Json.dump docs_by_service).
Proof.
  apply (@accordion_rejects_nested_pages world_by_service
           (Json.dump docs_by_service) docs_by_service 1
           (tab_of "API reference"
              [Nav.INTRO_GROUP; group "Core Services" eleven_categories])
           Nav.INTRO_GROUP [group "Core Services" eleven_categories]).
  - reflexivity.
  - vm_compute. reflexivity.
  - reflexivity.
  - reflexivity.
  - repeat constructor. eexists. eexists. split; reflexivity.
  - apply Exists_cons_hd. exists eleven_categories.
    split; [reflexivity|]. split; [simpl; lia|].
    apply Exists_cons_hd. intros s. discriminate.
Defined.

End FailureWitness.

(** ** The total of the service summary *)

Section ServiceTotal.

Import Script Json JsonSpec RunSpec NavSpec FrameSpec Outcome Sample Service.

Lemma sum_results_app {A} (f : A -> result nat) l1 l2 n1 n2 :
  sum_results f l1 = Ok n1 -> sum_results f l2 = Ok n2 ->
  sum_results f (l1 ++ l2) = Ok (n1 + n2).
Proof.
  revert n1; induction l1 as [|a l1 IH]; intros n1 H1 H2.
  - injection H1 as <-. exact H2.
  - cbn [sum_results app] in *. destruct (f a) as [n|]; [|discriminate].
    cbn [Py.bind] in *. destruct (sum_results f l1) as [m|]; [|discriminate].
    injection H1 as <-. rewrite (IH m eq_refl H2). cbn [Py.bind].
    f_equal. lia.
Qed.

Lemma sum_results_ok {A} (f : A -> result nat) (g : A -> nat) l :
  (forall a, In a l -> f a = Ok (g a)) ->
  sum_results f l = Ok (list_sum (map g l)).
Proof.
  induction l as [|a l IH]; intros H; [reflexivity|].
  cbn [sum_results]. rewrite (H a (or_introl eq_refl)).
  cbn [Py.bind]. rewrite IH by (intros b Hb; apply H; now right).
  reflexivity.
Qed.

Lemma mapM_ok {A B} (f : A -> result B) l l' :
  Py.mapM f l = Ok l' ->
  forall d, (forall a, In a l -> f a = Ok (match f a with Ok b => b | Raise _ => d end)) /\
            l' = map (fun a => match f a with Ok b => b | Raise _ => d end) l.
Proof.
  revert l'; induction l as [|a l IH]; intros l' H d.
  - injection H as <-. split; [intros a []|reflexivity].
  - cbn [Py.mapM] in H. destruct (f a) as [b|] eqn:E; [|discriminate].
    cbn [Py.bind] in H. destruct (Py.mapM f l) as [bs|]; [|discriminate].
    injection H as <-. destruct (IH bs eq_refl d) as [H1 H2]. split.
    + intros x [<-|Hx]; [now rewrite E | now apply H1].
    + cbn [map]. now rewrite E, H2.
Qed.

Lemma count_service_group_built name cats :
  count_service_group (Accordion.group_of name cats) =
  sum_results count_category cats.
Proof. reflexivity. Qed.

Lemma count_category_leaves g name leaves :
  category_group g name leaves -> count_category g = Ok (length leaves).
Proof.
  intros [_ Hp]. unfold count_category, has_pages.
  destruct g as [| | | | |d]; try discriminate. cbn [Py.getitem] in Hp.
  destruct (Dict.get (txt "pages") d) as [pages|] eqn:E; [|discriminate].
  cbn [Py.getitem]. rewrite E. injection Hp as ->. cbn [Py.bind Py.iter].
  clear E. induction leaves as [|p leaves IH]; [reflexivity|].
  cbn [map sum_results count_item has_pages Py.bind]. rewrite IH. reflexivity.
Qed.

(** X9: the total that the service-level regrouping prints counts every
    endpoint of the category groups it was given: it is the sum, over the
    category groups in the tab, of the endpoints counted for each, whatever
    service a group goes to; and for a category group of leaves the
    endpoints counted are its leaves. *)
Theorem service_total_counts_every_endpoint gs ns :
  Forall has_name gs ->
  Py.mapM count_category gs = Ok ns ->
  (exists built,
      service_groups gs = Ok built /\
      sum_results count_service_group built = Ok (list_sum ns)) /\
  (forall g name leaves,
      category_group g name leaves -> count_category g = Ok (length leaves)).
Proof.
  intros Hn Hc. split; [|apply count_category_leaves].
  exists (flat_map (emit_bucket gs) BUCKETS).
  split; [now apply service_groups_spec|].
  destruct (mapM_ok _ _ Hc 0) as [Hok ->].
  set (cnt := fun a => match count_category a with Ok b => b | Raise _ => 0 end) in *.
  assert (B : forall names,
             sum_results count_service_group (flat_map (emit_bucket gs) names) =
             Ok (list_sum (map cnt (flat_map (fun s => bucket s gs) names)))).
  { induction names as [|s names IH]; [reflexivity|].
    cbn [flat_map]. rewrite map_app, list_sum_app.
    apply sum_results_app; [|exact IH].
    unfold emit_bucket. destruct (bucket s gs) as [|g l] eqn:E; [reflexivity|].
    cbn [sum_results]. rewrite count_service_group_built.
    rewrite (@sum_results_ok _ count_category cnt).
    - cbn [Py.bind]. f_equal. lia.
    - intros a Ha. apply Hok. rewrite <- E in Ha. unfold bucket in Ha.
      now apply filter_In in Ha as [Ha _]. }
  rewrite B. f_equal.
  assert (P : Permutation (map cnt (flat_map (fun s => bucket s gs) BUCKETS))
                          (map cnt gs))
    by (apply Permutation_map, service_groups_permutation).
  clear - P. induction P; cbn [list_sum]; try lia.
  - unfold list_sum in *. cbn [fold_right]. lia.
  - unfold list_sum in *. cbn [fold_right]. lia.
Qed.

Lemma service_total_counts_every_endpoint_witness :
  (exists built,
      service_groups [camera; webhooks; door] = Ok built /\
      sum_results count_service_group built = Ok (list_sum [2; 1; 11])) /\
  (forall g name leaves,
      category_group g name leaves -> count_category g = Ok (length leaves)).
Proof.
  apply (@service_total_counts_every_endpoint [camera; webhooks; door] [2; 1; 11]).
  - repeat constructor; eexists; reflexivity.
  - reflexivity.
Defined.

End ServiceTotal.

(** ** The summary of the full replacement *)

Section UpdateReport.

Import Script Json JsonSpec RunSpec NavSpec Outcome Sample.

Lemma sum_pages_raises gs :
  Exists (fun g => forall v, Py.getitem g (txt "pages") <> Ok v) gs ->
  exists e, UpdateDocs.sum_pages gs = Raise e.
Proof.
  induction 1 as [g gs H|g gs _ [e IH]]; cbn [UpdateDocs.sum_pages].
  - destruct (Py.getitem g (txt "pages")) as [v|e] eqn:E.
    + now destruct (H v).
    + now exists e.
  - destruct (Py.getitem g (txt "pages")) as [v|e']; [|now exists e'].
    cbn [Py.bind]. destruct (Py.len v) as [n|e']; [|now exists e'].
    cbn [Py.bind]. rewrite IH. now exists e.
Qed.

(** X10: the full replacement counts the pages of the groups after it has
    written [docs.json].  When an entry of the generated navigation has no
    pages to count (an object without the key [pages], say), the run ends
    with the exception of that count, but [docs.json] holds the new groups
    already. *)
Theorem update_fails_after_writing w c docs_data nc gs i api_tab :
  docs_json (fs w) = Some c ->
  Json.load c = Some docs_data ->
  nav_json (fs w) = Some nc ->
  Json.load nc = Some (JArr gs) ->
  Nav.locate_tab docs_data = Ok (Some (i, api_tab)) ->
  Exists (fun g => forall v, Py.getitem g (txt "pages") <> Ok v) gs ->
  exists e,
    fst (UpdateDocs.main w) = Raise e /\
    docs_json (fs (snd (UpdateDocs.main w))) =
      Some (Json.dump (Nav.assign_groups i (JArr (Nav.INTRO_GROUP :: gs)) docs_data)) /\
    persisted_groups (snd (UpdateDocs.main w)) = Some (JArr (Nav.INTRO_GROUP :: gs)).
Proof.
  intros Hd Hl Hn Hnl Ht Hx.
  destruct (sum_pages_raises Hx) as [e He].
  assert (S : UpdateDocs.sum_pages (Nav.INTRO_GROUP :: gs) = Raise e).
  { cbn [UpdateDocs.sum_pages]. change (Py.getitem Nav.INTRO_GROUP (txt "pages"))
      with (Ok (JArr [JStr (txt "api-reference/introduction")])).
    cbn [Py.bind Py.len]. now rewrite He. }
  assert (F : docs_json (fs (snd (UpdateDocs.main w))) =
              Some (Json.dump (Nav.assign_groups i (JArr (Nav.INTRO_GROUP :: gs))
                                 docs_data))).
  { rewrite (@update_files _ _ _ Hd Hl). unfold update_writes.
    now rewrite Hn, Hnl, Ht. }
  exists e. split; [|split; [exact F|]].
  - rewrite (update_run _ Hd Hl). cbv zeta. rewrite Hn, Hnl, Ht.
    cbn [Py.len Py.cons_list]. unfold update_report.
    rewrite !bind_print, bind_lift, S. reflexivity.
  - eapply written_reads_back; [exact F | |].
    + apply wfb_assign_groups; [now apply (@load_wf c)|].
      pose proof (@load_wf nc _ Hnl) as Wn. cbn [wfb] in Wn |- *.
      cbn [forallb]. now rewrite Wn.
    + now apply (@tab_groups_assign docs_data i api_tab).
Qed.

Lemma update_fails_after_writing_witness :
  exists e,
    fst (UpdateDocs.main Sample2.world_bad_nav) = Raise e /\
    docs_json (fs (snd (UpdateDocs.main Sample2.world_bad_nav))) =
      Some (Json.dump (Nav.assign_groups 1
              (JArr (Nav.INTRO_GROUP :: Sample2.bad_nav)) docs)) /\
    persisted_groups (snd (UpdateDocs.main Sample2.world_bad_nav))
      = Some (JArr (Nav.INTRO_GROUP :: Sample2.bad_nav)).
Proof.
  apply (@update_fails_after_writing Sample2.world_bad_nav (Json.dump docs) docs
           (Json.dump (JArr Sample2.bad_nav)) Sample2.bad_nav 1
           (tab_of "API reference" [overview; camera; webhooks; door])).
  - reflexivity.
  - vm_compute. reflexivity.
  - reflexivity.
  - vm_compute. reflexivity.
  - reflexivity.
  - apply Exists_cons_tl. apply Exists_cons_hd. intros v H. discriminate H.
Defined.

End UpdateReport.

(** ** More on the endpoint page emitter *)

Section EmitterMore.

Import Emitter.

Lemma ident_char_cases c :
  is_ident_char c = true ->
  Text.is_upper c = false /\ c <> "/"%char.
Proof.
  unfold is_ident_char, Text.is_lower, Text.is_digit, Text.is_upper.
  intros H. split.
  - destruct (Text.ascii_eqb c "-") eqn:E.
    + apply ascii_eqb_eq in E as ->. reflexivity.
    + rewrite orb_false_r in H. apply andb_false_iff.
      apply orb_true_iff in H as [H|H]; apply andb_true_iff in H as [H1 H2];
        apply Nat.leb_le in H1, H2.
      * right. apply Nat.leb_gt. lia.
      * left. apply Nat.leb_gt. lia.
  - intros ->. discriminate H.
Qed.

Lemma contains_absent_head a old s :
  Forall (fun c => c <> a) s -> Text.contains (a :: old) s = false.
Proof.
  induction 1 as [|c s Hc _ IH]; [reflexivity|].
  cbn [Text.contains Text.startswith]. rewrite IH, orb_false_r.
  apply andb_false_iff. left. apply ascii_eqb_neq. congruence.
Qed.

Lemma lower_fixed s :
  Forall (fun c => Text.is_upper c = false) s -> Text.lower s = s.
Proof.
  induction 1 as [|c s Hc _ IH]; [reflexivity|].
  unfold Text.lower in *. cbn [map]. rewrite IH. unfold Text.lower_char.
  now rewrite Hc.
Qed.

Lemma filter_fixed {A} (f : A -> bool) l :
  Forall (fun a => f a = true) l -> filter f l = l.
Proof.
  induction 1 as [|a l Ha _ IH]; [reflexivity|].
  cbn [filter]. now rewrite Ha, IH.
Qed.

Lemma filter_Forall {A} (f : A -> bool) l :
  Forall (fun a => f a = true) (filter f l).
Proof. apply Forall_forall. intros a H. now apply filter_In in H. Qed.

(** A text of identifier characters is its own identifier. *)
Lemma sanitize_filename_fixed s :
  Forall (fun c => is_ident_char c = true) s -> sanitize_filename s = s.
Proof.
  intros H.
  assert (U : Forall (fun c => Text.is_upper c = false) s).
  { eapply Forall_impl; [|exact H]. intros c Hc. now apply ident_char_cases. }
  assert (N : Forall (fun c => c <> "/"%char) s).
  { eapply Forall_impl; [|exact H]. intros c Hc. now apply ident_char_cases. }
  unfold sanitize_filename, Text.replace. cbn [txt list_ascii_of_string].
  rewrite (replace_from_absent _ _ _ (contains_absent_head _ N)).
  rewrite (lower_fixed U).
  rewrite (replace_from_absent _ _ _ (contains_absent_head _ N)).
  now apply filter_fixed.
Qed.

(** X11: the file name that [sanitize_filename] derives holds lower-case
    letters, digits and hyphens only, and deriving a file name from it
    again gives the same name. *)
Theorem sanitize_filename_canonical name :
  Forall (fun c => is_ident_char c = true) (sanitize_filename name) /\
  sanitize_filename (sanitize_filename name) = sanitize_filename name.
Proof.
  assert (H : Forall (fun c => is_ident_char c = true) (sanitize_filename name))
    by apply filter_Forall.
  split; [exact H | now apply sanitize_filename_fixed].
Qed.

Lemma first_method_found pre m post endpoint_data details :
  Forall (fun m' => dict_get m' endpoint_data = None) pre ->
  dict_get m endpoint_data = Some details ->
  first_method (pre ++ m :: post) endpoint_data =
  Some (Text.upper m, or_default (op_summary details) [],
        or_default (op_description details) [],
        or_default (op_deprecated details) false).
Proof.
  intros F G. induction F as [|m' pre Hm _ IH]; cbn [app first_method].
  - now rewrite G.
  - now rewrite Hm.
Qed.

Lemma first_method_none methods endpoint_data :
  Forall (fun m => dict_get m endpoint_data = None) methods ->
  first_method methods endpoint_data = None.
Proof.
  induction 1 as [|m methods Hm _ IH]; [reflexivity|].
  cbn [first_method]. now rewrite Hm.
Qed.

Lemma methods_nodup : NoDup METHODS.
Proof. apply nodupb_sound. reflexivity. Qed.

(** X12: a page documents one operation of its path: the first of [get],
    [post], [put], [delete], [patch] that the path item has, in this order
    and not in the order of the path item; the page is the one that the
    path item with this operation alone would get.  A path item with none
    of the five gets the page of an empty path item, with the method
    [POST]. *)
Theorem page_documents_one_operation path endpoint_data category pre m post details :
  METHODS = pre ++ m :: post ->
  Forall (fun m' => dict_get m' endpoint_data = None) pre ->
  dict_get m endpoint_data = Some details ->
  get_method_and_summary endpoint_data =
    (Text.upper m, or_default (op_summary details) [],
     or_default (op_description details) [],
     or_default (op_deprecated details) false) /\
  generate_mdx_content path endpoint_data category =
    generate_mdx_content path [(m, details)] category /\
  (forall other,
      Forall (fun m' => dict_get m' other = None) METHODS ->
      get_method_and_summary other = (txt "POST", [], [], false) /\
      generate_mdx_content path other category =
        generate_mdx_content path [] category).
Proof.
  intros E F G.
  assert (A : get_method_and_summary endpoint_data =
              get_method_and_summary [(m, details)]).
  { unfold get_method_and_summary. rewrite E.
    rewrite (@first_method_found pre m post endpoint_data details F G).
    rewrite (@first_method_found pre m post [(m, details)] details);
      [reflexivity| |].
    - pose proof methods_nodup as ND. rewrite E in ND.
      apply NoDup_remove_2 in ND. apply Forall_forall. intros m' Hm'.
      cbn [dict_get]. destruct (Text.eqb m' m) eqn:Q; [|reflexivity].
      apply text_eqb_eq in Q as ->. destruct ND. apply in_or_app. now left.
    - cbn [dict_get]. now rewrite text_eqb_refl. }
  split; [|split].
  - unfold get_method_and_summary. rewrite E.
    now rewrite (@first_method_found pre m post endpoint_data details F G).
  - unfold generate_mdx_content, frontmatter_description. now rewrite A.
  - intros other H.
    assert (B : get_method_and_summary other = (txt "POST", [], [], false)).
    { unfold get_method_and_summary. now rewrite (@first_method_none _ _ H). }
    split; [exact B|].
    unfold generate_mdx_content, frontmatter_description. now rewrite B.
Qed.

Lemma page_documents_one_operation_witness :
  get_method_and_summary Sample2.two_operations =
    (Text.upper (txt "get"), or_default (op_summary Sample2.list_op) [],
     or_default (op_description Sample2.list_op) [],
     or_default (op_deprecated Sample2.list_op) false) /\
  generate_mdx_content (txt "/api/x/y") Sample2.two_operations (txt "x") =
    generate_mdx_content (txt "/api/x/y") [(txt "get", Sample2.list_op)] (txt "x") /\
  (forall other,
      Forall (fun m' => dict_get m' other = None) METHODS ->
      get_method_and_summary other = (txt "POST", [], [], false) /\
      generate_mdx_content (txt "/api/x/y") other (txt "x") =
        generate_mdx_content (txt "/api/x/y") [] (txt "x")).
Proof.
  apply (@page_documents_one_operation (txt "/api/x/y") Sample2.two_operations
           (txt "x") [] (txt "get")
           [txt "post"; txt "put"; txt "delete"; txt "patch"] Sample2.list_op).
  - reflexivity.
  - constructor.
  - reflexivity.
Defined.

End EmitterMore.

(** ** More on icons *)

Section IconMore.

Import Icons IconSpec.

Lemma startswith_prefix p q s :
  Text.startswith (p ++ q) s = true -> Text.startswith p s = true.
Proof.
  intros H. apply startswith_spec in H as [r ->].
  rewrite <- app_assoc. apply startswith_app.
Qed.

Lemma icon_differs (a b : string) :
  Text.eqb (txt a) (txt b) = false -> txt a <> txt b.
Proof. intros H. now apply text_eqb_neq. Qed.

(** X13: the action table is searched in its order for a key that the action
    starts with, so the entries [getall] and [findall] are never reached:
    an action that starts with [get] has the icon [eye] and one that starts
    with [find] the icon [magnifying-glass], whatever the category, and no
    endpoint gets the icon [list-check] of those two entries. *)
Theorem shadowed_action_icons category action :
  (Text.startswith (txt "get") action = true ->
   get_icon_for_endpoint category action = txt "eye") /\
  (Text.startswith (txt "find") action = true ->
   get_icon_for_endpoint category action = txt "magnifying-glass") /\
  get_icon_for_endpoint category action <> txt "list-check".
Proof.
  assert (G : Text.startswith (txt "get") action = true ->
              get_icon_for_endpoint category action = txt "eye").
  { intros H. apply startswith_spec in H as [r ->]. reflexivity. }
  assert (F : Text.startswith (txt "find") action = true ->
              get_icon_for_endpoint category action = txt "magnifying-glass").
  { intros H. apply startswith_spec in H as [r ->]. reflexivity. }
  split; [exact G|]. split; [exact F|].
  destruct (Text.startswith (txt "get") action) eqn:Hg.
  { rewrite (G eq_refl). now apply icon_differs. }
  destruct (Text.startswith (txt "find") action) eqn:Hf.
  { rewrite (F eq_refl). now apply icon_differs. }
  assert (Hga : Text.startswith (txt "getall") action = false).
  { destruct (Text.startswith (txt "getall") action) eqn:E; [|reflexivity].
    apply (@startswith_prefix (txt "get") (txt "all")) in E. congruence. }
  assert (Hfa : Text.startswith (txt "findall") action = false).
  { destruct (Text.startswith (txt "findall") action) eqn:E; [|reflexivity].
    apply (@startswith_prefix (txt "find") (txt "all")) in E. congruence. }
  unfold get_icon_for_endpoint, ACTION_ICONS, CATEGORY_ICONS.
  cbn [first_icon]. rewrite Hg, Hf, Hga, Hfa.
  repeat match goal with
         | |- context [if ?b then _ else _] => destruct b
         end; now apply icon_differs.
Qed.

(** *** Updating twice *)

Lemma until_quote_none s : ~ In quote s -> until_quote s = None.
Proof.
  induction s as [|c s IH]; intros H; [reflexivity|].
  cbn [until_quote]. destruct (is_quote c) eqn:Q.
  - apply ascii_eqb_eq in Q as ->. destruct H. now left.
  - rewrite IH; [reflexivity|]. intros Hin. apply H. now right.
Qed.

Lemma until_quote_no_quote s : until_quote s = None -> ~ In quote s.
Proof.
  induction s as [|c s IH]; intros H; [intros []|].
  cbn [until_quote] in H. destruct (is_quote c) eqn:Q; [discriminate|].
  destruct (until_quote s) as [[v r]|]; [discriminate|].
  intros [->|Hin]; [|now apply IH].
  unfold is_quote, quote in Q. now rewrite ascii_eqb_refl in Q.
Qed.

Lemma startswith_firstn p s :
  Text.startswith p (firstn (length p) s) = Text.startswith p s.
Proof.
  revert s; induction p as [|a p IH]; intros s; [reflexivity|].
  destruct s as [|b s]; [reflexivity|].
  cbn [length firstn Text.startswith]. now rewrite IH.
Qed.

(** Setting the fields leaves the first seven characters of a scanned text
    as they are: a field starts with the seven characters of the pattern. *)
Lemma replaced_firstn new_icon fuel :
  forall s n, n <= 7 ->
    firstn n (replaced new_icon (scan fuel s)) = firstn n s.
Proof.
  induction fuel as [|fuel IH]; intros s n Hn.
  - cbn [scan]. unfold replaced. f_equal.
    induction s as [|c s IHs]; [reflexivity|]. cbn. now rewrite IHs.
  - destruct s as [|c s]; [reflexivity|]. cbn [scan].
    destruct (match_icon (c :: s)) as [[v rest]|] eqn:M.
    + apply match_icon_spec in M as [-> _].
      unfold replaced. cbn [flat_map render].
      rewrite <- !app_assoc.
      rewrite !(firstn_app n ICON_OPEN).
      replace (n - length ICON_OPEN) with 0 by (cbn; lia).
      reflexivity.
    + unfold replaced. cbn [flat_map render app].
      destruct n as [|n]; [reflexivity|]. cbn [firstn]. f_equal.
      apply IH. lia.
Qed.

(** A text with no quote behind its first characters has no field. *)
Lemma replaced_no_field new_icon fuel :
  forall s k, k <= 7 -> ~ In quote (skipn k s) ->
    replaced new_icon (scan fuel s) = s.
Proof.
  induction fuel as [|fuel IH]; intros s k Hk H.
  - cbn [scan]. unfold replaced.
    induction s as [|c s IHs]; [reflexivity|]. cbn.
    f_equal. clear - s. induction s as [|c s IHs]; [reflexivity|].
    cbn. now rewrite IHs.
  - destruct s as [|c s]; [reflexivity|]. cbn [scan].
    destruct (match_icon (c :: s)) as [[v rest]|] eqn:M.
    + apply match_icon_spec in M as [E _]. exfalso. apply H. rewrite E.
      rewrite skipn_app. apply in_or_app. right.
      replace (k - length ICON_OPEN) with 0 by (cbn; lia).
      cbn [skipn]. apply in_or_app. right. now left.
    + unfold replaced. cbn [flat_map render app]. f_equal.
      destruct k as [|k].
      * apply (IH s 0); [lia|]. cbn [skipn] in *. intros Hin. apply H. now right.
      * apply (IH s k); [lia|]. exact H.
Qed.

(** A character that the scan keeps is kept by a second scan too. *)
Lemma keep_stays new_icon fuel c s :
  match_icon (c :: s) = None ->
  match_icon (c :: replaced new_icon (scan fuel s)) = None.
Proof.
  unfold match_icon. intros H.
  assert (P : Text.startswith ICON_OPEN (c :: replaced new_icon (scan fuel s)) =
              Text.startswith ICON_OPEN (c :: s)).
  { rewrite <- startswith_firstn, <- (startswith_firstn ICON_OPEN (c :: s)).
    change (length ICON_OPEN) with 7. rewrite !firstn_cons.
    now rewrite replaced_firstn by lia. }
  rewrite P. destruct (Text.startswith ICON_OPEN (c :: s)); [|reflexivity].
  change (length ICON_OPEN) with 7 in *. rewrite skipn_cons in H |- *.
  apply until_quote_no_quote in H.
  rewrite (@replaced_no_field new_icon fuel s 6); [|lia|exact H].
  now apply until_quote_none.
Qed.

Lemma scan_field new_icon fuel rest :
  ~ In quote new_icon ->
  scan (S fuel) (ICON_OPEN ++ new_icon ++ dq ++ rest) =
  Field new_icon :: scan fuel rest.
Proof.
  intros H.
  assert (E : exists c0 t, ICON_OPEN ++ new_icon ++ dq ++ rest = c0 :: t)
    by (eexists; eexists; reflexivity).
  destruct E as [c0 [t E]]. rewrite E. cbn [scan]. rewrite <- E.
  now rewrite match_icon_intro.
Qed.

(** Scanning the updated text finds the fields where they were, with the
    new icon. *)
Lemma rescan new_icon :
  ~ In quote new_icon ->
  forall fuel s fuel',
    length s <= fuel ->
    length (replaced new_icon (scan fuel s)) <= fuel' ->
    replaced new_icon (scan fuel' (replaced new_icon (scan fuel s))) =
    replaced new_icon (scan fuel s).
Proof.
  intros Hq. induction fuel as [|fuel IH]; intros s fuel' Hs Hf.
  - destruct s; [|simpl in Hs; lia]. destruct fuel'; reflexivity.
  - destruct s as [|c s]; [destruct fuel'; reflexivity|].
    cbn [scan] in *. destruct (match_icon (c :: s)) as [[v rest]|] eqn:M.
    + unfold replaced in Hf |- *. cbn [flat_map render] in Hf |- *.
      rewrite <- !app_assoc in Hf |- *.
      destruct fuel' as [|fuel'];
        [rewrite !length_app in Hf; cbn in Hf; lia|].
      fold (replaced new_icon (scan fuel rest)) in Hf |- *.
      rewrite scan_field by exact Hq.
      cbn [flat_map render]. rewrite <- !app_assoc. do 3 f_equal.
      apply IH.
      * apply match_icon_shorter in M. simpl in *. lia.
      * rewrite !length_app in Hf. cbn in Hf. lia.
    + unfold replaced in Hf |- *. cbn [flat_map render app] in Hf |- *.
      destruct fuel' as [|fuel']; [cbn in Hf; lia|].
      fold (replaced new_icon (scan fuel s)) in Hf |- *.
      cbn [scan]. rewrite (@keep_stays new_icon fuel c s M).
      cbn [flat_map render app]. f_equal.
      apply IH; [simpl in Hs; lia | cbn in Hf; lia].
Qed.

Lemma update_some stored new_icon :
  ~ In backslash new_icon ->
  update_endpoint_icon (Some stored) new_icon =
  let content := read_text stored in
  let updated := replaced new_icon (scan (length content) content) in
  (negb (Text.eqb updated content),
   Some (if Text.eqb updated content then stored else updated)).
Proof.
  intros H. unfold update_endpoint_icon, write_text. cbv zeta.
  rewrite re_sub_icon_literal by exact H.
  now destruct (Text.eqb _ (read_text stored)).
Qed.

(** The updated text holds no carriage return when the icon holds none. *)
Lemma replaced_no_cr new_icon fuel stored :
  ~ In carriage_return new_icon ->
  ~ In carriage_return
      (replaced new_icon (scan fuel (read_text stored))).
Proof.
  intros Hc Hin. apply in_replaced in Hin as [Hin|Hin]; [|now apply Hc].
  rewrite original_scan in Hin. now apply (@read_text_no_cr stored).
Qed.

Lemma update_twice file new_icon :
  ~ In backslash new_icon ->
  ~ In quote new_icon ->
  ~ In carriage_return new_icon ->
  update_endpoint_icon (snd (update_endpoint_icon file new_icon)) new_icon =
  (false, snd (update_endpoint_icon file new_icon)).
Proof.
  intros Hb Hq Hc. destruct file as [stored|]; [|reflexivity].
  rewrite (@update_some stored) by exact Hb. cbv zeta. cbn [snd].
  destruct (Text.eqb (replaced new_icon
                        (scan (length (read_text stored)) (read_text stored)))
                     (read_text stored)) eqn:E.
  - rewrite update_some by exact Hb. cbv zeta. now rewrite E.
  - rewrite update_some by exact Hb. cbv zeta.
    rewrite (@read_text_plain _ (@replaced_no_cr new_icon _ stored Hc)).
    rewrite (@rescan new_icon Hq) by (reflexivity || apply Nat.le_refl).
    now rewrite text_eqb_refl.
Qed.

(** X14: once the icon of a file was updated, updating it with the same icon
    changes nothing and answers [False]: the update sets every icon field
    it finds, and finds the same fields in what it wrote.  (For an icon
    value without a backslash, a double quote or a carriage return, as
    those of the tables are: a carriage return written into the file would
    be read back as a line feed.) *)
Theorem icon_update_settles file new_icon :
  ~ In backslash new_icon ->
  ~ In quote new_icon ->
  ~ In carriage_return new_icon ->
  update_endpoint_icon (snd (update_endpoint_icon file new_icon)) new_icon =
  (false, snd (update_endpoint_icon file new_icon)).
Proof. apply update_twice. Qed.

Lemma icon_update_settles_witness :
  update_endpoint_icon
    (snd (update_endpoint_icon
            (Some (txt "icon: " ++ dq ++ txt "circle-dot" ++ dq ++
                   [carriage_return] ++ nl))
            (txt "eye")))
    (txt "eye") =
  (false,
   snd (update_endpoint_icon
          (Some (txt "icon: " ++ dq ++ txt "circle-dot" ++ dq ++
                 [carriage_return] ++ nl))
          (txt "eye"))).
Proof.
  apply (@icon_update_settles
           (Some (txt "icon: " ++ dq ++ txt "circle-dot" ++ dq ++
                  [carriage_return] ++ nl))
           (txt "eye")).
  - unfold backslash. cbn. intuition discriminate.
  - unfold quote. cbn. intuition discriminate.
  - unfold carriage_return. cbn. intuition discriminate.
Defined.

End IconMore.

(** ** The icon pass *)

Section IconPassFacts.

Import Icons IconSpec IconPass.

Lemma table_icons_quote_free category action :
  ~ In quote (get_icon_for_endpoint category action).
Proof.
  assert (A : forallb (fun i => negb (existsb (Text.ascii_eqb quote) i))
                (map snd ACTION_ICONS) = true) by reflexivity.
  assert (C : forallb (fun i => negb (existsb (Text.ascii_eqb quote) i))
                (map snd CATEGORY_ICONS) = true) by reflexivity.
  assert (P : forall (table : list (text * text)) icon,
             forallb (fun i => negb (existsb (Text.ascii_eqb quote) i))
               (map snd table) = true ->
             In icon (map snd table) -> ~ In quote icon).
  { intros table icon F Hin Hb.
    rewrite forallb_forall in F. specialize (F _ Hin).
    apply negb_true_iff in F.
    assert (E : existsb (Text.ascii_eqb quote) icon = true).
    { apply existsb_exists. exists quote. split; [exact Hb|].
      apply ascii_eqb_refl. }
    congruence. }
  unfold get_icon_for_endpoint.
  destruct (first_icon _ ACTION_ICONS) as [icon|] eqn:E1.
  - apply (P _ _ A). now apply first_icon_in in E1.
  - destruct (first_icon _ CATEGORY_ICONS) as [icon|] eqn:E2.
    + apply (P _ _ C). now apply first_icon_in in E2.
    + unfold quote. cbn. intuition discriminate.
Qed.

Lemma table_icons_no_cr category action :
  ~ In carriage_return (get_icon_for_endpoint category action).
Proof.
  assert (A : forallb (fun i => negb (existsb (Text.ascii_eqb carriage_return) i))
                (map snd ACTION_ICONS) = true) by reflexivity.
  assert (C : forallb (fun i => negb (existsb (Text.ascii_eqb carriage_return) i))
                (map snd CATEGORY_ICONS) = true) by reflexivity.
  assert (P : forall (table : list (text * text)) icon,
             forallb (fun i => negb (existsb (Text.ascii_eqb carriage_return) i))
               (map snd table) = true ->
             In icon (map snd table) -> ~ In carriage_return icon).
  { intros table icon F Hin Hb.
    rewrite forallb_forall in F. specialize (F _ Hin).
    apply negb_true_iff in F.
    assert (E : existsb (Text.ascii_eqb carriage_return) icon = true).
    { apply existsb_exists. exists carriage_return. split; [exact Hb|].
      apply ascii_eqb_refl. }
    congruence. }
  unfold get_icon_for_endpoint.
  destruct (first_icon _ ACTION_ICONS) as [icon|] eqn:E1.
  - apply (P _ _ A). now apply first_icon_in in E1.
  - destruct (first_icon _ CATEGORY_ICONS) as [icon|] eqn:E2.
    + apply (P _ _ C). now apply first_icon_in in E2.
    + unfold carriage_return. cbn. intuition discriminate.
Qed.

(** The update with an icon of the tables, done twice. *)
Lemma table_update_settles file category_name name :
  let new_icon := icon_for category_name name in
  update_endpoint_icon (snd (update_endpoint_icon file new_icon)) new_icon =
  (false, snd (update_endpoint_icon file new_icon)).
Proof.
  cbv zeta. unfold icon_for. cbv zeta.
  apply update_twice;
    [apply table_icons_plain | apply table_icons_quote_free
     | apply table_icons_no_cr].
Qed.

Lemma process_files_settles category_name children :
  let r := process_files category_name children in
  fst (fst (process_files category_name (fst (fst r)))) = fst (fst r) /\
  snd (fst (process_files category_name (fst (fst r)))) = 0.
Proof.
  cbv zeta. induction children as [|[name file] rest [IH1 IH2]];
    [split; reflexivity|].
  cbn [process_files].
  destruct (process_files category_name rest) as [[rest' n] ms] eqn:E.
  cbn [fst snd] in IH1, IH2.
  destruct (is_mdx name) eqn:Q.
  - pose proof (table_update_settles file category_name name) as T.
    cbv zeta in T.
    destruct (update_endpoint_icon file (icon_for category_name name))
      as [updated file'] eqn:U.
    cbn [fst snd] in T |- *. cbn [process_files]. rewrite Q, T.
    destruct (process_files category_name rest') as [[rest'' n'] ms'].
    cbn [fst snd] in IH1, IH2 |- *. subst. split; reflexivity.
  - cbn [fst snd]. cbn [process_files]. rewrite Q.
    destruct (process_files category_name rest') as [[rest'' n'] ms'].
    cbn [fst snd] in IH1, IH2 |- *. subst. split; reflexivity.
Qed.

Lemma process_dirs_settles t :
  let r := process_dirs t in
  fst (fst (process_dirs (fst (fst r)))) = fst (fst r) /\
  snd (fst (process_dirs (fst (fst r)))) = 0.
Proof.
  cbv zeta. induction t as [|[category_name e] rest [IH1 IH2]];
    [split; reflexivity|].
  cbn [process_dirs].
  destruct (process_dirs rest) as [[rest' n] ms] eqn:E.
  cbn [fst snd] in IH1, IH2.
  destruct e as [children|].
  - destruct (Text.startswith (txt ".") category_name) eqn:Q.
    + cbn [fst snd]. cbn [process_dirs]. rewrite Q.
      destruct (process_dirs rest') as [[rest'' n'] ms'].
      cbn [fst snd] in IH1, IH2 |- *. subst. split; reflexivity.
    + destruct (process_files_settles category_name children) as [F1 F2].
      cbv zeta in F1, F2.
      destruct (process_files category_name children) as [[children' k] ms1].
      cbn [fst snd] in F1, F2 |- *. cbn [process_dirs]. rewrite Q.
      destruct (process_files category_name children') as [[children'' k'] ms2].
      destruct (process_dirs rest') as [[rest'' n'] ms'].
      cbn [fst snd] in IH1, IH2, F1, F2 |- *. subst. split; reflexivity.
  - cbn [fst snd]. cbn [process_dirs].
    destruct (process_dirs rest') as [[rest'' n'] ms'].
    cbn [fst snd] in IH1, IH2 |- *. subst. split; reflexivity.
Qed.

(** X15: a second icon pass over the endpoint directory rewrites no file and
    reports zero updated files: the first pass left every [.mdx] file of a
    category directory with the icon that the second pass computes for
    it. *)
Theorem icon_pass_settles t :
  tree_after (tree_after t) = tree_after t /\
  updated_count (tree_after t) = 0.
Proof.
  unfold tree_after, updated_count, process_endpoint_icons.
  destruct (process_dirs_settles t) as [H1 H2]. cbv zeta in H1, H2.
  destruct (process_dirs t) as [[t1 n1] ms1]. cbn [fst snd] in H1, H2 |- *.
  destruct (process_dirs t1) as [[t2 n2] ms2]. cbn [fst snd] in H1, H2 |- *.
  now split.
Qed.

Lemma content_eqb_refl f : content_eqb f f = true.
Proof. destruct f; [apply text_eqb_refl | reflexivity]. Qed.

(** The flag says whether the stored file changed: what is written holds
    no carriage return, so it differs from a stored text that was read as
    another text. *)
Lemma update_flag file new_icon :
  ~ In backslash new_icon ->
  ~ In carriage_return new_icon ->
  let '(updated, file') := update_endpoint_icon file new_icon in
  updated = negb (content_eqb file file').
Proof.
  intros Hb Hc. destruct file as [stored|]; [|reflexivity].
  rewrite update_some by exact Hb. cbv zeta.
  destruct (Text.eqb (replaced new_icon
                        (scan (length (read_text stored)) (read_text stored)))
                     (read_text stored)) eqn:E; cbn [negb content_eqb].
  - now rewrite text_eqb_refl.
  - symmetry. apply negb_true_iff. apply text_eqb_neq. intros Es.
    apply text_eqb_neq in E. apply E.
    assert (Hs : ~ In carriage_return stored).
    { rewrite Es. now apply replaced_no_cr. }
    pose proof (@read_text_plain _ Hs) as Er. rewrite Er in Es |- *.
    now symmetry.
Qed.

Lemma process_files_kept category_name children :
  let r := process_files category_name children in
  snd (fst r) = changed_children children (fst (fst r)) /\
  Forall2 (fun f f' => fst f' = fst f /\
                       (is_mdx (fst f) = false -> snd f' = snd f))
          children (fst (fst r)).
Proof.
  cbv zeta. induction children as [|[name file] rest [IH1 IH2]];
    [split; [reflexivity | constructor]|].
  cbn [process_files].
  destruct (process_files category_name rest) as [[rest' n] ms].
  cbn [fst snd] in IH1, IH2.
  destruct (is_mdx name) eqn:Q.
  - pose proof (@update_flag file (icon_for category_name name)
                  (table_icons_plain _ _) (table_icons_no_cr _ _)) as U.
    destruct (update_endpoint_icon file (icon_for category_name name))
      as [updated file'].
    cbn [fst snd changed_children]. subst. split.
    + now destruct (content_eqb file file').
    + constructor; [|exact IH2]. split; [reflexivity|]. cbn [fst]. congruence.
  - cbn [fst snd changed_children]. rewrite content_eqb_refl. subst. split.
    + reflexivity.
    + constructor; [|exact IH2]. split; reflexivity.
Qed.

(** X16: the icon pass keeps the entries of the endpoint directory and their
    names; it leaves alone what is not a directory, the directories whose
    name starts with a dot and the files whose name does not end in
    [.mdx]; and the number of updated files that it prints is the number of
    files whose content it changed. *)
Theorem icon_pass_frame_and_count t :
  Forall2 entry_kept t (tree_after t) /\
  updated_count t = changed t (tree_after t).
Proof.
  unfold tree_after, updated_count, process_endpoint_icons.
  assert (H : Forall2 entry_kept t (fst (fst (process_dirs t))) /\
              snd (fst (process_dirs t)) = changed t (fst (fst (process_dirs t)))).
  { induction t as [|[category_name e] rest [IH1 IH2]];
      [split; [constructor | reflexivity]|].
    cbn [process_dirs].
    destruct (process_dirs rest) as [[rest' n] ms].
    cbn [fst snd] in IH1, IH2.
    destruct e as [children|].
    - destruct (Text.startswith (txt ".") category_name) eqn:Q.
      + cbn [fst snd changed]. split.
        * constructor; [|exact IH1]. split; [reflexivity|]. cbn [fst snd].
          split; [reflexivity|].
          clear. induction children as [|f l IH]; constructor;
            [split; reflexivity | exact IH].
        * assert (Z : changed_children children children = 0).
          { clear. induction children as [|[nm f] l IH]; [reflexivity|].
            cbn [changed_children]. now rewrite content_eqb_refl, IH. }
          rewrite Z. exact IH2.
      + destruct (process_files_kept category_name children) as [F1 F2].
        cbv zeta in F1, F2.
        destruct (process_files category_name children) as [[children' k] ms1].
        cbn [fst snd changed] in F1, F2 |- *. split.
        * constructor; [|exact IH1]. split; [reflexivity|]. cbn [fst snd].
          split; [congruence | exact F2].
        * congruence.
    - cbn [fst snd changed]. split; [|exact IH2].
      constructor; [|exact IH1]. split; reflexivity. }
  destruct (process_dirs t) as [[t1 n1] ms1]. exact H.
Qed.

End IconPassFacts.

(** ** From the emitter to the icon pass *)

Section PipelineFacts.

Import Emitter Icons IconPass.

Lemma letter_bounds c :
  is_ascii_letter c = true ->
  (97 <= nat_of_ascii c <= 122) \/ (65 <= nat_of_ascii c <= 90).
Proof.
  unfold is_ascii_letter, Text.is_lower, Text.is_upper. intros H.
  apply orb_true_iff in H as [H|H]; apply andb_true_iff in H as [H1 H2];
    apply Nat.leb_le in H1, H2; [left | right]; lia.
Qed.

Lemma letter_not (a : ascii) c :
  is_ascii_letter a = false -> is_ascii_letter c = true -> c <> a.
Proof. intros Ha Hc ->. congruence. Qed.

Lemma lower_char_letter c :
  is_ascii_letter c = true -> Text.is_lower (Text.lower_char c) = true.
Proof.
  intros H. unfold Text.lower_char.
  destruct (Text.is_upper c) eqn:U.
  - unfold Text.is_upper in U. apply andb_true_iff in U as [U1 U2].
    apply Nat.leb_le in U1, U2. unfold Text.is_lower.
    rewrite nat_ascii_embedding by lia.
    apply andb_true_iff. split; apply Nat.leb_le; lia.
  - unfold is_ascii_letter in H. now rewrite U, orb_false_r in H.
Qed.

Lemma lower_letters s :
  Forall (fun c => is_ascii_letter c = true) s ->
  Forall (fun c => Text.is_lower c = true) (Text.lower s).
Proof.
  induction 1 as [|c s Hc _ IH]; [constructor|].
  constructor; [now apply lower_char_letter | exact IH].
Qed.

Lemma lower_is_letter c : Text.is_lower c = true -> is_ascii_letter c = true.
Proof. intros H. unfold is_ascii_letter. now rewrite H. Qed.

Lemma Forall_not (a : ascii) s :
  is_ascii_letter a = false ->
  Forall (fun c => is_ascii_letter c = true) s -> Forall (fun c => c <> a) s.
Proof.
  intros Ha H. eapply Forall_impl; [|exact H].
  intros c Hc. now apply (letter_not Ha).
Qed.

Lemma replace_char_absent a new x r :
  Forall (fun c => c <> a) x ->
  Text.replace_from 0 [a] new (x ++ r) = x ++ Text.replace_from 0 [a] new r.
Proof.
  induction 1 as [|c x Hc _ IH]; [reflexivity|].
  cbn [app Text.replace_from Text.startswith].
  assert (E : Text.ascii_eqb a c = false) by (apply ascii_eqb_neq; congruence).
  rewrite E. cbn [andb]. now rewrite IH.
Qed.

Lemma replace_char_all_absent a new x :
  Forall (fun c => c <> a) x -> Text.replace_from 0 [a] new x = x.
Proof.
  intros H. rewrite <- (app_nil_r x) at 1.
  rewrite (replace_char_absent _ _ H). cbn. now rewrite app_nil_r.
Qed.

Lemma split_nonempty sep s : Text.split sep s <> [].
Proof.
  destruct s as [|c s]; [discriminate|]. cbn [Text.split].
  destruct (Text.ascii_eqb c sep); [discriminate|].
  destruct (Text.split sep s); discriminate.
Qed.

Lemma split_absent sep w :
  Forall (fun c => c <> sep) w -> Text.split sep w = [w].
Proof.
  induction 1 as [|c w Hc _ IH]; [reflexivity|].
  cbn [Text.split]. apply ascii_eqb_neq in Hc. now rewrite Hc, IH.
Qed.

Lemma split_app_sep sep a w :
  Text.split sep (a ++ sep :: w) = Text.split sep a ++ Text.split sep w.
Proof.
  induction a as [|c a IH]; cbn [app Text.split].
  - now rewrite ascii_eqb_refl.
  - destruct (Text.ascii_eqb c sep); [now rewrite IH|].
    rewrite IH. pose proof (split_nonempty sep a) as N.
    destruct (Text.split sep a); [contradiction | reflexivity].
Qed.

(** The name of a path whose last component holds no separator. *)
Lemma path_name_last a w :
  Forall (fun c => c <> "/"%char) w -> w <> [] -> w <> txt "." ->
  path_name (a ++ txt "/" ++ w) = w.
Proof.
  intros H N D. unfold path_name.
  change (a ++ txt "/" ++ w) with (a ++ "/"%char :: w).
  rewrite split_app_sep, (split_absent H), filter_app. cbn [filter].
  apply text_eqb_neq in N, D. rewrite N, D. cbn [negb andb].
  apply last_last.
Qed.

Lemma rfind_suffix (sep : ascii) x r :
  Forall (fun c => c <> sep) r ->
  Text.rfind sep (x ++ sep :: r) = Some (length x).
Proof.
  intros H.
  assert (R : Text.rfind sep r = None).
  { induction H as [|c r Hc _ IH]; [reflexivity|].
    cbn [Text.rfind]. rewrite IH. apply ascii_eqb_neq in Hc. now rewrite Hc. }
  induction x as [|c x IH]; cbn [app Text.rfind length].
  - now rewrite R, ascii_eqb_refl.
  - now rewrite IH.
Qed.

Lemma split1_first sep a b :
  Forall (fun c => c <> sep) a ->
  Text.split1 sep (a ++ sep :: b) = (a, Some b).
Proof.
  induction 1 as [|c a Hc _ IH]; cbn [app Text.split1].
  - now rewrite ascii_eqb_refl.
  - apply ascii_eqb_neq in Hc. now rewrite Hc, IH.
Qed.

Lemma take_while_all f s :
  Forall (fun c => f c = true) s -> take_while f s = s.
Proof.
  induction 1 as [|c s Hc _ IH]; [reflexivity|].
  cbn [take_while]. now rewrite Hc, IH.
Qed.

Lemma lower_lower s :
  Forall (fun c => Text.is_lower c = true) s -> Text.lower s = s.
Proof.
  intros H. apply lower_fixed. eapply Forall_impl; [|exact H].
  intros c Hc. unfold Text.is_lower, Text.is_upper in *.
  apply andb_true_iff in Hc as [H1 H2]. apply Nat.leb_le in H1, H2.
  apply andb_false_iff. right. apply Nat.leb_gt. lia.
Qed.

(** The file name of a path [/api/<category>/<operation>] of letters. *)
Lemma sanitize_two_segments cat name :
  Forall (fun c => is_ascii_letter c = true) cat ->
  Forall (fun c => is_ascii_letter c = true) name ->
  sanitize_filename (txt "/api/" ++ cat ++ txt "/" ++ name) =
  Text.lower cat ++ txt "-" ++ Text.lower name.
Proof.
  intros Hc Hn.
  assert (Sc : Forall (fun c => c <> "/"%char) cat)
    by now apply (@Forall_not "/"%char).
  assert (Sn : Forall (fun c => c <> "/"%char) name)
    by now apply (@Forall_not "/"%char).
  assert (A : Text.contains (txt "/api/") (cat ++ txt "/" ++ name) = false).
  { clear Hc Hn. induction Sc as [|c cat Hc _ IH].
    - cbn [app txt list_ascii_of_string Text.contains].
      rewrite (contains_absent_head _ Sn), orb_false_r.
      destruct (Text.startswith _ _) eqn:E; [|reflexivity].
      apply startswith_spec in E as [r E]. injection E as E.
      rewrite Forall_forall in Sn. destruct (Sn "/"%char); [|reflexivity].
      rewrite E. cbn. tauto.
    - cbn [app Text.contains]. rewrite IH, orb_false_r.
      cbn [txt list_ascii_of_string Text.startswith].
      apply andb_false_iff. left. apply ascii_eqb_neq. congruence. }
  unfold sanitize_filename, Text.replace. cbn [txt list_ascii_of_string].
  change ("/"%char :: "a"%char :: "p"%char :: "i"%char :: "/"%char :: cat ++
          "/"%char :: name)
    with (("/"%char :: txt "api/") ++ (cat ++ txt "/" ++ name)).
  rewrite replace_from_prefix. cbn [app].
  rewrite (replace_from_absent _ _ _ A).
  unfold Text.lower. rewrite map_app. cbn [map txt list_ascii_of_string app].
  change (Text.lower_char "/") with "/"%char.
  fold (Text.lower cat). fold (Text.lower name).
  pose proof (lower_letters Hc) as Lc. pose proof (lower_letters Hn) as Ln.
  assert (Lc' : Forall (fun c => c <> "/"%char) (Text.lower cat)).
  { apply (@Forall_not "/"%char); [reflexivity|].
    eapply Forall_impl; [|exact Lc]. apply lower_is_letter. }
  assert (Ln' : Forall (fun c => c <> "/"%char) (Text.lower name)).
  { apply (@Forall_not "/"%char); [reflexivity|].
    eapply Forall_impl; [|exact Ln]. apply lower_is_letter. }
  rewrite (replace_char_absent _ _ Lc').
  rewrite (@replace_from_prefix "/"%char [] _ (Text.lower name)).
  rewrite (replace_char_all_absent _ Ln').
  apply filter_fixed. apply Forall_app. split; [|constructor; [reflexivity|]].
  - eapply Forall_impl; [|exact Lc]. intros c Hl.
    unfold is_ident_char. now rewrite Hl.
  - eapply Forall_impl; [|exact Ln]. intros c Hl.
    unfold is_ident_char. now rewrite Hl.
Qed.

(** X17: the icon pass names the action of a page by the name of its file.  For
    the page of a path [/api/<category>/<operation>] (both of letters), in
    whatever directory the emitter put it, the action is the operation in
    lower case, so the icon is chosen by the words that the operation name
    starts with. *)
Theorem emitted_page_action dir cat name :
  Forall (fun c => is_ascii_letter c = true) cat ->
  Forall (fun c => is_ascii_letter c = true) name ->
  name <> [] ->
  let filename := sanitize_filename (txt "/api/" ++ cat ++ txt "/" ++ name) in
  filename = Text.lower cat ++ txt "-" ++ Text.lower name /\
  get_action_from_path
    (ENDPOINT_DIR ++ txt "/" ++ dir ++ txt "/" ++ filename ++ txt ".mdx")
    = Text.lower name /\
  icon_for dir (filename ++ txt ".mdx")
    = get_icon_for_endpoint dir (Text.lower name).
Proof.
  intros Hc Hn N. cbv zeta.
  rewrite (sanitize_two_segments Hc Hn).
  pose proof (lower_letters Hc) as Lc. pose proof (lower_letters Hn) as Ln.
  set (lc := Text.lower cat) in *. set (ln := Text.lower name) in *.
  assert (Nn : ln <> []).
  { unfold ln, Text.lower. destruct name; [contradiction | discriminate]. }
  assert (W : forall a l, is_ascii_letter a = false ->
                Forall (fun c => Text.is_lower c = true) l ->
                Forall (fun c => c <> a) l).
  { intros a l Ha Hl. apply (@Forall_not a l Ha).
    eapply Forall_impl; [|exact Hl]. apply lower_is_letter. }
  assert (A : get_action_from_path
                (ENDPOINT_DIR ++ txt "/" ++ dir ++ txt "/" ++
                 (lc ++ txt "-" ++ ln) ++ txt ".mdx") = ln).
  { replace (ENDPOINT_DIR ++ txt "/" ++ dir ++ txt "/" ++
             (lc ++ txt "-" ++ ln) ++ txt ".mdx")
      with ((ENDPOINT_DIR ++ txt "/" ++ dir) ++ txt "/" ++
            ((lc ++ txt "-" ++ ln) ++ txt ".mdx"))
      by now rewrite <- !app_assoc.
    unfold get_action_from_path, path_stem.
    rewrite path_name_last.
    - change ((lc ++ txt "-" ++ ln) ++ txt ".mdx")
        with ((lc ++ txt "-" ++ ln) ++ "."%char :: txt "mdx").
      rewrite rfind_suffix by (repeat constructor; discriminate).
      assert (B : (0 <? length (lc ++ txt "-" ++ ln)) &&
                  (length (lc ++ txt "-" ++ ln) <?
                   length ((lc ++ txt "-" ++ ln) ++ "."%char :: txt "mdx") - 1)
                  = true).
      { apply andb_true_iff. split; apply Nat.ltb_lt;
          rewrite !length_app; cbn [length txt list_ascii_of_string]; lia. }
      rewrite B, firstn_app, firstn_all, Nat.sub_diag. cbn [firstn].
      rewrite app_nil_r.
      change (lc ++ txt "-" ++ ln) with (lc ++ "-"%char :: ln).
      rewrite split1_first by (apply W; [reflexivity | exact Lc]).
      rewrite (lower_lower Ln), (take_while_all _ Ln).
      destruct ln; [contradiction | reflexivity].
    - apply Forall_app. split; [apply Forall_app; split|].
      + apply W; [reflexivity | exact Lc].
      + constructor; [discriminate|]. apply W; [reflexivity | exact Ln].
      + repeat constructor; discriminate.
    - intros E. apply (f_equal (@length _)) in E.
      rewrite !length_app in E. cbn in E. lia.
    - intros E. apply (f_equal (@length _)) in E.
      rewrite !length_app in E. cbn in E. lia. }
  split; [reflexivity|]. split; [exact A|].
  unfold icon_for. cbv zeta. now rewrite A.
Qed.

Lemma emitted_page_action_witness :
  sanitize_filename (txt "/api/" ++ txt "camera" ++ txt "/" ++ txt "getCameraList")
    = Text.lower (txt "camera") ++ txt "-" ++ Text.lower (txt "getCameraList") /\
  get_action_from_path
    (ENDPOINT_DIR ++ txt "/" ++ txt "camera" ++ txt "/" ++
     sanitize_filename (txt "/api/" ++ txt "camera" ++ txt "/" ++ txt "getCameraList")
     ++ txt ".mdx")
    = Text.lower (txt "getCameraList") /\
  icon_for (txt "camera")
    (sanitize_filename (txt "/api/" ++ txt "camera" ++ txt "/" ++ txt "getCameraList")
     ++ txt ".mdx")
    = get_icon_for_endpoint (txt "camera") (Text.lower (txt "getCameraList")).
Proof.
  apply (@emitted_page_action (txt "camera") (txt "camera") (txt "getCameraList")).
  - repeat constructor.
  - repeat constructor.
  - discriminate.
Defined.

End PipelineFacts.

(** ** The icon update on a page of the emitter *)

Section EmittedIcon.

Import Emitter Icons IconSpec.

Lemma scan_enough fuel1 :
  forall fuel2 s, length s <= fuel1 -> length s <= fuel2 ->
    scan fuel1 s = scan fuel2 s.
Proof.
  induction fuel1 as [|fuel1 IH]; intros fuel2 s H1 H2.
  - destruct s; [|simpl in H1; lia]. now destruct fuel2.
  - destruct s as [|c s]; [now destruct fuel2|].
    destruct fuel2 as [|fuel2]; [simpl in H2; lia|].
    cbn [scan]. destruct (match_icon (c :: s)) as [[v rest]|] eqn:M.
    + f_equal. apply match_icon_shorter in M. apply IH; simpl in *; lia.
    + f_equal. apply IH; simpl in *; lia.
Qed.

Lemma first_quote_unique a b r1 r2 :
  ~ In quote a -> ~ In quote b ->
  a ++ quote :: r1 = b ++ quote :: r2 -> a = b.
Proof.
  revert b; induction a as [|c a IH]; intros [|d b] Ha Hb E;
    cbn [app] in E.
  - reflexivity.
  - injection E as <- _. destruct Hb. now left.
  - injection E as -> _. destruct Ha. now left.
  - injection E as <- E. f_equal. apply (IH b); [| |exact E].
    + intros H. apply Ha. now right.
    + intros H. apply Hb. now right.
Qed.

Lemma no_quote_const s :
  forallb (fun c => negb (is_quote c)) s = true -> ~ In quote s.
Proof.
  intros F H. rewrite forallb_forall in F. specialize (F _ H).
  unfold is_quote, quote in F. now rewrite ascii_eqb_refl in F.
Qed.

Lemma open_in_piece x rest :
  ~ In quote x ->
  Text.startswith ICON_OPEN (x ++ dq ++ rest) = true -> x = txt "icon: ".
Proof.
  intros H S. apply startswith_spec in S as [r E].
  unfold ICON_OPEN in E. rewrite <- app_assoc in E.
  apply (@first_quote_unique x (txt "icon: ") rest r);
    [exact H | now apply no_quote_const | exact E].
Qed.

(** The updated text of a piece that ends at a quote and holds no field. *)
Lemma replaced_piece new_icon x :
  ~ In quote x ->
  (forall a, x <> a ++ txt "icon: ") ->
  forall fuel rest,
    length (x ++ dq ++ rest) <= fuel ->
    replaced new_icon (scan fuel (x ++ dq ++ rest)) =
    x ++ dq ++ replaced new_icon (scan (length rest) rest).
Proof.
  induction x as [|c x IH]; intros Hq He fuel rest Hf.
  - destruct fuel as [|fuel]; [cbn [app dq length] in Hf; lia|].
    cbn [app dq scan]. change (match_icon ("034"%char :: rest)) with (@None (text * text)).
    unfold replaced. cbn [flat_map render app]. f_equal.
    fold (replaced new_icon (scan fuel rest)).
    rewrite (@scan_enough fuel (length rest) rest); [reflexivity| |lia].
    cbn [app dq length] in Hf. lia.
  - destruct fuel as [|fuel]; [cbn [app length] in Hf; lia|].
    cbn [app scan].
    assert (M : match_icon (c :: x ++ dq ++ rest) = None).
    { unfold match_icon.
      destruct (Text.startswith ICON_OPEN (c :: x ++ dq ++ rest)) eqn:S;
        [|reflexivity].
      apply (@open_in_piece (c :: x) rest Hq) in S.
      now destruct (He []). }
    rewrite M. unfold replaced. cbn [flat_map render app]. f_equal.
    fold (replaced new_icon (scan fuel (x ++ dq ++ rest))).
    apply IH.
    + intros H. apply Hq. now right.
    + intros a E. apply (He (c :: a)). cbn [app]. now rewrite E.
    + cbn [app length] in Hf. lia.
Qed.

Lemma replaced_plain new_icon s :
  ~ In quote s -> replaced new_icon (scan (length s) s) = s.
Proof. intros H. now apply (@replaced_no_field new_icon (length s) s 0); [lia|]. Qed.

Lemma contains_suffix p a r : Text.contains p (a ++ p ++ r) = true.
Proof.
  induction a as [|c a IH].
  - cbn [app]. destruct (p ++ r) eqn:E; cbn [Text.contains];
      rewrite <- E, startswith_app; reflexivity.
  - cbn [app Text.contains]. rewrite IH. apply orb_true_r.
Qed.

Lemma no_end_of_contains x :
  Text.contains (txt "icon: ") x = false -> forall a, x <> a ++ txt "icon: ".
Proof.
  intros H a E. subst x.
  rewrite <- (app_nil_r (txt "icon: ")) in H at 2.
  now rewrite contains_suffix in H.
Qed.

Lemma no_end_const x :
  IconPass.endswith (txt "icon: ") x = false ->
  forall a, x <> a ++ txt "icon: ".
Proof.
  intros H a E. subst x. unfold IconPass.endswith in H.
  now rewrite rev_app_distr, startswith_app in H.
Qed.

Lemma no_end_of_tail a x :
  x <> [] -> ~ In " "%char x -> forall b, a ++ x <> b ++ txt "icon: ".
Proof.
  intros N H b E. destruct x as [|d x] using rev_ind; [contradiction|].
  clear IHx. rewrite app_assoc in E.
  change (txt "icon: ") with (txt "icon:" ++ [" "%char]) in E.
  rewrite (app_assoc b) in E. apply app_inj_tail in E as [_ ->].
  apply H. apply in_or_app. right. now left.
Qed.

Lemma in_replace_from c old s :
  forall k, In c (Text.replace_from k old [] s) -> In c s.
Proof.
  induction s as [|d s IH]; intros k H; [exact H|].
  cbn [Text.replace_from] in H. destruct k as [|k].
  - destruct (Text.startswith old (d :: s)).
    + right. now apply (IH _ H).
    + destruct H as [->|H]; [now left | right; now apply (IH _ H)].
  - right. now apply (IH _ H).
Qed.

Lemma dict_get_in {A} k (d : list (text * A)) v :
  dict_get k d = Some v -> In v (map snd d).
Proof.
  induction d as [|[k' v'] d IH]; [discriminate|].
  cbn [dict_get map snd]. destruct (Text.eqb k k'); intros H.
  - injection H as ->. now left.
  - right. now apply IH.
Qed.

Lemma in_all_plain (l : list text) x :
  forallb (forallb (fun c => negb (is_quote c))) l = true ->
  In x l -> ~ In quote x.
Proof.
  intros F H. rewrite forallb_forall in F. now apply no_quote_const, F.
Qed.

Lemma emitter_icon_plain category :
  ~ In quote (or_default (dict_get category icon_map) (txt "circle-dot")).
Proof.
  destruct (dict_get category icon_map) as [i|] eqn:E; cbn [or_default].
  - apply dict_get_in in E. revert E. now apply in_all_plain.
  - now apply no_quote_const.
Qed.

Lemma method_plain endpoint_data :
  ~ In quote (fst (fst (fst (get_method_and_summary endpoint_data)))).
Proof.
  unfold get_method_and_summary, METHODS. cbn [first_method].
  repeat match goal with
         | |- context [dict_get ?m endpoint_data] =>
             destruct (dict_get m endpoint_data)
         end; now apply no_quote_const.
Qed.

Lemma truncate_plain d :
  ~ In quote d -> (forall a, d <> a ++ txt "icon: ") ->
  ~ In quote (truncate_description d) /\
  (forall a, truncate_description d <> a ++ txt "icon: ").
Proof.
  intros Hq He. unfold truncate_description.
  destruct (160 <? length d); [|now split]. split.
  - intros H. apply in_app_or in H as [H|H].
    + apply Hq. rewrite <- (firstn_skipn 157 d). apply in_or_app. now left.
    + revert H. now apply no_quote_const.
  - intros a E.
    change (txt "...") with (txt ".." ++ ["."%char]) in E.
    change (txt "icon: ") with (txt "icon:" ++ [" "%char]) in E.
    rewrite !app_assoc in E. apply app_inj_tail in E as [_ E]. discriminate E.
Qed.

Lemma no_cr_const s :
  forallb (fun c => negb (Text.ascii_eqb c carriage_return)) s = true ->
  ~ In carriage_return s.
Proof.
  intros F H. rewrite forallb_forall in F. specialize (F _ H).
  now rewrite ascii_eqb_refl in F.
Qed.

Lemma emitter_icon_no_cr category :
  ~ In carriage_return
      (or_default (dict_get category icon_map) (txt "circle-dot")).
Proof.
  destruct (dict_get category icon_map) as [i|] eqn:E; cbn [or_default].
  - apply dict_get_in in E. revert E.
    assert (F : forallb (forallb (fun c => negb (Text.ascii_eqb c carriage_return)))
                  (map snd icon_map) = true) by reflexivity.
    intros Hin. rewrite forallb_forall in F. now apply no_cr_const, F.
  - now apply no_cr_const.
Qed.

Lemma method_no_cr endpoint_data :
  ~ In carriage_return (fst (fst (fst (get_method_and_summary endpoint_data)))).
Proof.
  unfold get_method_and_summary, METHODS. cbn [first_method].
  repeat match goal with
         | |- context [dict_get ?m endpoint_data] =>
             destruct (dict_get m endpoint_data)
         end; now apply no_cr_const.
Qed.

Lemma truncate_no_cr d :
  ~ In carriage_return d -> ~ In carriage_return (truncate_description d).
Proof.
  intros Hc. unfold truncate_description.
  destruct (160 <? length d); [|exact Hc].
  intros H. apply in_app_or in H as [H|H].
  - apply Hc. rewrite <- (firstn_skipn 157 d). apply in_or_app. now left.
  - revert H. now apply no_cr_const.
Qed.

Lemma replaced_keep new_icon c s fuel :
  match_icon (c :: s) = None ->
  length (c :: s) <= fuel ->
  replaced new_icon (scan fuel (c :: s)) =
  c :: replaced new_icon (scan (length s) s).
Proof.
  intros M Hf. destruct fuel as [|fuel]; [cbn [length] in Hf; lia|].
  cbn [scan]. rewrite M. unfold replaced. cbn [flat_map render app]. f_equal.
  rewrite (@scan_enough fuel (length s) s); [reflexivity| |lia].
  cbn [length] in Hf. lia.
Qed.

Lemma replaced_field new_icon icon rest fuel :
  ~ In quote icon ->
  length (ICON_OPEN ++ icon ++ dq ++ rest) <= fuel ->
  replaced new_icon (scan fuel (ICON_OPEN ++ icon ++ dq ++ rest)) =
  ICON_OPEN ++ new_icon ++ dq ++ replaced new_icon (scan (length rest) rest).
Proof.
  intros Hq Hf. destruct fuel as [|fuel];
    [rewrite length_app in Hf; cbn in Hf; lia|].
  rewrite scan_field by exact Hq. unfold replaced. cbn [flat_map render].
  rewrite <- !app_assoc. do 3 f_equal.
  rewrite (@scan_enough fuel (length rest) rest); [reflexivity| |lia].
  rewrite !length_app in Hf. cbn in Hf. lia.
Qed.

(** X18: the icon pass on a page that the emitter wrote.  When the summary, the
    description and the path hold no double quote and no carriage return,
    the summary and the description do not hold the text [icon: ] and the
    path holds no space, the page is read as it was written and the
    frontmatter line of the icon is its one icon field: the update with a
    new icon (without a backslash) sets the value of that line and keeps
    the rest of the page, and it answers [True] when the new icon differs
    from the one the emitter chose. *)
Theorem emitted_page_icon_update path endpoint_data category new_icon
    method summary description deprecated :
  get_method_and_summary endpoint_data = (method, summary, description, deprecated) ->
  ~ In quote summary -> ~ In quote description -> ~ In quote path ->
  ~ In carriage_return summary -> ~ In carriage_return description ->
  ~ In carriage_return path ->
  Text.contains (txt "icon: ") summary = false ->
  Text.contains (txt "icon: ") description = false ->
  path <> [] -> ~ In " "%char path ->
  ~ In backslash new_icon ->
  let icon := or_default (dict_get category icon_map) (txt "circle-dot") in
  let head :=
    txt "---" ++ nl ++
    txt "title: " ++ dq ++ str_or summary (Text.replace (txt "/api/") [] path)
      ++ dq ++ nl ++
    txt "description: " ++ dq ++ frontmatter_description path endpoint_data
      ++ dq ++ nl ++
    txt "openapi: " ++ dq ++ method ++ txt " " ++ path ++ dq ++ nl in
  exists post,
    generate_mdx_content path endpoint_data category =
      head ++ ICON_OPEN ++ icon ++ dq ++ post /\
    update_endpoint_icon
      (Some (generate_mdx_content path endpoint_data category)) new_icon =
      (negb (Text.eqb new_icon icon),
       Some (head ++ ICON_OPEN ++ new_icon ++ dq ++ post)).
Proof.
  intros Hg Qs Qd Qp Rs Rd Rp Cs Cd Np Sp Hb icon head.
  set (title := str_or summary (Text.replace (txt "/api/") [] path)) in *.
  set (desc := frontmatter_description path endpoint_data) in *.
  (* the fields of the frontmatter *)
  assert (Tq : ~ In quote title /\ forall a, title <> a ++ txt "icon: ").
  { unfold title. destruct summary as [|s0 summary]; cbn [str_or].
    - unfold Text.replace. cbn [txt list_ascii_of_string]. split.
      + intros H. apply in_replace_from in H. now apply Qp.
      + intros a E.
        assert (H : In " "%char (Text.replace_from 0 (txt "/api/") [] path)).
        { cbn [txt list_ascii_of_string]. rewrite E. apply in_or_app. right.
          cbn. tauto. }
        apply in_replace_from in H. now apply Sp.
    - split; [exact Qs | now apply no_end_of_contains]. }
  assert (Dq : ~ In quote desc /\ forall a, desc <> a ++ txt "icon: ").
  { unfold desc, frontmatter_description. rewrite Hg. apply truncate_plain.
    - destruct description as [|d0 description]; cbn [str_or]; [|exact Qd].
      destruct summary as [|s0 summary]; cbn [str_or]; [|exact Qs].
      intros H. apply in_app_or in H as [H|H]; [|now apply Qp].
      revert H. now apply no_quote_const.
    - destruct description as [|d0 description]; cbn [str_or];
        [|now apply no_end_of_contains].
      destruct summary as [|s0 summary]; cbn [str_or];
        [|now apply no_end_of_contains].
      now apply no_end_of_tail. }
  assert (Mq : ~ In quote (method ++ txt " " ++ path) /\
               forall a, method ++ txt " " ++ path <> a ++ txt "icon: ").
  { split.
    - pose proof (method_plain endpoint_data) as M. rewrite Hg in M.
      cbn [fst] in M. intros H. apply in_app_or in H as [H|H]; [now apply M|].
      apply in_app_or in H as [H|H]; [|now apply Qp].
      revert H. now apply no_quote_const.
    - intros a. rewrite app_assoc. now apply no_end_of_tail. }
  pose proof (emitter_icon_plain category) as Iq. fold icon in Iq.
  (* no carriage return in the fields *)
  assert (Tr : ~ In carriage_return title).
  { unfold title. destruct summary as [|s0 summary]; cbn [str_or];
      [|exact Rs].
    unfold Text.replace. cbn [txt list_ascii_of_string].
    intros H. apply in_replace_from in H. now apply Rp. }
  assert (Dr : ~ In carriage_return desc).
  { unfold desc, frontmatter_description. rewrite Hg. apply truncate_no_cr.
    destruct description as [|d0 description]; cbn [str_or]; [|exact Rd].
    destruct summary as [|s0 summary]; cbn [str_or]; [|exact Rs].
    intros H. apply in_app_or in H as [H|H]; [|now apply Rp].
    revert H. now apply no_cr_const. }
  assert (Mr : ~ In carriage_return method).
  { pose proof (method_no_cr endpoint_data) as M. rewrite Hg in M.
    exact M. }
  pose proof (emitter_icon_no_cr category) as Ir. fold icon in Ir.
  (* the shape of the page *)
  assert (P : exists tail,
             generate_mdx_content path endpoint_data category =
               head ++ ICON_OPEN ++ icon ++ dq ++ nl ++ tail /\
             ~ In quote tail /\ ~ In carriage_return tail).
  { unfold generate_mdx_content. rewrite Hg. cbv zeta.
    fold title. fold desc. fold icon. unfold head, ICON_OPEN.
    destruct deprecated, description as [|d0 description];
      try destruct (Text.eqb (d0 :: description) summary);
      (eexists; split; [rewrite <- !app_assoc; reflexivity|]);
      (split; intros H; repeat (apply in_app_or in H as [H|H]);
       try (now apply Qd); try (now apply Rd);
       try (revert H; now apply no_quote_const);
       try (revert H; now apply no_cr_const)). }
  destruct P as [tail [E [Tl Tc]]].
  exists (nl ++ tail). split; [exact E|].
  (* the page is read as it was written *)
  assert (Rt : read_text (generate_mdx_content path endpoint_data category) =
               generate_mdx_content path endpoint_data category).
  { apply read_text_plain. rewrite E. unfold head, ICON_OPEN.
    intros H. repeat (apply in_app_or in H as [H|H]);
      try (now apply Tr); try (now apply Dr); try (now apply Mr);
      try (now apply Rp); try (now apply Ir); try (now apply Tc);
      try (revert H; now apply no_cr_const). }
  rewrite update_some by exact Hb. cbv zeta. rewrite Rt.
  assert (U : replaced new_icon
                (scan (length (generate_mdx_content path endpoint_data category))
                      (generate_mdx_content path endpoint_data category)) =
              head ++ ICON_OPEN ++ new_icon ++ dq ++ nl ++ tail).
  { rewrite E.
    assert (S : forall i,
               head ++ ICON_OPEN ++ i ++ dq ++ nl ++ tail =
               (txt "---" ++ nl ++ txt "title: ") ++ dq ++ title ++ dq ++
               (nl ++ txt "description: ") ++ dq ++ desc ++ dq ++
               (nl ++ txt "openapi: ") ++ dq ++ (method ++ txt " " ++ path) ++ dq ++
               (nl ++ ICON_OPEN ++ i ++ dq ++ nl ++ tail)).
    { intros i. unfold head. now rewrite <- !app_assoc. }
    rewrite !S.
    rewrite replaced_piece;
      [|now apply no_quote_const|now apply no_end_const|apply Nat.le_refl].
    rewrite replaced_piece; [|apply Tq|apply Tq|apply Nat.le_refl].
    rewrite replaced_piece;
      [|now apply no_quote_const|now apply no_end_const|apply Nat.le_refl].
    rewrite replaced_piece; [|apply Dq|apply Dq|apply Nat.le_refl].
    rewrite replaced_piece;
      [|now apply no_quote_const|now apply no_end_const|apply Nat.le_refl].
    rewrite replaced_piece; [|apply Mq|apply Mq|apply Nat.le_refl].
    do 12 f_equal.
    change (nl ++ ICON_OPEN ++ icon ++ dq ++ nl ++ tail)
      with ("010"%char :: ICON_OPEN ++ icon ++ dq ++ nl ++ tail).
    rewrite replaced_keep; [|reflexivity|apply Nat.le_refl].
    rewrite replaced_field; [|exact Iq|apply Nat.le_refl].
    rewrite replaced_plain; [reflexivity|].
    intros H. apply in_app_or in H as [H|H]; [|now apply Tl].
    revert H. now apply no_quote_const. }
  rewrite U, E.
  destruct (Text.eqb new_icon icon) eqn:Q.
  - apply text_eqb_eq in Q as ->. now rewrite text_eqb_refl.
  - assert (N : Text.eqb (head ++ ICON_OPEN ++ new_icon ++ dq ++ nl ++ tail)
                         (head ++ ICON_OPEN ++ icon ++ dq ++ nl ++ tail) = false).
    { apply text_eqb_neq. intros Eq.
      apply app_inv_head, app_inv_head in Eq.
      apply app_inv_tail in Eq. apply text_eqb_neq in Q. contradiction. }
    now rewrite N.
Qed.


Lemma emitted_page_icon_update_witness :
  exists post,
    generate_mdx_content (txt "/api/x/y") Sample2.two_operations (txt "camera") =
      (txt "---" ++ nl ++
       txt "title: " ++ dq ++
         str_or (txt "List") (Text.replace (txt "/api/") [] (txt "/api/x/y"))
         ++ dq ++ nl ++
       txt "description: " ++ dq ++
         frontmatter_description (txt "/api/x/y") Sample2.two_operations
         ++ dq ++ nl ++
       txt "openapi: " ++ dq ++ txt "GET" ++ txt " " ++ txt "/api/x/y" ++ dq ++ nl)
      ++ ICON_OPEN ++ or_default (dict_get (txt "camera") icon_map) (txt "circle-dot")
      ++ dq ++ post /\
    update_endpoint_icon
      (Some (generate_mdx_content (txt "/api/x/y") Sample2.two_operations
               (txt "camera")))
      (txt "eye") =
      (negb (Text.eqb (txt "eye")
               (or_default (dict_get (txt "camera") icon_map) (txt "circle-dot"))),
       Some ((txt "---" ++ nl ++
              txt "title: " ++ dq ++
                str_or (txt "List") (Text.replace (txt "/api/") [] (txt "/api/x/y"))
                ++ dq ++ nl ++
              txt "description: " ++ dq ++
                frontmatter_description (txt "/api/x/y") Sample2.two_operations
                ++ dq ++ nl ++
              txt "openapi: " ++ dq ++ txt "GET" ++ txt " " ++ txt "/api/x/y"
                ++ dq ++ nl)
             ++ ICON_OPEN ++ txt "eye" ++ dq ++ post)).
Proof.
  apply (@emitted_page_icon_update (txt "/api/x/y") Sample2.two_operations
           (txt "camera") (txt "eye") (txt "GET") (txt "List") [] false).
  - reflexivity.
  - unfold quote. cbn. intuition discriminate.
  - intros [].
  - unfold quote. cbn. intuition discriminate.
  - unfold carriage_return. cbn. intuition discriminate.
  - intros [].
  - unfold carriage_return. cbn. intuition discriminate.
  - reflexivity.
  - reflexivity.
  - discriminate.
  - cbn. intuition discriminate.
  - unfold backslash. cbn. intuition discriminate.
Defined.

End EmittedIcon.

(** ** The pages that the generator writes *)

Section GeneratorFacts.

Import Emitter Generator.

Lemma file_path_same category p q :
  file_path category p = file_path category q <->
  sanitize_filename p = sanitize_filename q.
Proof.
  unfold file_path. split; intros H.
  - apply app_inv_head, app_inv_head in H. now apply app_inv_tail in H.
  - now rewrite H.
Qed.

Lemma fold_disk_other category k paths :
  forall st,
    Forall (fun r => file_path category (fst r) <> k) paths ->
    Dict.get k (fst (fst (fold_left (write_endpoint category) paths st))) =
    Dict.get k (fst (fst st)).
Proof.
  induction paths as [|[p item] paths IH]; intros [[disk gen] n] F;
    [reflexivity|].
  inversion F as [|? ? Hp F']; subst. cbn [fold_left].
  rewrite IH by exact F'. cbn [write_endpoint fst snd].
  apply dict_get_set_other. cbn [fst] in Hp. congruence.
Qed.

Lemma fold_disk_last category pre q item post st :
  Forall (fun r => file_path category (fst r) <> file_path category q) post ->
  Dict.get (file_path category q)
    (fst (fst (fold_left (write_endpoint category) (pre ++ (q, item) :: post) st)))
  = Some (generate_mdx_content q item category).
Proof.
  intros F. rewrite fold_left_app. cbn [fold_left].
  rewrite fold_disk_other by exact F.
  destruct (fold_left (write_endpoint category) pre st) as [[disk gen] n].
  cbn [write_endpoint fst snd]. apply dict_get_set_same.
Qed.

Lemma fold_generated category p paths :
  forall st,
    (In p (map fst paths) \/
     Dict.get p (snd (fst st)) = Some (nav_path category p)) ->
    Dict.get p (snd (fst (fold_left (write_endpoint category) paths st))) =
    Some (nav_path category p).
Proof.
  induction paths as [|[q item] paths IH]; intros [[disk gen] n] H.
  - destruct H as [[]|H]. exact H.
  - cbn [fold_left]. apply IH. cbn [write_endpoint fst snd].
    destruct (Text.eqb p q) eqn:E.
    + right. apply text_eqb_eq in E as ->. apply dict_get_set_same.
    + apply text_eqb_neq in E. destruct H as [[H|H]|H].
      * cbn [fst] in H. congruence.
      * now left.
      * right. now rewrite dict_get_set_other.
Qed.

(** The last entry of a list among those that a function sends where it
    sends a given entry. *)
Lemma last_such {A} (f : A -> text) x l :
  In x l ->
  exists pre y post,
    l = pre ++ y :: post /\ f y = f x /\
    Forall (fun r => f r <> f x) post.
Proof.
  induction l as [|a l IH] using rev_ind; intros H; [destruct H|].
  destruct (Text.eqb (f a) (f x)) eqn:E.
  - apply text_eqb_eq in E. exists l, a, []. repeat split; [exact E|constructor].
  - apply text_eqb_neq in E. apply in_app_or in H as [H|[->|[]]];
      [|contradiction].
    destruct (IH H) as [pre [y [post [-> [Ey F]]]]].
    exists pre, y, (post ++ [a]). split; [now rewrite <- app_assoc|].
    split; [exact Ey|]. apply Forall_app. split; [exact F|].
    constructor; [exact E | constructor].
Qed.

Lemma replace_head_absent a old new x r :
  Forall (fun c => c <> a) x ->
  Text.replace_from 0 (a :: old) new (x ++ r) =
  x ++ Text.replace_from 0 (a :: old) new r.
Proof.
  induction 1 as [|c x Hc _ IH]; [reflexivity|].
  cbn [app Text.replace_from Text.startswith].
  assert (E : Text.ascii_eqb a c = false) by (apply ascii_eqb_neq; congruence).
  rewrite E. cbn [andb]. now rewrite IH.
Qed.

Lemma ident_no_dot c : is_ident_char c = true -> c <> "."%char.
Proof. intros H ->. discriminate H. Qed.

Lemma process_parts name category paths disk :
  paths <> [] ->
  generated_files (process_category_file name category paths disk) =
    snd (fst (fold_left (write_endpoint category) paths (disk, [], 0))) /\
  disk_after (process_category_file name category paths disk) =
    fst (fst (fold_left (write_endpoint category) paths (disk, [], 0))).
Proof.
  intros N. unfold process_category_file, generated_files, disk_after.
  destruct paths as [|e paths]; [contradiction|].
  destruct (fold_left (write_endpoint category) (e :: paths) (disk, [], 0))
    as [[d g] n].
  split; reflexivity.
Qed.

(** X19: the generator writes one file per derived file name, not per path.
    Every path of the category file gets its navigation entry, but the file
    that the entry stands for holds the page of the last path of the
    category file with the same derived name: an earlier page of that name
    is overwritten.  Files of other names are left as they were, and when
    the category holds no dot the navigation entry is the path of the file
    under [docs], without [.mdx]. *)
Theorem generated_pages_last_write_wins name category paths disk p item :
  In (p, item) paths ->
  let r := process_category_file name category paths disk in
  Dict.get p (generated_files r) = Some (nav_path category p) /\
  (exists pre q item_q post,
      paths = pre ++ (q, item_q) :: post /\
      sanitize_filename q = sanitize_filename p /\
      Forall (fun e => sanitize_filename (fst e) <> sanitize_filename p) post /\
      Dict.get (file_path category p) (disk_after r)
        = Some (generate_mdx_content q item_q category)) /\
  (forall k,
      Forall (fun e => file_path category (fst e) <> k) paths ->
      Dict.get k (disk_after r) = Dict.get k disk) /\
  (~ In "."%char category -> category <> [] ->
   txt "docs/" ++ nav_path category p ++ txt ".mdx" = file_path category p).
Proof.
  intros Hin r.
  assert (N : paths <> []) by (intros ->; destruct Hin).
  destruct (process_parts name category disk N) as [G D].
  fold r in G, D. rewrite G, D. split; [|split; [|split]].
  - apply fold_generated. left.
    change p with (fst (p, item)). now apply in_map.
  - destruct (@last_such _ (fun e => sanitize_filename (fst e)) (p, item) paths Hin)
      as [pre [[q item_q] [post [E [Eq F]]]]].
    cbn [fst] in Eq, F. exists pre, q, item_q, post.
    split; [exact E|]. split; [exact Eq|]. split; [exact F|].
    rewrite E. rewrite <- (proj2 (file_path_same category q p) Eq).
    apply fold_disk_last. eapply Forall_impl; [|exact F].
    intros e He H. apply file_path_same in H. congruence.
  - intros k F. now rewrite fold_disk_other.
  - intros Hd Hn. unfold nav_path, file_path, category_dir.
    assert (E1 : Text.eqb category [] = false) by now apply text_eqb_neq.
    assert (E2 : Text.eqb category (txt ".") = false).
    { apply text_eqb_neq. intros ->. apply Hd. now left. }
    rewrite E1, E2. cbn [orb]. unfold ENDPOINT_DIR.
    change (txt "docs/api-reference/endpoint")
      with (txt "docs/" ++ txt "api-reference/endpoint").
    rewrite <- !app_assoc.
    rewrite skipn_app, skipn_all, Nat.sub_diag. cbn [skipn app].
    set (s := sanitize_filename p).
    replace (txt "api-reference/endpoint" ++ txt "/" ++ category ++ txt "/" ++
             s ++ txt ".mdx")
      with ((txt "api-reference/endpoint" ++ txt "/" ++ category ++ txt "/" ++ s)
            ++ txt ".mdx") by now rewrite <- !app_assoc.
    unfold Text.replace. cbn [txt list_ascii_of_string].
    rewrite replace_head_absent.
    + cbn [Text.replace_from Text.startswith Text.ascii_eqb Ascii.eqb
           Bool.eqb andb length Nat.sub app]. rewrite app_nil_r.
      now rewrite <- !app_assoc.
    + repeat (apply Forall_app; split);
        try (repeat constructor; discriminate).
      * apply Forall_forall. intros c Hc ->. now apply Hd.
      * eapply Forall_impl; [|apply filter_Forall]. apply ident_no_dot.
Qed.

Lemma generated_pages_last_write_wins_witness :
  Dict.get (txt "/api/x/getY")
    (generated_files
       (process_category_file (txt "x.json") (txt "x") Sample2.colliding_paths []))
    = Some (nav_path (txt "x") (txt "/api/x/getY")) /\
  (exists pre q item_q post,
      Sample2.colliding_paths = pre ++ (q, item_q) :: post /\
      sanitize_filename q = sanitize_filename (txt "/api/x/getY") /\
      Forall (fun e => sanitize_filename (fst e) <>
                       sanitize_filename (txt "/api/x/getY")) post /\
      Dict.get (file_path (txt "x") (txt "/api/x/getY"))
        (disk_after
           (process_category_file (txt "x.json") (txt "x")
              Sample2.colliding_paths []))
        = Some (generate_mdx_content q item_q (txt "x"))) /\
  (forall k,
      Forall (fun e => file_path (txt "x") (fst e) <> k) Sample2.colliding_paths ->
      Dict.get k
        (disk_after
           (process_category_file (txt "x.json") (txt "x")
              Sample2.colliding_paths []))
      = Dict.get k []) /\
  (~ In "."%char (txt "x") -> txt "x" <> [] ->
   txt "docs/" ++ nav_path (txt "x") (txt "/api/x/getY") ++ txt ".mdx"
     = file_path (txt "x") (txt "/api/x/getY")).
Proof.
  apply (@generated_pages_last_write_wins (txt "x.json") (txt "x")
           Sample2.colliding_paths [] (txt "/api/x/getY") Sample2.two_operations).
  left. reflexivity.
Defined.

End GeneratorFacts.

(** ** The summarizer on flat documents *)

Section SummarizerMore.

Import Summarizer FlatSpec.

Lemma bind_ok {A} (r : result A) : Py.bind r (fun a => Ok a) = r.
Proof. now destruct r. Qed.

Lemma traverse_cons x l cc ec :
  traverse (JArr (x :: l)) cc ec =
  Py.bind (traverse x cc ec) (fun ec' => traverse (JArr l) cc ec').
Proof. reflexivity. Qed.

Lemma traverse_flat_tab t cc ec :
  traverse (flat_tab t) cc ec = traverse (JArr (map flat_group (snd t))) cc ec.
Proof.
  unfold flat_tab. cbn [traverse].
  change (Dict.get (txt "group") _) with (@None json).
  cbn [Py.bind fst snd].
  change (Text.eqb (txt "pages") (txt "tab")) with false.
  change (Text.eqb (txt "pages") (txt "groups")) with false.
  cbv iota. cbn [Py.bind].
  match goal with
  | |- Py.bind ?r _ = ?r' => change r with r'; destruct r'; reflexivity
  end.
Qed.

Lemma traverse_flat_navigation tabs cc ec :
  traverse (flat_navigation tabs) cc ec = traverse (JArr (map flat_tab tabs)) cc ec.
Proof.
  unfold flat_navigation. cbn [traverse].
  change (Dict.get (txt "group") _) with (@None json).
  cbn [Py.bind fst snd].
  change (Text.eqb (txt "pages") (txt "tabs")) with false.
  cbv iota. cbn [Py.bind].
  match goal with
  | |- Py.bind ?r _ = ?r' => change r with r'; destruct r'; reflexivity
  end.
Qed.

Lemma traverse_flat_tabs tabs cc ec :
  Forall (fun g => fst g <> []) (groups_of tabs) ->
  traverse (JArr (map flat_tab tabs)) cc ec =
  Ok (fold_left (fun ec g => set_count (JStr (fst g)) (length (snd g)) ec)
                (groups_of tabs) ec).
Proof.
  revert ec. induction tabs as [|t tabs IH]; intros ec F; [reflexivity|].
  unfold groups_of in *. cbn [map concat] in *.
  apply Forall_app in F as [F1 F2].
  rewrite traverse_cons, traverse_flat_tab.
  unfold flat_group. rewrite traverse_flat_list by exact F1.
  cbn [Py.bind]. rewrite IH by exact F2. now rewrite fold_left_app.
Qed.

Lemma set_count_fresh k n ec :
  get_count k ec = None -> set_count k n ec = ec ++ [(k, n)].
Proof.
  induction ec as [|[k' m] ec IH]; intros H; [reflexivity|].
  cbn [get_count] in H. cbn [set_count app].
  destruct (key_eqb k k'); [discriminate|]. now rewrite IH.
Qed.

Lemma get_count_app k ec ec' :
  get_count k (ec ++ ec') =
  match get_count k ec with
  | Some n => Some n
  | None => get_count k ec'
  end.
Proof.
  induction ec as [|[k' m] ec IH]; [reflexivity|].
  cbn [app get_count]. destruct (key_eqb k k'); [reflexivity | exact IH].
Qed.

(** With distinct names the counts are listed group by group. *)
Lemma counts_flat_distinct (groups : list (text * list text)) :
  NoDup (map fst groups) ->
  forall ec,
    (forall g, In g groups -> get_count (JStr (fst g)) ec = None) ->
    fold_left (fun ec g => set_count (JStr (fst g)) (length (snd g)) ec) groups ec
    = ec ++ map (fun g => (JStr (fst g), length (snd g))) groups.
Proof.
  induction groups as [|[name leaves] groups IH]; intros ND ec Hf.
  - cbn [fold_left map]. now rewrite app_nil_r.
  - inversion ND as [|? ? Hn ND']; subst. cbn [fold_left fst snd map].
    rewrite set_count_fresh by (apply (Hf (name, leaves)); now left).
    rewrite IH; [now rewrite <- app_assoc | exact ND' |].
    intros g Hg. rewrite get_count_app.
    rewrite (Hf g) by now right. cbn [get_count key_eqb].
    destruct (Text.eqb (fst g) name) eqn:E; [|reflexivity].
    apply text_eqb_eq in E. destruct Hn. rewrite <- E. now apply in_map.
Qed.

(** The tabs of a navigation of flat groups are listed. *)
Lemma navigation_tabs_flat cfg tabs :
  Dict.get (txt "navigation") cfg = Some (flat_navigation tabs) ->
  exists infos, navigation_tabs (JObj cfg) = Ok infos.
Proof.
  intros Hn. unfold navigation_tabs. rewrite Hn.
  unfold flat_navigation. cbn [contains_str Dict.get Text.eqb].
  change (Text.eqb (txt "tabs") (txt "tabs")) with true.
  cbn [Py.bind Py.getitem Dict.get Py.iter].
  change (Text.eqb (txt "tabs") (txt "tabs")) with true. cbn [Py.bind Py.iter].
  clear Hn. induction tabs as [|[name groups] tabs [infos IH]].
  - now exists [].
  - eexists. cbn [map Py.mapM]. rewrite IH. reflexivity.
Qed.

(** X20: on a [docs.json] whose navigation holds tabs of flat groups, with
    group names that are not empty and differ from one another, the figures
    of the summarizer are right: the endpoint categories list every group
    with the number of its pages, in the order of the document, and the
    total is the number of pages. *)
Theorem flat_document_counts f c cfg tabs :
  docs_json f = Some c ->
  Json.load c = Some (JObj cfg) ->
  Dict.get (txt "navigation") cfg = Some (flat_navigation tabs) ->
  Forall (fun g => fst g <> []) (groups_of tabs) ->
  NoDup (map fst (groups_of tabs)) ->
  analyze_docs_json f =
  Ok (length (concat (map snd (groups_of tabs))),
      map (fun g => (JStr (fst g), length (snd g))) (groups_of tabs)).
Proof.
  intros Hd Hl Hn F ND. unfold analyze_docs_json. rewrite Hd, Hl.
  destruct (@navigation_tabs_flat cfg tabs Hn) as [infos ->].
  unfold endpoint_figures. rewrite Hn. unfold count_endpoints_in_nav.
  rewrite traverse_flat_navigation, traverse_flat_tabs by exact F.
  cbn [Py.bind]. rewrite counts_flat_distinct; [|exact ND|reflexivity].
  cbn [app]. f_equal. f_equal. unfold total. rewrite map_map. cbn [snd].
  clear. induction (groups_of tabs) as [|[name leaves] l IH]; [reflexivity|].
  cbn [map concat snd]. rewrite length_app, <- IH. reflexivity.
Qed.

Lemma flat_document_counts_witness :
  analyze_docs_json Sample2.flat_files =
  Ok (length (concat (map snd (groups_of Sample2.flat_tabs))),
      map (fun g => (JStr (fst g), length (snd g))) (groups_of Sample2.flat_tabs)).
Proof.
  apply (@flat_document_counts Sample2.flat_files
           (Json.dump (JObj Sample2.flat_docs)) Sample2.flat_docs
           Sample2.flat_tabs).
  - reflexivity.
  - vm_compute. reflexivity.
  - reflexivity.
  - repeat constructor; discriminate.
  - repeat (constructor; [cbn; intuition discriminate|]). constructor.
Defined.

End SummarizerMore.
